(** * MeatMath Pro: organization-scoped access control of the Express API

    A shallow embedding of the server side of the repository:

    - the relational schema ([shared/schema.ts]): tables, columns and column
      defaults;
    - [DatabaseStorage] ([server/storage.ts]): the query methods the routes
      call, over an explicit database state;
    - the route handlers of [registerRoutes] ([server/routes.ts]) and the
      [validateOrganizationAccess] middleware ([server/middleware/security.ts]);
    - [seedDefaultSpecies], which [registerRoutes] runs at start-up, and the
      [sanitizeInput] and [sqlInjectionProtection] middleware, over the
      outcomes of their regular expressions.

    Rows and request bodies are JavaScript objects, modelled as finite maps
    from property names to values.  Storage methods run in a small state and
    exception monad over a [World]: the database, the clock, the source of
    random uuids, an oracle telling which of the coming database statements
    the server rejects, and the trace of statements issued so far.

    The handlers are modelled from the point where Express calls them: the
    middleware mounted in front of them (security headers, rate limiters,
    [sanitizeInput], [sqlInjectionProtection], [isAuthenticated]) has let the
    request through, and the principal is [req.user.claims.sub]. *)

From stdpp Require Import gmap strings list fin_maps.
From Stdlib Require Import ZArith Lia Sorted.

Open Scope string_scope.

(** ** JavaScript values and objects *)

Module Js.

(** The values a column or a body property can hold.  A [timestamp] or
    [date] column is a [Date] (milliseconds), a [jsonb] column is kept in
    serialized form, a [decimal] column is the string drizzle returns. *)
Inductive JsVal :=
| Undefined
| Null
| Bool (b : bool)
| Num (z : Z)
| Str (s : string)
| Date (ms : Z)
| Json (s : string).

#[global] Instance JsVal_eq_dec : EqDecision JsVal.
Proof. solve_decision. Defined.

(** An object: absent properties read as [undefined]. *)
Abbreviation Obj := (gmap string JsVal).

Definition prop (o : Obj) (k : string) : JsVal := default Undefined (o !! k).

(** [ToBoolean]: what [!x] and [x || y] test. *)
Definition truthy (v : JsVal) : bool :=
  match v with
  | Undefined | Null => false
  | Bool b => b
  | Num z => negb (Z.eqb z 0)
  | Str s => negb (String.eqb s "")
  | Date _ | Json _ => true
  end.

(** [a || b] *)
Definition or (a b : JsVal) : JsVal := if truthy a then a else b.

(** [a === b] *)
Definition strictEq (a b : JsVal) : bool := bool_decide (a = b).

(** [xs.includes(v)] for an array of string literals. *)
Definition includes (xs : list string) (v : JsVal) : bool :=
  existsb (fun s => strictEq v (Str s)) xs.

End Js.
Export Js.

(** ** The schema *)

Inductive Table :=
| users | organizations | organizationMembers | species | customers
| processingRecords | cutInstructions | inventoryItems | invoices.

#[global] Instance Table_eq_dec : EqDecision Table.
Proof. solve_decision. Defined.

(** Column defaults: [.defaultRandom()], [.defaultNow()], [.default(v)]. *)
Inductive Default :=
| NoDefault
| DefaultRandom
| DefaultNow
| DefaultTo (v : JsVal).

Definition columns (t : Table) : list (string * Default) :=
  match t with
  | users =>
      [("id", NoDefault); ("email", NoDefault); ("firstName", NoDefault);
       ("lastName", NoDefault); ("profileImageUrl", NoDefault);
       ("createdAt", DefaultNow); ("updatedAt", DefaultNow)]
  | organizations =>
      [("id", DefaultRandom); ("name", NoDefault); ("description", NoDefault);
       ("industry", NoDefault); ("logo", NoDefault); ("website", NoDefault);
       ("phone", NoDefault); ("email", NoDefault); ("address", NoDefault);
       ("settings", DefaultTo (Json
          "{markupPercentage:25,taxRate:0,currency:USD,timezone:America/New_York}"));
       ("createdAt", DefaultNow); ("updatedAt", DefaultNow)]
  | organizationMembers =>
      [("id", DefaultRandom); ("organizationId", NoDefault);
       ("userId", NoDefault); ("role", DefaultTo (Str "viewer"));
       ("invitedAt", DefaultNow); ("joinedAt", NoDefault);
       ("isActive", DefaultTo (Bool true))]
  | species =>
      [("id", DefaultRandom); ("name", NoDefault); ("category", NoDefault);
       ("liveToHangingRatio", NoDefault); ("hangingToRetailRatio", NoDefault);
       ("averageProcessingCost", NoDefault); ("description", NoDefault);
       ("isActive", DefaultTo (Bool true)); ("createdAt", DefaultNow)]
  | customers =>
      [("id", DefaultRandom); ("organizationId", NoDefault); ("name", NoDefault);
       ("email", NoDefault); ("phone", NoDefault); ("company", NoDefault);
       ("billingAddress", NoDefault); ("shippingAddress", NoDefault);
       ("notes", NoDefault); ("customerType", DefaultTo (Str "individual"));
       ("isActive", DefaultTo (Bool true)); ("createdAt", DefaultNow);
       ("updatedAt", DefaultNow)]
  | processingRecords =>
      [("id", DefaultRandom); ("organizationId", NoDefault);
       ("customerId", NoDefault); ("speciesId", NoDefault);
       ("processingDate", NoDefault); ("totalLiveWeight", NoDefault);
       ("totalHangingWeight", NoDefault); ("totalRetailWeight", NoDefault);
       ("processingCost", NoDefault); ("notes", NoDefault);
       ("status", DefaultTo (Str "pending")); ("createdAt", DefaultNow);
       ("updatedAt", DefaultNow)]
  | cutInstructions =>
      [("id", DefaultRandom); ("organizationId", NoDefault); ("name", NoDefault);
       ("description", NoDefault); ("category", NoDefault);
       ("instructions", NoDefault); ("estimatedYield", NoDefault);
       ("processingTime", NoDefault); ("difficulty", DefaultTo (Str "medium"));
       ("isTemplate", DefaultTo (Bool false)); ("createdAt", DefaultNow);
       ("updatedAt", DefaultNow)]
  | inventoryItems =>
      [("id", DefaultRandom); ("organizationId", NoDefault); ("name", NoDefault);
       ("description", NoDefault); ("category", NoDefault); ("sku", NoDefault);
       ("unitType", DefaultTo (Str "lbs")); ("costPerUnit", NoDefault);
       ("retailPrice", NoDefault); ("wholesalePrice", NoDefault);
       ("currentStock", DefaultTo (Str "0")); ("lowStockAlert", DefaultTo (Str "0"));
       ("trackInventory", DefaultTo (Bool true)); ("isActive", DefaultTo (Bool true));
       ("createdAt", DefaultNow); ("updatedAt", DefaultNow)]
  | invoices =>
      [("id", DefaultRandom); ("organizationId", NoDefault);
       ("customerId", NoDefault); ("invoiceNumber", NoDefault);
       ("subtotal", NoDefault); ("taxAmount", DefaultTo (Str "0"));
       ("total", NoDefault); ("status", DefaultTo (Str "draft"));
       ("dueDate", NoDefault); ("paidDate", NoDefault); ("notes", NoDefault);
       ("createdAt", DefaultNow); ("updatedAt", DefaultNow)]
  end.

(** ** The database and the world around a request *)

Definition Db := Table → list Obj.

Definition setTable (t : Table) (rows : list Obj) (d : Db) : Db :=
  fun t' => if decide (t' = t) then rows else d t'.

(** One database statement, as the trace records it: the storage method
    that issued it, the scalar arguments and object argument it was given,
    and whether the server rejected it. *)
Record Call := mkCall {
  method : string;
  args : list JsVal;
  payload : option Obj;
  threw : bool
}.

#[global] Instance Call_eq_dec : EqDecision Call.
Proof. solve_decision. Defined.

(** - [now]: what [new Date()] and [defaultNow()] read;
    - [uuids], [drawn]: the outcomes of [defaultRandom()] and how many were
      used;
    - [faults]: for each coming statement, whether the server rejects it
      (connection lost, time-out, malformed literal, violated constraint);
      statements beyond the list succeed;
    - [log]: the statements issued so far, oldest first. *)
Record World := mkWorld {
  db : Db;
  now : Z;
  uuids : nat → string;
  drawn : nat;
  faults : list bool;
  log : list Call
}.

Definition noFaults (w : World) : Prop := Forall (fun b => b = false) (faults w).

(** ** Exceptions and state *)

Inductive Outcome (A : Type) :=
| Ok (a : A)
| Throw.
Arguments Ok {A} a.
Arguments Throw {A}.

Definition M (A : Type) : Type := World → Outcome A * World.

#[global] Instance M_ret : MRet M := fun _ a w => (Ok a, w).
#[global] Instance M_bind : MBind M := fun _ _ f m w =>
  match m w with
  | (Ok a, w') => f a w'
  | (Throw, w') => (Throw, w')
  end.

Definition throw {A} : M A := fun w => (Throw, w).

(** [try { body } catch (error) { handler }] *)
Definition tryCatch {A} (body handler : M A) : M A := fun w =>
  match body w with
  | (Ok a, w') => (Ok a, w')
  | (Throw, w') => handler w'
  end.

(** [await Promise.all(ms)]: every computation is started, in order, before
    any result is awaited; the whole rejects when one of them rejects. *)
Fixpoint promiseAll {A} (ms : list (M A)) : M (list A) := fun w =>
  match ms with
  | [] => (Ok [], w)
  | m :: ms' =>
      let '(r, w1) := m w in
      let '(rs, w2) := promiseAll ms' w1 in
      (match r, rs with
       | Ok a, Ok l => Ok (a :: l)
       | _, _ => Throw
       end, w2)
  end.

(** ** The query builder ([drizzle-orm]) *)

Module Sql.

(** [eq(column, value)]: SQL [=], which is never true on [NULL]; the driver
    sends [undefined] as [NULL].  The comparison is on the values as the rows
    hold them.  PostgreSQL compares a [uuid] column up to the spelling of the
    uuid and rejects a literal that is none: the first is not modelled, the
    second is an answer of the oracle of faults.  The properties below are
    therefore stated through this comparison and the queries built on it,
    not through equality of a stored value with a literal of the caller. *)
Definition eq (column : string) (value : JsVal) (row : Obj) : bool :=
  match prop row column, value with
  | (Undefined | Null), _ => false
  | _, (Undefined | Null) => false
  | a, b => bool_decide (a = b)
  end.

(** [and(c1, ..., cn)] *)
Definition and (conditions : list (Obj → bool)) (row : Obj) : bool :=
  forallb (fun c => c row) conditions.

(** The ascending order of [ORDER BY]: [NULL] sorts last; a column holds
    values of one type. *)
Definition le (a b : JsVal) : bool :=
  match a, b with
  | _, (Undefined | Null) => true
  | (Undefined | Null), _ => false
  | Date x, Date y => Z.leb x y
  | Num x, Num y => Z.leb x y
  | Str x, Str y => String.leb x y
  | Bool x, Bool y => implb x y
  | _, _ => true
  end.

Definition asc (column : string) (r1 r2 : Obj) : bool :=
  le (prop r1 column) (prop r2 column).
Definition desc (column : string) (r1 r2 : Obj) : bool :=
  le (prop r2 column) (prop r1 column).

Fixpoint place (before : Obj → Obj → bool) (r : Obj) (sorted : list Obj) : list Obj :=
  match sorted with
  | [] => [r]
  | r' :: rest => if before r r' then r :: sorted else r' :: place before r rest
  end.

(** [.orderBy(o)]: rows that compare equal keep the order of the table. *)
Definition orderBy (before : Obj → Obj → bool) (rows : list Obj) : list Obj :=
  foldr (place before) [] rows.

(** [.where(c)] *)
Definition where_ (c : Obj → bool) (rows : list Obj) : list Obj := List.filter c rows.

End Sql.

(** Whether the server rejects the coming statement. *)
Definition nextFails (w : World) : bool :=
  match faults w with
  | b :: _ => b
  | [] => false
  end.

(** The world after a statement was sent: the oracle has answered for it and
    the trace records it. *)
Definition advance (c : Call) (w : World) : World :=
  {| db := db w; now := now w; uuids := uuids w; drawn := drawn w;
     faults := tail (faults w); log := log w ++ [c] |}.

(** One statement sent to the server: it is logged, the oracle is asked, and
    only an accepted statement runs. *)
Definition statement {A} (m : string) (a : list JsVal) (p : option Obj)
    (run : World → A * World) : M A := fun w =>
  let w1 := advance (mkCall m a p (nextFails w)) w in
  if nextFails w then (Throw, w1) else let '(x, w2) := run w1 in (Ok x, w2).

(** [db.select()...]: reads the database. *)
Definition select {A} (m : string) (a : list JsVal) (q : Db → A) : M A :=
  statement m a None (fun w => (q (db w), w)).

Definition defaultValue (w : World) (d : Default) : JsVal :=
  match d with
  | NoDefault => Null
  | DefaultRandom => Str (uuids w (drawn w))
  | DefaultNow => Date (now w)
  | DefaultTo v => v
  end.

(** The row [INSERT] stores for [values]: every column of the table, with
    its default where [values] gives nothing.  A given value is held as it is
    given; the canonical spelling in which PostgreSQL returns a [decimal] or
    a [uuid] is not modelled. *)
Definition newRow (t : Table) (values : Obj) (w : World) : Obj :=
  list_to_map
    (map (fun cd : string * Default =>
            (cd.1, match values !! cd.1 with
                   | Some v => if decide (v = Undefined) then defaultValue w cd.2 else v
                   | None => defaultValue w cd.2
                   end))
         (columns t)).

(** The world after a row is stored: the table grows at its end and one
    uuid of the stream is used up. *)
Definition stored (t : Table) (r : Obj) (w : World) : World :=
  {| db := setTable t (db w t ++ [r]) (db w); now := now w;
     uuids := uuids w; drawn := S (drawn w);
     faults := faults w; log := log w |}.

(** [db.insert(t).values(v).returning()], first row. *)
Definition insertInto (m : string) (t : Table) (values : Obj) : M Obj :=
  statement m [] (Some values) (fun w =>
    let r := newRow t values w in (r, stored t r w)).

(** [.set(s)] on one row: the columns [s] defines are overwritten, with the
    values as they are given (see [newRow]). *)
Definition assign (t : Table) (s : Obj) (row : Obj) : Obj :=
  foldr (fun c acc =>
           match s !! c with
           | Some v => if decide (v = Undefined) then acc else <[c := v]> acc
           | None => acc
           end)
        row (map fst (columns t)).

(** The world after the rows of [t] that satisfy [c] are overwritten. *)
Definition rewritten (t : Table) (s : Obj) (c : Obj → bool) (w : World) : World :=
  {| db := setTable t (map (fun r => if c r then assign t s r else r) (db w t)) (db w);
     now := now w; uuids := uuids w; drawn := drawn w;
     faults := faults w; log := log w |}.

(** [db.update(t).set(s).where(c).returning()] *)
Definition updateWhere (m : string) (a : list JsVal) (p : option Obj) (t : Table)
    (s : World → Obj) (c : Obj → bool) : M (list Obj) :=
  statement m a p (fun w =>
    (map (assign t (s w)) (Sql.where_ c (db w t)), rewritten t (s w) c w)).

(** ** [DatabaseStorage] *)

Definition getUser (id : JsVal) : M (option Obj) :=
  select "getUser" [id] (fun d => head (Sql.where_ (Sql.eq "id" id) (d users))).

Definition createOrganization (org : Obj) : M Obj :=
  insertInto "createOrganization" organizations org.

Definition getOrganization (id : JsVal) : M (option Obj) :=
  select "getOrganization" [id]
    (fun d => head (Sql.where_ (Sql.eq "id" id) (d organizations))).

(** [organizations INNER JOIN organization_members ON organizations.id =
    organization_members.organization_id], restricted to the active
    memberships of [userId]; the selected fields are the columns of
    [organizations]. *)
Definition joinUserOrganizations (d : Db) (userId : JsVal) : list Obj :=
  flat_map
    (fun o =>
       map (fun _ => o)
         (Sql.where_
            (Sql.and [Sql.eq "organizationId" (prop o "id");
                      Sql.eq "userId" userId;
                      Sql.eq "isActive" (Bool true)])
            (d organizationMembers)))
    (d organizations).

Definition getUserOrganizations (userId : JsVal) : M (list Obj) :=
  select "getUserOrganizations" [userId] (fun d => joinUserOrganizations d userId).

Definition addOrganizationMember (member : Obj) : M Obj :=
  insertInto "addOrganizationMember" organizationMembers member.

(** The [where] clause of [getUserRole]. *)
Definition activeMembership (userId orgId : JsVal) : Obj → bool :=
  Sql.and [Sql.eq "userId" userId;
           Sql.eq "organizationId" orgId;
           Sql.eq "isActive" (Bool true)].

(** The query of [getUserRole] and its [member?.role || null]. *)
Definition selectUserRole (d : Db) (userId orgId : JsVal) : JsVal :=
  match head (map (fun m : Obj => ({[ "role" := prop m "role" ]} : Obj))
                  (Sql.where_ (activeMembership userId orgId) (d organizationMembers))) with
  | Some member => Js.or (prop member "role") Null
  | None => Null
  end.

Definition getUserRole (userId orgId : JsVal) : M JsVal :=
  select "getUserRole" [userId; orgId] (fun d => selectUserRole d userId orgId).

Definition getAllSpecies : M (list Obj) :=
  select "getAllSpecies" []
    (fun d => Sql.orderBy (Sql.asc "name")
                (Sql.where_ (Sql.eq "isActive" (Bool true)) (d species))).

Definition createSpecies (speciesData : Obj) : M Obj :=
  insertInto "createSpecies" species speciesData.

Definition selectCustomers (d : Db) (orgId : JsVal) : list Obj :=
  Sql.orderBy (Sql.desc "createdAt")
    (Sql.where_ (Sql.and [Sql.eq "organizationId" orgId; Sql.eq "isActive" (Bool true)])
       (d customers)).

Definition getCustomers (orgId : JsVal) : M (list Obj) :=
  select "getCustomers" [orgId] (fun d => selectCustomers d orgId).

Definition selectCustomer (d : Db) (id : JsVal) : option Obj :=
  head (Sql.where_ (Sql.eq "id" id) (d customers)).

Definition getCustomer (id : JsVal) : M (option Obj) :=
  select "getCustomer" [id] (fun d => selectCustomer d id).

Definition createCustomer (customer : Obj) : M Obj :=
  insertInto "createCustomer" customers customer.

Definition updateCustomer (id : JsVal) (customer : Obj) : M (option Obj) :=
  rows ← updateWhere "updateCustomer" [id] (Some customer) customers
           (fun w => <["updatedAt" := Date (now w)]> customer)
           (Sql.eq "id" id);
  mret (head rows).

(** The [set] of [deleteCustomer]. *)
Definition deactivation (w : World) : Obj :=
  <["isActive" := Bool false]> {[ "updatedAt" := Date (now w) ]}.

(** The customers table after the update of [deleteCustomer id]. *)
Definition deactivated (w : World) (id : JsVal) (rows : list Obj) : list Obj :=
  map (fun r => if Sql.eq "id" id r then assign customers (deactivation w) r else r) rows.

Definition deleteCustomer (id : JsVal) : M unit :=
  _ ← updateWhere "deleteCustomer" [id] None customers deactivation (Sql.eq "id" id);
  mret tt.

Definition getProcessingRecords (orgId : JsVal) : M (list Obj) :=
  select "getProcessingRecords" [orgId]
    (fun d => Sql.orderBy (Sql.desc "processingDate")
                (Sql.where_ (Sql.eq "organizationId" orgId) (d processingRecords))).

Definition createProcessingRecord (record : Obj) : M Obj :=
  insertInto "createProcessingRecord" processingRecords record.

Definition getCutInstructions (orgId : JsVal) : M (list Obj) :=
  select "getCutInstructions" [orgId]
    (fun d => Sql.orderBy (Sql.desc "createdAt")
                (Sql.where_ (Sql.eq "organizationId" orgId) (d cutInstructions))).

Definition createCutInstruction (instruction : Obj) : M Obj :=
  insertInto "createCutInstruction" cutInstructions instruction.

Definition getInventoryItems (orgId : JsVal) : M (list Obj) :=
  select "getInventoryItems" [orgId]
    (fun d => Sql.orderBy (Sql.asc "name")
                (Sql.where_ (Sql.and [Sql.eq "organizationId" orgId;
                                      Sql.eq "isActive" (Bool true)])
                   (d inventoryItems))).

Definition createInventoryItem (item : Obj) : M Obj :=
  insertInto "createInventoryItem" inventoryItems item.

Definition getInvoices (orgId : JsVal) : M (list Obj) :=
  select "getInvoices" [orgId]
    (fun d => Sql.orderBy (Sql.desc "createdAt")
                (Sql.where_ (Sql.eq "organizationId" orgId) (d invoices))).

Definition createInvoice (invoice : Obj) : M Obj :=
  insertInto "createInvoice" invoices invoice.

(** [getDashboardMetrics] sends four statements.  The two counts are
    modelled; [revenue] and [averageYield] are floating-point numbers
    ([parseFloat] of a decimal sum and average) and are left out of the
    result. *)
Definition getDashboardMetrics (orgId : JsVal) : M Obj :=
  animalCount ← select "getDashboardMetrics" [orgId]
    (fun d => length (Sql.where_ (Sql.eq "organizationId" orgId) (d processingRecords)));
  _ ← select "getDashboardMetrics" [orgId]
    (fun d => Sql.where_ (Sql.and [Sql.eq "organizationId" orgId;
                                   Sql.eq "status" (Str "paid")]) (d invoices));
  _ ← select "getDashboardMetrics" [orgId]
    (fun d => Sql.where_ (Sql.eq "organizationId" orgId) (d processingRecords));
  customerCount ← select "getDashboardMetrics" [orgId]
    (fun d => length (Sql.where_ (Sql.and [Sql.eq "organizationId" orgId;
                                           Sql.eq "isActive" (Bool true)]) (d customers)));
  mret (<["totalAnimals" := Num (Z.of_nat animalCount)]>
          ({[ "activeCustomers" := Num (Z.of_nat customerCount) ]} : Obj)).

(** ** Requests and responses *)

(** What [res.json(x)] sends. *)
Inductive Json :=
| JUndefined
| JObject (o : Obj)
| JArray (l : list Obj).

Record Response := mkResponse {
  status : nat;
  json : Json
}.

(** [{ message: s }] *)
Definition message (s : string) : Json := JObject {[ "message" := Str s ]}.

(** [res.json(x)] *)
Definition resJson (j : Json) : Response := mkResponse 200 j.

Definition jsonOpt (o : option Obj) : Json :=
  match o with
  | Some r => JObject r
  | None => JUndefined
  end.

(** A request to one of the routes, past [isAuthenticated].  Route
    parameters are strings; a body is given by the outcome of its schema's
    [parse]: the parsed object, or [None] when [parse] throws.  The schemas
    come from [drizzle-zod]; which objects they accept is not modelled, and
    the properties below hold for every parsed object. *)
Inductive Request :=
| GetAuthUser
| GetOrganizations
| PostOrganizations (body : option Obj)
| GetOrganization (id : string)
| GetDashboard (orgId : string)
| GetSpecies
| PostSpecies (body : option Obj)
| GetCustomers (orgId : string)
| PostCustomers (body : option Obj)
| PutCustomer (id : string) (body : option Obj)
| DeleteCustomer (id : string)
| GetProcessingRecords (orgId : string)
| PostProcessingRecords (body : option Obj)
| GetInventory (orgId : string)
| PostInventory (body : option Obj)
| GetInvoices (orgId : string)
| PostInvoices (body : option Obj)
| GetCutInstructions (orgId : string)
| PostCutInstructions (body : option Obj).

(** [schema.parse(req.body)] *)
Definition parse (body : option Obj) : M Obj :=
  match body with
  | Some o => mret o
  | None => throw
  end.

(** [catch (error) { res.status(500).json({ message: m }) }] *)
Definition failed (m : string) : M Response := mret (mkResponse 500 (message m)).

Definition accessDenied : Response := mkResponse 403 (message "Access denied").

(** ** The routes *)

Module Routes.

(** [!role || !['owner', 'admin', 'editor'].includes(role)] *)
Definition cannotWrite (role : JsVal) : bool :=
  negb (truthy role) || negb (includes ["owner"; "admin"; "editor"] role).

(** [role === 'owner' || role === 'admin'] *)
Definition isOwnerOrAdmin (role : JsVal) : bool :=
  strictEq role (Str "owner") || strictEq role (Str "admin").

(** The shape shared by the [GET /api/<resource>/:orgId] handlers. *)
Definition listFor (userId : string) (orgId : string)
    (fetch : JsVal → M (list Obj)) (failure : string) : M Response :=
  tryCatch
    (role ← getUserRole (Str userId) (Str orgId);
     if negb (truthy role) then mret accessDenied
     else rows ← fetch (Str orgId); mret (resJson (JArray rows)))
    (failed failure).

(** The shape shared by the [POST /api/<resource>] handlers that create a
    record of an organization. *)
Definition createFor (userId : string) (body : option Obj)
    (create : Obj → M Obj) (failure : string) : M Response :=
  tryCatch
    (data ← parse body;
     role ← getUserRole (Str userId) (prop data "organizationId");
     if cannotWrite role then mret accessDenied
     else row ← create data; mret (resJson (JObject row)))
    (failed failure).

Definition getAuthUser (userId : string) : M Response :=
  tryCatch
    (user ← getUser (Str userId); mret (resJson (jsonOpt user)))
    (failed "Failed to fetch user").

Definition getOrganizations (userId : string) : M Response :=
  tryCatch
    (orgs ← getUserOrganizations (Str userId); mret (resJson (JArray orgs)))
    (failed "Failed to fetch organizations").

Definition postOrganizations (userId : string) (body : option Obj) : M Response :=
  tryCatch
    (orgData ← parse body;
     organization ← createOrganization orgData;
     joinedAt ← (fun w => (Ok (Date (now w)), w));
     _ ← addOrganizationMember
           (<["organizationId" := prop organization "id"]>
              (<["userId" := Str userId]>
                 (<["role" := Str "owner"]> {[ "joinedAt" := joinedAt ]})));
     mret (resJson (JObject organization)))
    (failed "Failed to create organization").

Definition getOrganizationById (userId : string) (orgId : string) : M Response :=
  tryCatch
    (role ← getUserRole (Str userId) (Str orgId);
     if negb (truthy role) then mret accessDenied
     else
       organization ← getOrganization (Str orgId);
       match organization with
       | None => mret (mkResponse 404 (message "Organization not found"))
       | Some o => mret (resJson (JObject o))
       end)
    (failed "Failed to fetch organization").

Definition getDashboard (userId : string) (orgId : string) : M Response :=
  tryCatch
    (role ← getUserRole (Str userId) (Str orgId);
     if negb (truthy role) then mret accessDenied
     else metrics ← getDashboardMetrics (Str orgId); mret (resJson (JObject metrics)))
    (failed "Failed to fetch dashboard metrics").

Definition getSpeciesList : M Response :=
  tryCatch
    (all ← getAllSpecies; mret (resJson (JArray all)))
    (failed "Failed to fetch species").

Definition speciesDenied : Response :=
  mkResponse 403
    (message "Access denied. Only organization owners and admins can create species.").

Definition postSpecies (userId : string) (body : option Obj) : M Response :=
  tryCatch
    (speciesData ← parse body;
     userOrganizations ← getUserOrganizations (Str userId);
     hasAdminRole ← promiseAll
       (map (fun org =>
               role ← getUserRole (Str userId) (prop org "id");
               mret (isOwnerOrAdmin role))
            userOrganizations);
     if Nat.eqb (length userOrganizations) 0 || negb (existsb id hasAdminRole)
     then mret speciesDenied
     else created ← createSpecies speciesData; mret (resJson (JObject created)))
    (failed "Failed to create species").

Definition getCustomersOf (userId orgId : string) : M Response :=
  listFor userId orgId getCustomers "Failed to fetch customers".

Definition postCustomers (userId : string) (body : option Obj) : M Response :=
  createFor userId body createCustomer "Failed to create customer".

Definition putCustomer (userId customerId : string) (body : option Obj) : M Response :=
  tryCatch
    (customerData ← parse body;
     existingCustomer ← getCustomer (Str customerId);
     match existingCustomer with
     | None => mret (mkResponse 404 (message "Customer not found"))
     | Some existing =>
         role ← getUserRole (Str userId) (prop existing "organizationId");
         if cannotWrite role then mret accessDenied
         else
           customer ← updateCustomer (Str customerId) customerData;
           mret (resJson (jsonOpt customer))
     end)
    (failed "Failed to update customer").

Definition deleteCustomerById (userId customerId : string) : M Response :=
  tryCatch
    (existingCustomer ← getCustomer (Str customerId);
     match existingCustomer with
     | None => mret (mkResponse 404 (message "Customer not found"))
     | Some existing =>
         role ← getUserRole (Str userId) (prop existing "organizationId");
         if cannotWrite role then mret accessDenied
         else
           _ ← deleteCustomer (Str customerId);
           mret (resJson (message "Customer deleted successfully"))
     end)
    (failed "Failed to delete customer").

(** The handler registered for each route. *)
Definition handle (userId : string) (req : Request) : M Response :=
  match req with
  | GetAuthUser => getAuthUser userId
  | GetOrganizations => getOrganizations userId
  | PostOrganizations body => postOrganizations userId body
  | GetOrganization id => getOrganizationById userId id
  | GetDashboard orgId => getDashboard userId orgId
  | GetSpecies => getSpeciesList
  | PostSpecies body => postSpecies userId body
  | GetCustomers orgId => getCustomersOf userId orgId
  | PostCustomers body => postCustomers userId body
  | PutCustomer id body => putCustomer userId id body
  | DeleteCustomer id => deleteCustomerById userId id
  | GetProcessingRecords orgId =>
      listFor userId orgId getProcessingRecords "Failed to fetch processing records"
  | PostProcessingRecords body =>
      createFor userId body createProcessingRecord "Failed to create processing record"
  | GetInventory orgId =>
      listFor userId orgId getInventoryItems "Failed to fetch inventory items"
  | PostInventory body =>
      createFor userId body createInventoryItem "Failed to create inventory item"
  | GetInvoices orgId => listFor userId orgId getInvoices "Failed to fetch invoices"
  | PostInvoices body => createFor userId body createInvoice "Failed to create invoice"
  | GetCutInstructions orgId =>
      listFor userId orgId getCutInstructions "Failed to fetch cut instructions"
  | PostCutInstructions body =>
      createFor userId body createCutInstruction "Failed to create cut instruction"
  end.

End Routes.

(** ** The [validateOrganizationAccess] middleware *)

Module Security.


Inductive Passed :=
| Next
| Sent (r : Response).


End Security.

(** ** Vocabulary of the properties *)

(** The statements issued between two worlds of one run. *)
Definition issued (w w' : World) : list Call := drop (length (log w)) (log w').

(** The rows [getUserRole] selects among: the active memberships of the
    pair. *)
Definition activeMemberships (d : Db) (userId orgId : JsVal) : list Obj :=
  Sql.where_ (activeMembership userId orgId) (d organizationMembers).

(** The membership rows of a pair, active or not. *)
Definition ofPair (userId orgId : JsVal) : Obj → bool :=
  Sql.and [Sql.eq "userId" userId; Sql.eq "organizationId" orgId].

(** The organization an organization-scoped request is directed at: the
    route parameter of a listing, the [organizationId] of the parsed body of
    a creation, the [organizationId] stored on the customer that an update or
    a deletion names.  Other requests have none. *)
Definition targetOrg (d : Db) (req : Request) : option JsVal :=
  match req with
  | GetOrganization o | GetDashboard o | GetCustomers o | GetProcessingRecords o
  | GetInventory o | GetInvoices o | GetCutInstructions o => Some (Str o)
  | PostCustomers (Some b) | PostProcessingRecords (Some b) | PostInventory (Some b)
  | PostInvoices (Some b) | PostCutInstructions (Some b) =>
      Some (prop b "organizationId")
  | PutCustomer id (Some _) | DeleteCustomer id =>
      (fun c : Obj => prop c "organizationId") <$> selectCustomer d (Str id)
  | _ => None
  end.

(** The requests whose handler applies the [owner]/[admin]/[editor] test. *)
Definition isWrite (req : Request) : bool :=
  match req with
  | PostCustomers _ | PostProcessingRecords _ | PostInventory _ | PostInvoices _
  | PostCutInstructions _ | PutCustomer _ _ | DeleteCustomer _ => true
  | _ => false
  end.

(** The role test of the handler of an organization-scoped request. *)
Definition roleCheckFails (req : Request) (role : JsVal) : bool :=
  if isWrite req then Routes.cannotWrite role else negb (truthy role).

(** The storage method that carries out a write request. *)
Definition mutation (req : Request) : string :=
  match req with
  | PostCustomers _ => "createCustomer"
  | PostProcessingRecords _ => "createProcessingRecord"
  | PostInventory _ => "createInventoryItem"
  | PostInvoices _ => "createInvoice"
  | PostCutInstructions _ => "createCutInstruction"
  | PutCustomer _ _ => "updateCustomer"
  | DeleteCustomer _ => "deleteCustomer"
  | _ => ""
  end.

(** The message of the [catch] branch of each route. *)
Definition failureMessage (req : Request) : string :=
  match req with
  | GetAuthUser => "Failed to fetch user"
  | GetOrganizations => "Failed to fetch organizations"
  | PostOrganizations _ => "Failed to create organization"
  | GetOrganization _ => "Failed to fetch organization"
  | GetDashboard _ => "Failed to fetch dashboard metrics"
  | GetSpecies => "Failed to fetch species"
  | PostSpecies _ => "Failed to create species"
  | GetCustomers _ => "Failed to fetch customers"
  | PostCustomers _ => "Failed to create customer"
  | PutCustomer _ _ => "Failed to update customer"
  | DeleteCustomer _ => "Failed to delete customer"
  | GetProcessingRecords _ => "Failed to fetch processing records"
  | PostProcessingRecords _ => "Failed to create processing record"
  | GetInventory _ => "Failed to fetch inventory items"
  | PostInventory _ => "Failed to create inventory item"
  | GetInvoices _ => "Failed to fetch invoices"
  | PostInvoices _ => "Failed to create invoice"
  | GetCutInstructions _ => "Failed to fetch cut instructions"
  | PostCutInstructions _ => "Failed to create cut instruction"
  end.

Definition serverError (req : Request) : Response :=
  mkResponse 500 (message (failureMessage req)).

(** The statements a handler issues up to and including its role lookup:
    update and deletion of a customer fetch the customer first. *)
Definition lookups (req : Request) : nat :=
  match req with
  | PutCustomer _ _ | DeleteCustomer _ => 2
  | _ => 1
  end.

(** The answer to a request whose role test fails, under the oracle [fs]:
    the refusal, or the server error when a lookup is rejected. *)
Definition denial (req : Request) (fs : list bool) : Response :=
  if existsb id (take (lookups req) fs) then serverError req else accessDenied.

Definition customerNotFound : Response :=
  mkResponse 404 (message "Customer not found").

(** The trace entries of the two lookups that precede a role test. *)
Definition roleCall (userId orgId : JsVal) (threw : bool) : Call :=
  mkCall "getUserRole" [userId; orgId] None threw.

Definition customerCall (id : JsVal) (threw : bool) : Call :=
  mkCall "getCustomer" [id] None threw.

(** The trace of the role lookups [Promise.all] starts for the
    organizations [orgs], under the oracle [fs]. *)
Fixpoint roleCalls (userId : JsVal) (orgs : list Obj) (fs : list bool) : list Call :=
  match orgs with
  | [] => []
  | o :: orgs' =>
      roleCall userId (prop o "id") (hd false fs) :: roleCalls userId orgs' (tail fs)
  end.

(** The world after the statements [cs] were issued, none of which changes
    the database. *)
Definition logged (cs : list Call) (w : World) : World :=
  {| db := db w; now := now w; uuids := uuids w; drawn := drawn w;
     faults := drop (length cs) (faults w); log := log w ++ cs |}.

(** The principal holds neither [owner] nor [admin] in any active
    membership: only other roles, or no membership at all. *)
Definition holdsNoAdminRole (d : Db) (P : string) : Prop :=
  ∀ m, In m (d organizationMembers) →
       Sql.eq "userId" (Str P) m = true →
       prop m "isActive" = Bool true →
       prop m "role" ≠ Str "owner" ∧ prop m "role" ≠ Str "admin".

(** The refusal of each route: species creation has a message of its
    own. *)
Definition refusal (req : Request) : Response :=
  match req with
  | PostSpecies _ => Routes.speciesDenied
  | _ => accessDenied
  end.

(** The principal has no active membership where the request needs one: in
    the organization the request is directed at, or, for species creation, in
    any organization. *)
Definition notAMember (d : Db) (P : string) (req : Request) : Prop :=
  match req with
  | PostSpecies (Some _) =>
      ∀ m, In m (d organizationMembers) →
           Sql.eq "userId" (Str P) m = true → prop m "isActive" ≠ Bool true
  | _ => ∃ O, targetOrg d req = Some O ∧ activeMemberships d (Str P) O = []
  end.

(** The principal has an active membership there, with a role that fails
    the role test of the request. *)
Definition insufficientRole (d : Db) (P : string) (req : Request) : Prop :=
  match req with
  | PostSpecies (Some _) =>
      (∃ m, In m (d organizationMembers)
            ∧ Sql.eq "userId" (Str P) m = true ∧ prop m "isActive" = Bool true)
      ∧ holdsNoAdminRole d P
  | _ => ∃ O, targetOrg d req = Some O
              ∧ activeMemberships d (Str P) O ≠ []
              ∧ roleCheckFails req (selectUserRole d (Str P) O) = true
  end.

(** The statements by which a handler decides on a request: the role
    lookup, the listing of the organizations of the principal, the fetch of
    the customer. *)
Definition lookupMethod (m : string) : Prop :=
  m = "getUserRole" ∨ m = "getUserOrganizations" ∨ m = "getCustomer".

(** A computation that issues no such lookup. *)
Definition Quiet {A} (m : M A) : Prop :=
  ∀ w, ∃ cs, log (m w).2 = (log w ++ cs)%list
             ∧ Forall (fun c => ¬ lookupMethod (method c)) cs.

(** A trace entry other than a rejected lookup. *)
Definition Harmless (c : Call) : Prop :=
  lookupMethod (method c) → threw c = false.

(** A computation that returns only when the store accepted every
    statement it issued. *)
Definition Clean {A} (m : M A) : Prop :=
  ∀ w, ∃ cs, log (m w).2 = (log w ++ cs)%list
             ∧ ∀ a, (m w).1 = Ok a → Forall (fun c => threw c = false) cs.

(** A tail of a trace in which only role lookups follow any statement. *)
Definition Closing (tl : list Call) : Prop :=
  ∀ l c post, tl = (l ++ c :: post)%list →
              Forall (fun c' => method c' = "getUserRole") post.




(** The two statements the handler of an organization-scoped request
    issues before its role test. *)
Definition isLookup (c : Call) : Prop :=
  method c = "getUserRole" ∨ method c = "getCustomer".

(** ** Sample data *)

Module Sample.

Definition member (userId orgId role : string) (active : JsVal) : Obj :=
  <["id" := Str ("m-" ++ userId ++ "-" ++ orgId)]>
    (<["organizationId" := Str orgId]>
       (<["userId" := Str userId]>
          (<["role" := Str role]>
             (<["invitedAt" := Date 0]>
                (<["joinedAt" := Date 1]> {[ "isActive" := active ]}))))).

Definition organization (id name : string) : Obj :=
  <["id" := Str id]> {[ "name" := Str name ]}.

Definition customer (id orgId name : string) (created : Z) : Obj :=
  <["id" := Str id]>
    (<["organizationId" := Str orgId]>
       (<["name" := Str name]>
          (<["customerType" := Str "individual"]>
             (<["isActive" := Bool true]>
                (<["createdAt" := Date created]> {[ "updatedAt" := Date created ]}))))).

Definition tables (t : Table) : list Obj :=
  match t with
  | organizations => [organization "o1" "North Farm"; organization "o2" "South Farm"]
  | organizationMembers =>
      [member "ann" "o1" "owner" (Bool true);
       member "ed" "o1" "editor" (Bool true);
       member "vic" "o1" "viewer" (Bool true);
       member "old" "o1" "admin" (Bool false);
       member "zoe" "o2" "owner" (Bool true)]
  | customers => [customer "c1" "o1" "Smith" 10; customer "c2" "o2" "Jones" 20]
  | _ => []
  end.

(** The uuid stream of the sample: the [n]-th draw is ["uuid-"] followed by
    [n] strokes. *)
Fixpoint strokes (n : nat) : string :=
  match n with
  | 0 => ""
  | S n' => "I" ++ strokes n'
  end.

Definition world : World :=
  {| db := tables; now := 100; uuids := fun n => "uuid-" ++ strokes n;
     drawn := 0; faults := []; log := [] |}.

(** The same world with a server that rejects the coming statements as
    [fs] tells. *)
Definition failing (fs : list bool) : World :=
  {| db := tables; now := 100; uuids := uuids world; drawn := 0;
     faults := fs; log := [] |}.

Definition newCustomer (orgId : JsVal) : Obj :=
  <["organizationId" := orgId]> {[ "name" := Str "Brown" ]}.


Definition newSpecies : Obj :=
  <["name" := Str "Bison"]>
    (<["category" := Str "game"]>
       (<["liveToHangingRatio" := Str "0.6000"]>
          {[ "hangingToRetailRatio" := Str "0.7000" ]})).

(** The sample world without the membership rows of a pair. *)
Definition without (userId orgId : string) : World :=
  {| db := setTable organizationMembers
             (List.filter (fun m => negb (ofPair (Str userId) (Str orgId) m))
                (tables organizationMembers))
             tables;
     now := 100; uuids := uuids world; drawn := 0; faults := []; log := [] |}.

End Sample.

(** ** Two tenants

    Two organizations with their customers, all identifiers uuids in the
    spelling of the store.  The principal ["ed"] is an editor of the first
    organization and has no membership in the second. *)

Module Tenants.

Definition north : string := "7b1e4c9a-3f52-4d8e-9a61-0c2d5e8f1a01".
Definition south : string := "2d9f6a3b-8c14-4e7a-b5d0-6f3a9c1e7b02".

(** The customer of [north] and the customer of [south]. *)
Definition smith : string := "c4a7e2f1-5b39-4c6d-8e20-9d1f3b6a5c03".
Definition jones : string := "e8d3b5c2-7a46-4f1b-a9c7-1b4e6d2f8a04".

Definition member (id userId orgId role : string) : Obj :=
  <["id" := Str id]>
    (<["organizationId" := Str orgId]>
       (<["userId" := Str userId]>
          (<["role" := Str role]>
             (<["invitedAt" := Date 0]>
                (<["joinedAt" := Date 1]> {[ "isActive" := Bool true ]}))))).

Definition tables (t : Table) : list Obj :=
  match t with
  | organizations =>
      [Sample.organization north "North Farm"; Sample.organization south "South Farm"]
  | organizationMembers =>
      [member "0a5c8e13-6d27-4b9f-8c35-7e2a4f9d1b05" "ed" north "editor";
       member "f1b6d9a4-2e83-4c5a-9d70-3c8b5a7e2f06" "zoe" south "owner"]
  | customers => [Sample.customer smith north "Smith" 10; Sample.customer jones south "Jones" 20]
  | _ => []
  end.

Definition world : World :=
  {| db := tables; now := 100; uuids := uuids Sample.world; drawn := 0;
     faults := []; log := [] |}.

(** A customer body that names the second organization. *)
Definition body : Obj :=
  <["organizationId" := Str south]> {[ "name" := Str "Smith" ]}.

End Tenants.

(** ** [DatabaseStorage]: the methods behind no route *)

(** The world after the rows of [t] that satisfy [c] are deleted. *)
Definition purged (t : Table) (c : Obj → bool) (w : World) : World :=
  {| db := setTable t (List.filter (fun r => negb (c r)) (db w t)) (db w);
     now := now w; uuids := uuids w; drawn := drawn w;
     faults := faults w; log := log w |}.

(** [db.delete(t).where(c)].  The deletion of a processing record or of an
    invoice cascades to [animal_heads] and [invoice_items], tables that are
    not modelled; no modelled table refers to the tables rows are deleted
    from. *)
Definition deleteWhere (m : string) (a : list JsVal) (t : Table) (c : Obj → bool) : M unit :=
  statement m a None (fun w => (tt, purged t c w)).

(** The world after a row of [users] is stored; the table has no
    [defaultRandom()] column, so that no uuid is drawn. *)
Definition registered (r : Obj) (w : World) : World :=
  {| db := setTable users (db w users ++ [r]) (db w); now := now w;
     uuids := uuids w; drawn := drawn w; faults := faults w; log := log w |}.

(** [db.insert(users).values(userData).onConflictDoUpdate({ target: users.id,
    set: { ...userData, updatedAt: new Date() } }).returning()]: the row
    whose [id] is that of [userData] is overwritten, and a row is inserted
    when there is none.  A violation of another constraint ([id] is not
    null, [email] is unique) is a rejection of the statement. *)
Definition upsertUser (userData : Obj) : M Obj :=
  statement "upsertUser" [] (Some userData) (fun w =>
    let conflict := Sql.eq "id" (prop userData "id") in
    let s := <["updatedAt" := Date (now w)]> userData in
    match head (Sql.where_ conflict (db w users)) with
    | Some existing => (assign users s existing, rewritten users s conflict w)
    | None => let r := newRow users userData w in (r, registered r w)
    end).

(** The query of [getOrganizationMembers]. *)
Definition selectMembers (d : Db) (orgId : JsVal) : list Obj :=
  Sql.where_ (Sql.and [Sql.eq "organizationId" orgId; Sql.eq "isActive" (Bool true)])
    (d organizationMembers).

Definition getOrganizationMembers (orgId : JsVal) : M (list Obj) :=
  select "getOrganizationMembers" [orgId] (fun d => selectMembers d orgId).

Definition getSpecies (id : JsVal) : M (option Obj) :=
  select "getSpecies" [id] (fun d => head (Sql.where_ (Sql.eq "id" id) (d species))).

Definition getProcessingRecord (id : JsVal) : M (option Obj) :=
  select "getProcessingRecord" [id]
    (fun d => head (Sql.where_ (Sql.eq "id" id) (d processingRecords))).

Definition updateProcessingRecord (id : JsVal) (record : Obj) : M (option Obj) :=
  rows ← updateWhere "updateProcessingRecord" [id] (Some record) processingRecords
           (fun w => <["updatedAt" := Date (now w)]> record)
           (Sql.eq "id" id);
  mret (head rows).

Definition deleteProcessingRecord (id : JsVal) : M unit :=
  deleteWhere "deleteProcessingRecord" [id] processingRecords (Sql.eq "id" id).

Definition getCutInstruction (id : JsVal) : M (option Obj) :=
  select "getCutInstruction" [id]
    (fun d => head (Sql.where_ (Sql.eq "id" id) (d cutInstructions))).

Definition updateCutInstruction (id : JsVal) (instruction : Obj) : M (option Obj) :=
  rows ← updateWhere "updateCutInstruction" [id] (Some instruction) cutInstructions
           (fun w => <["updatedAt" := Date (now w)]> instruction)
           (Sql.eq "id" id);
  mret (head rows).

Definition deleteCutInstruction (id : JsVal) : M unit :=
  deleteWhere "deleteCutInstruction" [id] cutInstructions (Sql.eq "id" id).

Definition getInventoryItem (id : JsVal) : M (option Obj) :=
  select "getInventoryItem" [id]
    (fun d => head (Sql.where_ (Sql.eq "id" id) (d inventoryItems))).

Definition updateInventoryItem (id : JsVal) (item : Obj) : M (option Obj) :=
  rows ← updateWhere "updateInventoryItem" [id] (Some item) inventoryItems
           (fun w => <["updatedAt" := Date (now w)]> item)
           (Sql.eq "id" id);
  mret (head rows).

Definition deleteInventoryItem (id : JsVal) : M unit :=
  _ ← updateWhere "deleteInventoryItem" [id] None inventoryItems deactivation
        (Sql.eq "id" id);
  mret tt.

Definition getInvoice (id : JsVal) : M (option Obj) :=
  select "getInvoice" [id] (fun d => head (Sql.where_ (Sql.eq "id" id) (d invoices))).

Definition updateInvoice (id : JsVal) (invoice : Obj) : M (option Obj) :=
  rows ← updateWhere "updateInvoice" [id] (Some invoice) invoices
           (fun w => <["updatedAt" := Date (now w)]> invoice)
           (Sql.eq "id" id);
  mret (head rows).

Definition deleteInvoice (id : JsVal) : M unit :=
  deleteWhere "deleteInvoice" [id] invoices (Sql.eq "id" id).

(** ** Seeding at start-up *)

(** [for (const x of xs) { await body(x) }] *)
Fixpoint forOf {A} (xs : list A) (body : A → M unit) : M unit :=
  match xs with
  | [] => mret tt
  | x :: xs' => _ ← body x; forOf xs' body
  end.

Definition speciesData (name category liveToHanging hangingToRetail cost description : string)
    : Obj :=
  <["name" := Str name]>
    (<["category" := Str category]>
       (<["liveToHangingRatio" := Str liveToHanging]>
          (<["hangingToRetailRatio" := Str hangingToRetail]>
             (<["averageProcessingCost" := Str cost]>
                {[ "description" := Str description ]})))).

Definition defaultSpecies : list Obj :=
  [speciesData "Beef Cattle" "beef" "0.6250" "0.7420" "347.50"
     "Standard beef cattle processing";
   speciesData "Pork" "pork" "0.7200" "0.7180" "125.00" "Standard pork processing";
   speciesData "Lamb" "lamb" "0.5800" "0.6940" "89.00" "Standard lamb processing";
   speciesData "Deer" "game" "0.5500" "0.6610" "75.00" "Wild game deer processing"].

(** [registerRoutes] awaits it before it registers the routes; the [catch]
    branch only writes to the console. *)
Definition seedDefaultSpecies : M unit :=
  tryCatch
    (existingSpecies ← getAllSpecies;
     if Nat.eqb (length existingSpecies) 0
     then forOf defaultSpecies (fun s => _ ← createSpecies s; mret tt)
     else mret tt)
    (mret tt).

(** ** The [sanitizeInput] and [sqlInjectionProtection] middleware *)

Module Middleware.

(** What [req.body] and [req.query] hold: the values of JSON and of a parsed
    query string.  An object is given by its own enumerable properties, in
    the order of [Object.entries]; the value of a number plays no role in
    what follows. *)
Inductive Any :=
| AUndefined
| ANull
| ABool (b : bool)
| ANum (z : Z)
| AStr (s : string)
| AArr (items : list Any)
| AObj (entries : list (string * Any)).

(** [ToBoolean] *)
Definition truthyAny (v : Any) : bool :=
  match v with
  | AUndefined | ANull => false
  | ABool b => b
  | ANum z => negb (Z.eqb z 0)
  | AStr s => negb (String.eqb s "")
  | AArr _ | AObj _ => true
  end.

(** [v && typeof v === 'object'] *)
Definition isObject (v : Any) : bool :=
  match v with
  | AArr _ | AObj _ => true
  | _ => false
  end.

(** [sanitizeObject], over the string cleaner [clean]: the three
    [String.prototype.replace] calls with their regular expressions, followed
    by [trim]; the regular-expression engine is not modelled.

    The assignment [sanitized[key] = ...] defines the property [key], except
    for the key [__proto__], the accessor of [Object.prototype], for which it
    defines none. *)
Fixpoint sanitizeObject (clean : string → string) (obj : Any) : Any :=
  match obj with
  | AStr s => AStr (clean s)
  | AArr items => AArr (map (sanitizeObject clean) items)
  | AObj entries =>
      AObj ((fix assignAll (es : list (string * Any)) : list (string * Any) :=
               match es with
               | [] => []
               | (key, value) :: es' =>
                   if String.eqb key "__proto__" then assignAll es'
                   else (key, sanitizeObject clean value) :: assignAll es'
               end) entries)
  | _ => obj
  end.

(** What the two middleware read and write of a request. *)
Record Inputs := mkInputs {
  body : Any;
  query : Any
}.

(** [sanitizeInput] always calls [next]: the request goes on with the
    sanitized body and query. *)
Definition sanitizeInput (clean : string → string) (req : Inputs) : Inputs :=
  {| body := if isObject (body req) then sanitizeObject clean (body req) else body req;
     query := if isObject (query req) then sanitizeObject clean (query req) else query req |}.

(** [checkForSQLInjection], over [matches]: whether one of the four
    patterns of [sqlInjectionPatterns] matches the string. *)
Definition checkForSQLInjection (matches : string → bool) (value : Any) : bool :=
  match value with
  | AStr s => matches s
  | _ => false
  end.

Fixpoint scanObject (matches : string → bool) (obj : Any) : bool :=
  match obj with
  | AArr items => existsb (scanObject matches) items
  | AObj entries =>
      (fix some (es : list (string * Any)) : bool :=
         match es with
         | [] => false
         | (_, value) :: es' => scanObject matches value || some es'
         end) entries
  | _ => checkForSQLInjection matches obj
  end.

Definition sqlInjectionProtection (matches : string → bool) (req : Inputs)
    : Security.Passed :=
  if truthyAny (body req) && scanObject matches (body req)
  then Security.Sent (mkResponse 400 (message "Invalid request content"))
  else if truthyAny (query req) && scanObject matches (query req)
  then Security.Sent (mkResponse 400 (message "Invalid query parameters"))
  else Security.Next.

End Middleware.

(** ** Vocabulary of the further properties *)

(** The five kinds of record that belong to an organization and have a
    listing route and a creation route. *)
Inductive Resource :=
| Customers | ProcessingRecords | Inventory | Invoices | CutInstructions.

Definition tableOf (res : Resource) : Table :=
  match res with
  | Customers => customers
  | ProcessingRecords => processingRecords
  | Inventory => inventoryItems
  | Invoices => invoices
  | CutInstructions => cutInstructions
  end.

(** [GET /api/<resource>/:orgId] *)
Definition listRequest (res : Resource) (orgId : string) : Request :=
  match res with
  | Customers => GetCustomers orgId
  | ProcessingRecords => GetProcessingRecords orgId
  | Inventory => GetInventory orgId
  | Invoices => GetInvoices orgId
  | CutInstructions => GetCutInstructions orgId
  end.

(** [POST /api/<resource>] *)
Definition createRequest (res : Resource) (body : option Obj) : Request :=
  match res with
  | Customers => PostCustomers body
  | ProcessingRecords => PostProcessingRecords body
  | Inventory => PostInventory body
  | Invoices => PostInvoices body
  | CutInstructions => PostCutInstructions body
  end.

(** The storage method behind the listing route. *)
Definition fetchAll (res : Resource) : JsVal → M (list Obj) :=
  match res with
  | Customers => getCustomers
  | ProcessingRecords => getProcessingRecords
  | Inventory => getInventoryItems
  | Invoices => getInvoices
  | CutInstructions => getCutInstructions
  end.

Definition listingMethod (res : Resource) : string :=
  match res with
  | Customers => "getCustomers"
  | ProcessingRecords => "getProcessingRecords"
  | Inventory => "getInventoryItems"
  | Invoices => "getInvoices"
  | CutInstructions => "getCutInstructions"
  end.

(** The query that storage method runs. *)
Definition listingOf (res : Resource) (d : Db) (orgId : JsVal) : list Obj :=
  match res with
  | Customers => selectCustomers d orgId
  | ProcessingRecords =>
      Sql.orderBy (Sql.desc "processingDate")
        (Sql.where_ (Sql.eq "organizationId" orgId) (d processingRecords))
  | Inventory =>
      Sql.orderBy (Sql.asc "name")
        (Sql.where_ (Sql.and [Sql.eq "organizationId" orgId;
                              Sql.eq "isActive" (Bool true)])
           (d inventoryItems))
  | Invoices =>
      Sql.orderBy (Sql.desc "createdAt")
        (Sql.where_ (Sql.eq "organizationId" orgId) (d invoices))
  | CutInstructions =>
      Sql.orderBy (Sql.desc "createdAt")
        (Sql.where_ (Sql.eq "organizationId" orgId) (d cutInstructions))
  end.

(** The storage method behind the creation route. *)
Definition createOne (res : Resource) : Obj → M Obj :=
  match res with
  | Customers => createCustomer
  | ProcessingRecords => createProcessingRecord
  | Inventory => createInventoryItem
  | Invoices => createInvoice
  | CutInstructions => createCutInstruction
  end.

(** The storage method that fetches one record of the resource by id. *)
Definition fetchById (res : Resource) : JsVal → M (option Obj) :=
  match res with
  | Customers => getCustomer
  | ProcessingRecords => getProcessingRecord
  | Inventory => getInventoryItem
  | Invoices => getInvoice
  | CutInstructions => getCutInstruction
  end.

(** The first row of a table with the given id: what these methods
    return. *)
Definition firstWithId (d : Db) (t : Table) (id : JsVal) : option Obj :=
  head (Sql.where_ (Sql.eq "id" id) (d t)).

(** The storage method that updates one record of the resource. *)
Definition amend (res : Resource) : JsVal → Obj → M (option Obj) :=
  match res with
  | Customers => updateCustomer
  | ProcessingRecords => updateProcessingRecord
  | Inventory => updateInventoryItem
  | Invoices => updateInvoice
  | CutInstructions => updateCutInstruction
  end.

(** The three kinds of record that are deleted for good. *)
Inductive Erasable :=
| AProcessingRecord | ACutInstruction | AnInvoice.

Definition resourceOf (k : Erasable) : Resource :=
  match k with
  | AProcessingRecord => ProcessingRecords
  | ACutInstruction => CutInstructions
  | AnInvoice => Invoices
  end.

Definition erase (k : Erasable) : JsVal → M unit :=
  match k with
  | AProcessingRecord => deleteProcessingRecord
  | ACutInstruction => deleteCutInstruction
  | AnInvoice => deleteInvoice
  end.

(** The requests that only read: the [GET] routes. *)
Definition isGet (req : Request) : bool :=
  match req with
  | GetAuthUser | GetOrganizations | GetOrganization _ | GetDashboard _ | GetSpecies
  | GetCustomers _ | GetProcessingRecords _ | GetInventory _ | GetInvoices _
  | GetCutInstructions _ => true
  | _ => false
  end.

(** A computation that leaves the database as it found it. *)
Definition ReadOnly {A} (m : M A) : Prop := ∀ w, db (m w).2 = db w.

(** A computation that leaves the database as it found it when it throws. *)
Definition Atomic {A} (m : M A) : Prop :=
  ∀ w w', m w = (Throw, w') → db w' = db w.

(** A handler that leaves the database as it found it unless it answers
    200. *)
Definition Careful (m : M Response) : Prop :=
  ∀ w r w', m w = (Ok r, w') → status r ≠ 200 → db w' = db w.

(** A value of a [timestamp] column: a date or [NULL]. *)
Definition isTimestamp (v : JsVal) : Prop :=
  match v with
  | Date _ | Null => True
  | _ => False
  end.

(** [r1] was created no earlier than [r2], in the order of [ORDER BY
    created_at DESC]. *)
Definition newerOrSame (r1 r2 : Obj) : Prop :=
  Sql.desc "createdAt" r1 r2 = true.

(** The strings held by a value of a request, at any depth, property names
    apart. *)
Fixpoint strings (v : Middleware.Any) : list string :=
  match v with
  | Middleware.AStr s => [s]
  | Middleware.AArr items => flat_map strings items
  | Middleware.AObj entries =>
      (fix walk (es : list (string * Middleware.Any)) : list string :=
         match es with
         | [] => []
         | (_, value) :: es' => (strings value ++ walk es')%list
         end) entries
  | _ => []
  end.

(** No object of the value has a property named [__proto__]. *)
Fixpoint plain (v : Middleware.Any) : bool :=
  match v with
  | Middleware.AArr items => forallb plain items
  | Middleware.AObj entries =>
      (fix walk (es : list (string * Middleware.Any)) : bool :=
         match es with
         | [] => true
         | (key, value) :: es' =>
             negb (String.eqb key "__proto__") && plain value && walk es'
         end) entries
  | _ => true
  end.

(** More sample data. *)
Module Fixtures.

Definition user (id email : string) : Obj :=
  <["id" := Str id]> {[ "email" := Str email ]}.

Definition invoice (id orgId : string) (created : Z) : Obj :=
  <["id" := Str id]>
    (<["organizationId" := Str orgId]>
       (<["status" := Str "draft"]> {[ "createdAt" := Date created ]})).

Definition item (id orgId name : string) : Obj :=
  <["id" := Str id]>
    (<["organizationId" := Str orgId]>
       (<["name" := Str name]> {[ "isActive" := Bool true ]})).

Definition tables (t : Table) : list Obj :=
  match t with
  | users => [user "ann" "ann@north.example"]
  | invoices => [invoice "i1" "o1" 5; invoice "i2" "o1" 7; invoice "i3" "o2" 6]
  | inventoryItems => [item "s1" "o1" "Ribeye"; item "s2" "o1" "Brisket"]
  | _ => Sample.tables t
  end.

Definition world : World :=
  {| db := tables; now := 100; uuids := uuids Sample.world; drawn := 0;
     faults := []; log := [] |}.

(** A cleaner and a matcher of one string each, in place of the regular
    expressions. *)
Definition clean (s : string) : string :=
  if String.eqb s " x " then "x" else s.

Definition matches (s : string) : bool := String.eqb s "1; DROP TABLE users ".

Definition payload : Middleware.Any :=
  Middleware.AObj
    [("name", Middleware.AStr "Brown");
     ("tags", Middleware.AArr [Middleware.AStr "beef"; Middleware.ANum 2]);
     ("address", Middleware.AObj [("city", Middleware.AStr "Ames")])].

End Fixtures.

(** * Properties *)

(** ** Worlds and statements *)

Arguments prop : simpl never.
Arguments selectUserRole : simpl never.
Arguments selectCustomer : simpl never.
Arguments selectCustomers : simpl never.
Arguments joinUserOrganizations : simpl never.
Arguments newRow : simpl never.
Arguments assign : simpl never.
Arguments message : simpl never.
Arguments issued : simpl never.

Lemma noFaults_nextFails w : noFaults w → nextFails w = false.
Proof.
  unfold noFaults, nextFails. destruct (faults w) as [|b fs]; [done|].
  intros H. by inversion H.
Qed.

Lemma noFaults_advance c w : noFaults w → noFaults (advance c w).
Proof.
  unfold noFaults, advance. simpl. destruct (faults w); [done|].
  intros H. by inversion H.
Qed.

Lemma noFaults_rewritten t s c w : noFaults w → noFaults (rewritten t s c w).
Proof. done. Qed.

Lemma bind_run {A B} (m : M A) (f : A → M B) w :
  (m ≫= f) w = match m w with
               | (Ok a, w') => f a w'
               | (Throw, w') => (Throw, w')
               end.
Proof. reflexivity. Qed.

Lemma statement_run {A} m a p (run : World → A * World) w :
  statement m a p run w =
  if nextFails w then (Throw, advance (mkCall m a p true) w)
  else let '(x, w2) := run (advance (mkCall m a p false) w) in (Ok x, w2).
Proof. unfold statement. by destruct (nextFails w). Qed.

Lemma select_run {A} m a (q : Db → A) w :
  select m a q w =
  (if nextFails w then Throw else Ok (q (db w)),
   advance (mkCall m a None (nextFails w)) w).
Proof. unfold select. rewrite statement_run. by destruct (nextFails w). Qed.

Lemma issued_app w w' (cs : list Call) : log w' = (log w ++ cs)%list → issued w w' = cs.
Proof. unfold issued. intros ->. by rewrite drop_app_length. Qed.

Lemma issued_advance c w : issued w (advance c w) = [c].
Proof. by apply issued_app. Qed.

(** ** Shapes of the handlers *)

Section Shapes.
Import Routes.

Lemma getUserRole_run userId orgId w :
  getUserRole userId orgId w =
  (if nextFails w then Throw else Ok (selectUserRole (db w) userId orgId),
   advance (roleCall userId orgId (nextFails w)) w).
Proof. apply select_run. Qed.

Lemma getCustomer_run id w :
  getCustomer id w =
  (if nextFails w then Throw else Ok (selectCustomer (db w) id),
   advance (customerCall id (nextFails w)) w).
Proof. apply select_run. Qed.

Lemma readGuard_run userId orgId (rest : M Response) failure w :
  tryCatch
    (role ← getUserRole (Str userId) orgId;
     if negb (truthy role) then mret accessDenied else rest)
    (failed failure) w =
  let w1 := advance (roleCall (Str userId) orgId (nextFails w)) w in
  if nextFails w then (Ok (mkResponse 500 (message failure)), w1)
  else if truthy (selectUserRole (db w) (Str userId) orgId)
       then tryCatch rest (failed failure) w1
       else (Ok accessDenied, w1).
Proof.
  unfold tryCatch at 1. rewrite bind_run, getUserRole_run.
  destruct (nextFails w); [done|]. cbn zeta.
  destruct (truthy _); [|done]. cbn [negb]. unfold tryCatch.
  by destruct (rest _) as [[]].
Qed.

Lemma createFor_run userId data create failure w :
  createFor userId (Some data) create failure w =
  let orgId := prop data "organizationId" in
  let w1 := advance (roleCall (Str userId) orgId (nextFails w)) w in
  if nextFails w then (Ok (mkResponse 500 (message failure)), w1)
  else if cannotWrite (selectUserRole (db w) (Str userId) orgId)
       then (Ok accessDenied, w1)
       else match create data w1 with
            | (Ok row, w2) => (Ok (resJson (JObject row)), w2)
            | (Throw, w2) => (Ok (mkResponse 500 (message failure)), w2)
            end.
Proof.
  unfold createFor, tryCatch, parse. rewrite bind_run. cbn [mret M_ret].
  rewrite bind_run, getUserRole_run.
  destruct (nextFails w); [done|]. cbn zeta.
  destruct (cannotWrite _); [done|].
  rewrite bind_run. by destruct (create _ _) as [[]].
Qed.

Lemma putCustomer_run userId id data w :
  putCustomer userId id (Some data) w =
  let w1 := advance (customerCall (Str id) (nextFails w)) w in
  if nextFails w then (Ok (mkResponse 500 (message "Failed to update customer")), w1)
  else match selectCustomer (db w) (Str id) with
       | None => (Ok customerNotFound, w1)
       | Some existing =>
           let orgId := prop existing "organizationId" in
           let w2 := advance (roleCall (Str userId) orgId (nextFails w1)) w1 in
           if nextFails w1
           then (Ok (mkResponse 500 (message "Failed to update customer")), w2)
           else if cannotWrite (selectUserRole (db w) (Str userId) orgId)
                then (Ok accessDenied, w2)
                else match updateCustomer (Str id) data w2 with
                     | (Ok customer, w3) => (Ok (resJson (jsonOpt customer)), w3)
                     | (Throw, w3) =>
                         (Ok (mkResponse 500 (message "Failed to update customer")), w3)
                     end
       end.
Proof.
  unfold putCustomer, tryCatch, parse. rewrite bind_run. cbn [mret M_ret].
  rewrite bind_run, getCustomer_run.
  destruct (nextFails w); [done|]. cbn zeta.
  destruct (selectCustomer _ _) as [existing|]; [|done].
  rewrite bind_run, getUserRole_run.
  destruct (nextFails (advance _ w)); [done|]. cbn [db advance].
  destruct (cannotWrite _); [done|].
  rewrite bind_run. by destruct (updateCustomer _ _ _) as [[]].
Qed.

Lemma deleteCustomerById_run userId id w :
  deleteCustomerById userId id w =
  let w1 := advance (customerCall (Str id) (nextFails w)) w in
  if nextFails w then (Ok (mkResponse 500 (message "Failed to delete customer")), w1)
  else match selectCustomer (db w) (Str id) with
       | None => (Ok customerNotFound, w1)
       | Some existing =>
           let orgId := prop existing "organizationId" in
           let w2 := advance (roleCall (Str userId) orgId (nextFails w1)) w1 in
           if nextFails w1
           then (Ok (mkResponse 500 (message "Failed to delete customer")), w2)
           else if cannotWrite (selectUserRole (db w) (Str userId) orgId)
                then (Ok accessDenied, w2)
                else match deleteCustomer (Str id) w2 with
                     | (Ok _, w3) =>
                         (Ok (resJson (message "Customer deleted successfully")), w3)
                     | (Throw, w3) =>
                         (Ok (mkResponse 500 (message "Failed to delete customer")), w3)
                     end
       end.
Proof.
  unfold deleteCustomerById, tryCatch. rewrite bind_run, getCustomer_run.
  destruct (nextFails w); [done|]. cbn zeta.
  destruct (selectCustomer _ _) as [existing|]; [|done].
  rewrite bind_run, getUserRole_run.
  destruct (nextFails (advance _ w)); [done|]. cbn [db advance].
  destruct (cannotWrite _); [done|].
  rewrite bind_run. by destruct (deleteCustomer _ _) as [[]].
Qed.

End Shapes.

(** ** Requests whose role test fails *)

Section Denials.
Import Routes.

Lemma denial_noFaults req w : noFaults w → denial req (faults w) = accessDenied.
Proof.
  unfold noFaults, denial. intros H.
  assert (Hex : existsb id (take (lookups req) (faults w)) = false).
  { generalize (lookups req). induction H as [|b fs -> _ IH]; intros [|n]; simpl; auto. }
  by rewrite Hex.
Qed.

(** A request whose role test fails is answered by [denial]; only lookups
    were issued and the database is as before. *)
Lemma denied_run w P O req :
  targetOrg (db w) req = Some O →
  roleCheckFails req (selectUserRole (db w) (Str P) O) = true →
  ∃ w', handle P req w = (Ok (denial req (faults w)), w')
        ∧ db w' = db w
        ∧ Forall isLookup (issued w w').
Proof.
  intros Ht Hr.
  destruct req as [| |b|o|o| |b|o|b|i b|i|o|b|o|b|o|b|o|b];
    try destruct b as [b|]; try discriminate Ht;
    unfold roleCheckFails in Hr; cbn [isWrite] in Hr;
    cbn [targetOrg] in Ht.
  all: try (injection Ht as <-;
            apply negb_true_iff in Hr;
            unfold handle, getOrganizationById, getDashboard, getCustomersOf, listFor;
            rewrite readGuard_run, Hr; cbn zeta;
            unfold denial, serverError; cbn [lookups failureMessage];
            unfold nextFails; destruct (faults w) as [|[] fs] eqn:Hf; cbn;
            (eexists; split; [reflexivity|]; split; [done|];
             rewrite issued_advance; repeat constructor; by left)).
  all: try (injection Ht as <-;
            unfold handle, postCustomers; rewrite createFor_run; cbn zeta; rewrite Hr;
            unfold denial, serverError; cbn [lookups failureMessage];
            unfold nextFails; destruct (faults w) as [|[] fs] eqn:Hf; cbn;
            (eexists; split; [reflexivity|]; split; [done|];
             rewrite issued_advance; repeat constructor; by left)).
  - destruct (selectCustomer (db w) (Str i)) as [c|] eqn:Hc; [|discriminate Ht].
    injection Ht as <-.
    unfold handle. rewrite putCustomer_run, Hc. cbn zeta. rewrite Hr.
    unfold denial, serverError. cbn [lookups failureMessage].
    unfold nextFails. destruct w as [d n u k fs l]. cbn [faults advance db log] in *.
    destruct fs as [|[] [|[] fs]]; cbn;
      (eexists; split; [reflexivity|]; split; [done|]);
      (erewrite issued_app; [|cbn; try rewrite <- app_assoc; reflexivity]);
      repeat constructor; try (by left); by right.
  - destruct (selectCustomer (db w) (Str i)) as [c|] eqn:Hc; [|discriminate Ht].
    injection Ht as <-.
    unfold handle. rewrite deleteCustomerById_run, Hc. cbn zeta. rewrite Hr.
    unfold denial, serverError. cbn [lookups failureMessage].
    unfold nextFails. destruct w as [d n u k fs l]. cbn [faults advance db log] in *.
    destruct fs as [|[] [|[] fs]]; cbn;
      (eexists; split; [reflexivity|]; split; [done|]);
      (erewrite issued_app; [|cbn; try rewrite <- app_assoc; reflexivity]);
      repeat constructor; try (by left); by right.
Qed.

End Denials.

(** ** Role resolution *)

Section Roles.

Lemma Sql_eq_true column v row :
  v ≠ Undefined → v ≠ Null →
  Sql.eq column v row = true ↔ prop row column = v.
Proof.
  intros Hu Hn. unfold Sql.eq.
  destruct (prop row column) eqn:Hp; destruct v; try done;
    rewrite bool_decide_eq_true; done.
Qed.

Lemma where_where (f g : Obj → bool) rows :
  Sql.where_ f (Sql.where_ g rows) = Sql.where_ (fun r => g r && f r) rows.
Proof.
  unfold Sql.where_. induction rows as [|r rows IH]; [done|].
  simpl. destruct (g r); simpl; [destruct (f r)|]; by rewrite IH.
Qed.

Lemma where_ext (f g : Obj → bool) rows :
  (∀ r, In r rows → f r = g r) → Sql.where_ f rows = Sql.where_ g rows.
Proof. apply filter_ext_in. Qed.

(** The active memberships of a pair are found among the rows of that
    exact pair. *)
Lemma activeMemberships_ofPair d userId orgId :
  activeMemberships d userId orgId =
  Sql.where_ (Sql.eq "isActive" (Bool true))
    (Sql.where_ (ofPair userId orgId) (d organizationMembers)).
Proof.
  unfold activeMemberships. rewrite where_where. apply where_ext.
  intros r _. unfold activeMembership, ofPair, Sql.and. simpl.
  by rewrite !andb_true_r, andb_assoc.
Qed.

Lemma selectUserRole_none d userId orgId :
  activeMemberships d userId orgId = [] → selectUserRole d userId orgId = Null.
Proof. unfold selectUserRole, activeMemberships. by intros ->. Qed.

(** [getUserRole] is keyed on the exact pair: databases that agree on the
    membership rows of the pair resolve the same role. *)
Lemma selectUserRole_keyed d d' userId orgId :
  Sql.where_ (ofPair userId orgId) (d' organizationMembers) =
  Sql.where_ (ofPair userId orgId) (d organizationMembers) →
  selectUserRole d' userId orgId = selectUserRole d userId orgId.
Proof.
  intros H. unfold selectUserRole.
  fold (activeMemberships d userId orgId) (activeMemberships d' userId orgId).
  by rewrite !activeMemberships_ofPair, H.
Qed.

Lemma roleCheckFails_null req : roleCheckFails req Null = true.
Proof. unfold roleCheckFails. by destruct (isWrite req). Qed.

Lemma denial_status req fs : status (denial req fs) ≠ 200.
Proof. unfold denial. by destruct (existsb _ _). Qed.

(** Without an active membership in the organization a request is directed
    at, the request is refused. *)
Lemma denied_without_membership w P O req :
  activeMemberships (db w) (Str P) O = [] →
  targetOrg (db w) req = Some O →
  ∃ w', Routes.handle P req w = (Ok (denial req (faults w)), w')
        ∧ db w' = db w
        ∧ Forall isLookup (issued w w').
Proof.
  intros Hm Ht. apply (denied_run w P O req Ht).
  rewrite (selectUserRole_none _ _ _ Hm). apply roleCheckFails_null.
Qed.

End Roles.

(** ** Tenant isolation *)

(** X25.  Refusal at the organization a request is authorized against.  The
    organization of a request, [targetOrg], is the route parameter of a
    listing, the [organizationId] of the body of a creation and the
    [organizationId] stored on the customer of an update or a deletion.  A
    principal with an active membership in organization [O1] and none in the
    organization [O2] of the request is refused, whatever the role in [O1]:
    the handler answers, never with 200, with 403 "Access denied" when the
    store answers its lookups; it issues nothing but its lookups and leaves
    the database as it was.  Role resolution is keyed on the exact pair: any
    database with the same membership rows for the pair [(P, O2)] resolves
    the same role.  The [organizationId] in the body of an update is no part
    of [targetOrg]. *)
Theorem tenant_isolation (w : World) (P O1 : string) (O2 : JsVal) (req : Request) :
  activeMemberships (db w) (Str P) (Str O1) ≠ [] →
  activeMemberships (db w) (Str P) O2 = [] →
  targetOrg (db w) req = Some O2 →
  ∃ resp w',
    Routes.handle P req w = (Ok resp, w')
    ∧ status resp ≠ 200
    ∧ (noFaults w → resp = accessDenied)
    ∧ db w' = db w
    ∧ Forall isLookup (issued w w')
    ∧ ∀ d', Sql.where_ (ofPair (Str P) O2) (d' organizationMembers) =
            Sql.where_ (ofPair (Str P) O2) (db w organizationMembers) →
            selectUserRole d' (Str P) O2 = selectUserRole (db w) (Str P) O2.
Proof.
  intros _ Hnone Ht.
  destruct (denied_without_membership w P O2 req Hnone Ht) as (w' & Hrun & Hdb & Hlog).
  exists (denial req (faults w)), w'. repeat split; try done.
  - apply denial_status.
  - apply denial_noFaults.
  - intros d'. apply selectUserRole_keyed.
Qed.

Lemma tenant_isolation_witness :
  ∃ resp w',
    Routes.handle "ann" (GetCustomers "o2") Sample.world = (Ok resp, w')
    ∧ status resp ≠ 200
    ∧ (noFaults Sample.world → resp = accessDenied)
    ∧ db w' = db Sample.world
    ∧ Forall isLookup (issued Sample.world w')
    ∧ ∀ d', Sql.where_ (ofPair (Str "ann") (Str "o2")) (d' organizationMembers) =
            Sql.where_ (ofPair (Str "ann") (Str "o2")) (db Sample.world organizationMembers) →
            selectUserRole d' (Str "ann") (Str "o2") =
            selectUserRole (db Sample.world) (Str "ann") (Str "o2").
Proof.
  apply (tenant_isolation Sample.world "ann" "o1" (Str "o2") (GetCustomers "o2")).
  - intros H. apply (f_equal length) in H. vm_compute in H. discriminate H.
  - vm_compute. reflexivity.
  - reflexivity.
Defined.

(** C1.  Tenant isolation fails on the update of a customer.  The principal
    ["ed"] is an active editor of the organization [Tenants.north] and has
    no membership in [Tenants.south].  The update of a customer of
    [Tenants.north] with a body that names [Tenants.south] is authorized
    against the organization stored on the customer only: it is answered
    200, no role of the principal in [Tenants.south] is looked up, and
    afterwards the customer is listed for [Tenants.south] and no longer for
    [Tenants.north].  The creation of a customer with the same body is
    refused with 403 "Access denied" after the role lookup for
    [Tenants.south]. *)
Lemma update_crosses_the_tenant_boundary :
  let w := Tenants.world in
  let put := Routes.handle "ed" (PutCustomer Tenants.smith (Some Tenants.body)) w in
  let post := Routes.handle "ed" (PostCustomers (Some Tenants.body)) w in
  map (fun m => prop m "role") (activeMemberships (db w) (Str "ed") (Str Tenants.north))
    = [Str "editor"]
  ∧ activeMemberships (db w) (Str "ed") (Str Tenants.south) = []
  ∧ map (fun c => prop c "id") (selectCustomers (db w) (Str Tenants.north))
    = [Str Tenants.smith]
  ∧ map (fun c => prop c "id") (selectCustomers (db w) (Str Tenants.south))
    = [Str Tenants.jones]
  ∧ (status <$> (match put.1 with Ok resp => Some resp | Throw => None end)) = Some 200
  ∧ issued w put.2 =
    [customerCall (Str Tenants.smith) false;
     roleCall (Str "ed") (Str Tenants.north) false;
     mkCall "updateCustomer" [Str Tenants.smith] (Some Tenants.body) false]
  ∧ map (fun c => prop c "id") (selectCustomers (db put.2) (Str Tenants.north)) = []
  ∧ map (fun c => prop c "id") (selectCustomers (db put.2) (Str Tenants.south))
    = [Str Tenants.jones; Str Tenants.smith]
  ∧ post.1 = Ok accessDenied
  ∧ issued w post.2 = [roleCall (Str "ed") (Str Tenants.south) false]
  ∧ selectCustomers (db post.2) (Str Tenants.south) = selectCustomers (db w) (Str Tenants.south).
Proof. cbv zeta. repeat split; by vm_compute. Qed.

(** ** Write requests *)

Section Writes.
Import Routes.

Lemma insertInto_run m t values w :
  insertInto m t values w =
  if nextFails w then (Throw, advance (mkCall m [] (Some values) true) w)
  else let w1 := advance (mkCall m [] (Some values) false) w in
       (Ok (newRow t values w1), stored t (newRow t values w1) w1).
Proof. unfold insertInto. by rewrite statement_run. Qed.

Lemma updateWhere_run m a p t s c w :
  updateWhere m a p t s c w =
  if nextFails w then (Throw, advance (mkCall m a p true) w)
  else let w1 := advance (mkCall m a p false) w in
       (Ok (map (assign t (s w1)) (Sql.where_ c (db w t))), rewritten t (s w1) c w1).
Proof. unfold updateWhere. by rewrite statement_run. Qed.

Lemma updateCustomer_run id data w :
  updateCustomer id data w =
  if nextFails w
  then (Throw, advance (mkCall "updateCustomer" [id] (Some data) true) w)
  else let s := <["updatedAt" := Date (now w)]> data in
       (Ok (head (map (assign customers s) (Sql.where_ (Sql.eq "id" id) (db w customers)))),
        rewritten customers s (Sql.eq "id" id)
          (advance (mkCall "updateCustomer" [id] (Some data) false) w)).
Proof.
  unfold updateCustomer. rewrite bind_run, updateWhere_run.
  by destruct (nextFails w).
Qed.

Lemma deleteCustomer_run id w :
  deleteCustomer id w =
  if nextFails w
  then (Throw, advance (mkCall "deleteCustomer" [id] None true) w)
  else (Ok tt,
        rewritten customers (deactivation w) (Sql.eq "id" id)
          (advance (mkCall "deleteCustomer" [id] None false) w)).
Proof.
  unfold deleteCustomer. rewrite bind_run, updateWhere_run.
  by destruct (nextFails w).
Qed.

Lemma cannotWrite_false role :
  cannotWrite role = false ↔
  role = Str "owner" ∨ role = Str "admin" ∨ role = Str "editor".
Proof.
  unfold cannotWrite, includes, strictEq. simpl. split.
  - intros H. apply orb_false_iff in H as [_ H]. apply negb_false_iff in H.
    repeat (apply orb_true_iff in H as [H|H];
            [apply bool_decide_eq_true in H; auto|]).
    done.
  - by intros [-> | [-> | ->]].
Qed.

Lemma last_issued w w' (cs : list Call) c :
  log w' = (log w ++ cs ++ [c])%list → last (issued w w') = Some c.
Proof. intros H. rewrite (issued_app _ _ _ H). apply last_snoc. Qed.

(** A write request whose role test passes is carried out when the store
    answers. *)
Lemma granted_run w P O req :
  noFaults w →
  isWrite req = true →
  targetOrg (db w) req = Some O →
  cannotWrite (selectUserRole (db w) (Str P) O) = false →
  ∃ resp w' c,
    handle P req w = (Ok resp, w')
    ∧ status resp = 200
    ∧ last (issued w w') = Some c
    ∧ method c = mutation req ∧ threw c = false.
Proof.
  intros Hnf Hw Ht Hr.
  pose proof (noFaults_nextFails _ Hnf) as Hn0.
  destruct req as [| |b|o|o| |b|o|b|i b|i|o|b|o|b|o|b|o|b];
    try discriminate Hw; try destruct b as [b|]; try discriminate Ht;
    cbn [targetOrg] in Ht.
  all: try (injection Ht as <-;
            unfold handle, postCustomers; rewrite createFor_run, Hn0; cbn zeta;
            rewrite Hr; unfold createCustomer, createProcessingRecord,
              createInventoryItem, createInvoice, createCutInstruction;
            rewrite insertInto_run,
              (noFaults_nextFails _ (noFaults_advance _ _ Hnf)); cbn zeta;
            do 3 eexists; split; [reflexivity|]; split; [done|];
            split; [eapply (last_issued _ _ [_]); cbn; by rewrite <- app_assoc|done]).
  - destruct (selectCustomer (db w) (Str i)) as [c|] eqn:Hc; [|discriminate Ht].
    injection Ht as <-.
    unfold handle. rewrite putCustomer_run, Hn0, Hc. cbn zeta.
    rewrite (noFaults_nextFails _ (noFaults_advance _ _ Hnf)), Hr.
    rewrite updateCustomer_run,
      (noFaults_nextFails _ (noFaults_advance _ _ (noFaults_advance _ _ Hnf))).
    do 3 eexists. split; [reflexivity|]. split; [done|].
    split; [eapply (last_issued _ _ [_; _]); cbn; by rewrite <- !app_assoc|done].
  - destruct (selectCustomer (db w) (Str i)) as [c|] eqn:Hc; [|discriminate Ht].
    injection Ht as <-.
    unfold handle. rewrite deleteCustomerById_run, Hn0, Hc. cbn zeta.
    rewrite (noFaults_nextFails _ (noFaults_advance _ _ Hnf)), Hr.
    rewrite deleteCustomer_run,
      (noFaults_nextFails _ (noFaults_advance _ _ (noFaults_advance _ _ Hnf))).
    do 3 eexists. split; [reflexivity|]. split; [done|].
    split; [eapply (last_issued _ _ [_; _]); cbn; by rewrite <- !app_assoc|done].
Qed.

End Writes.

(** C3.  A write request (creation of a customer, processing record,
    inventory item, invoice or cut instruction; update or deletion of a
    customer) directed at organization [O] is carried out exactly when the
    role [getUserRole] resolves for the principal in [O] is [owner], [admin]
    or [editor]: then, the store answering, the response is 200 and the last
    statement issued is the mutation; with any other role value, or none,
    the response is 403 "Access denied", the database is unchanged and only
    lookups were issued. *)
Theorem write_requires_owner_admin_or_editor
    (w : World) (P : string) (O : JsVal) (req : Request) :
  noFaults w →
  isWrite req = true →
  targetOrg (db w) req = Some O →
  ∃ resp w',
    Routes.handle P req w = (Ok resp, w')
    ∧ let role := selectUserRole (db w) (Str P) O in
      ((role = Str "owner" ∨ role = Str "admin" ∨ role = Str "editor")
       ∧ status resp = 200
       ∧ ∃ c, last (issued w w') = Some c ∧ method c = mutation req ∧ threw c = false)
      ∨ (¬ (role = Str "owner" ∨ role = Str "admin" ∨ role = Str "editor")
         ∧ resp = accessDenied
         ∧ db w' = db w
         ∧ Forall isLookup (issued w w')).
Proof.
  intros Hnf Hw Ht.
  destruct (Routes.cannotWrite (selectUserRole (db w) (Str P) O)) eqn:Hr.
  - destruct (denied_run w P O req Ht) as (w' & Hrun & Hdb & Hlog).
    { unfold roleCheckFails. by rewrite Hw. }
    exists (denial req (faults w)), w'. split; [done|]. right.
    rewrite (denial_noFaults _ _ Hnf). repeat split; try done.
    intros H. apply cannotWrite_false in H. congruence.
  - destruct (granted_run w P O req Hnf Hw Ht Hr) as (resp & w' & c & Hrun & Hs & Hl & Hm).
    exists resp, w'. split; [done|]. left.
    split; [by apply cannotWrite_false|]. split; [done|]. by exists c.
Qed.

Lemma write_requires_owner_admin_or_editor_witness :
  ∃ resp w',
    Routes.handle "vic" (PostInvoices (Some (Sample.newCustomer (Str "o1")))) Sample.world
      = (Ok resp, w')
    ∧ let role := selectUserRole (db Sample.world) (Str "vic") (Str "o1") in
      ((role = Str "owner" ∨ role = Str "admin" ∨ role = Str "editor")
       ∧ status resp = 200
       ∧ ∃ c, last (issued Sample.world w') = Some c
              ∧ method c = mutation (PostInvoices (Some (Sample.newCustomer (Str "o1"))))
              ∧ threw c = false)
      ∨ (¬ (role = Str "owner" ∨ role = Str "admin" ∨ role = Str "editor")
         ∧ resp = accessDenied
         ∧ db w' = db Sample.world
         ∧ Forall isLookup (issued Sample.world w')).
Proof.
  apply (write_requires_owner_admin_or_editor Sample.world "vic" (Str "o1")).
  - constructor.
  - reflexivity.
  - vm_compute. reflexivity.
Defined.

(** ** Customers *)

Section Customers.
Import Routes.

(** Update and deletion of an existing customer, the store answering. *)
Lemma existing_customer_run w P id existing req :
  noFaults w →
  selectCustomer (db w) (Str id) = Some existing →
  (∃ body, req = PutCustomer id (Some body)) ∨ req = DeleteCustomer id →
  ∃ resp w' rest,
    handle P req w = (Ok resp, w')
    ∧ issued w w' =
        customerCall (Str id) false
        :: roleCall (Str P) (prop existing "organizationId") false :: rest
    ∧ (if cannotWrite (selectUserRole (db w) (Str P) (prop existing "organizationId"))
       then resp = accessDenied ∧ db w' = db w ∧ rest = []
       else status resp = 200 ∧ ∃ c, rest = [c] ∧ method c = mutation req).
Proof.
  intros Hnf Hc Hreq.
  pose proof (noFaults_nextFails _ Hnf) as Hn0.
  pose proof (noFaults_nextFails _ (noFaults_advance (customerCall (Str id) false) _ Hnf)) as Hn1.
  destruct Hreq as [[body ->] | ->]; unfold handle.
  - rewrite putCustomer_run, Hn0, Hc. cbn zeta. rewrite Hn1.
    destruct (cannotWrite _).
    + do 3 eexists. split; [reflexivity|].
      split; [apply issued_app; cbn; by rewrite <- app_assoc|done].
    + rewrite updateCustomer_run, (noFaults_nextFails _ (noFaults_advance _ _ (noFaults_advance _ _ Hnf))).
      do 3 eexists. split; [reflexivity|].
      split; [apply issued_app; cbn; by rewrite <- !app_assoc|].
      split; [done|]. by eexists.
  - rewrite deleteCustomerById_run, Hn0, Hc. cbn zeta. rewrite Hn1.
    destruct (cannotWrite _).
    + do 3 eexists. split; [reflexivity|].
      split; [apply issued_app; cbn; by rewrite <- app_assoc|done].
    + rewrite deleteCustomer_run, (noFaults_nextFails _ (noFaults_advance _ _ (noFaults_advance _ _ Hnf))).
      do 3 eexists. split; [reflexivity|].
      split; [apply issued_app; cbn; by rewrite <- !app_assoc|].
      split; [done|]. by eexists.
Qed.

(** Creation of a customer, the store answering. *)
Lemma new_customer_run w P body :
  noFaults w →
  ∃ resp w' rest,
    handle P (PostCustomers (Some body)) w = (Ok resp, w')
    ∧ issued w w' = roleCall (Str P) (prop body "organizationId") false :: rest
    ∧ (if cannotWrite (selectUserRole (db w) (Str P) (prop body "organizationId"))
       then resp = accessDenied ∧ db w' = db w ∧ rest = []
       else status resp = 200
            ∧ rest = [mkCall "createCustomer" [] (Some body) false]).
Proof.
  intros Hnf. pose proof (noFaults_nextFails _ Hnf) as Hn0.
  unfold handle, postCustomers. rewrite createFor_run, Hn0. cbn zeta.
  destruct (cannotWrite _).
  - do 3 eexists. split; [reflexivity|]. split; [apply issued_advance|done].
  - unfold createCustomer.
    rewrite insertInto_run, (noFaults_nextFails _ (noFaults_advance _ _ Hnf)). cbn zeta.
    do 3 eexists. split; [reflexivity|].
    split; [apply issued_app; cbn; by rewrite <- app_assoc|done].
Qed.

End Customers.

(** C2.  Update and deletion of an existing customer resolve the role for
    the [organizationId] stored on the fetched customer row: that is the
    organization the [getUserRole] statement of the trace names, whatever
    the body of the request carries, and it alone decides between 403 and
    200.  Creation resolves the role for the [organizationId] of the body
    before anything is stored: when the test fails, in particular when the
    principal has no active membership in that organization, the answer is
    403 "Access denied", the role lookup is the only statement issued and
    the database is unchanged. *)
Theorem customer_authorization_uses_owning_organization
    (w : World) (P id : string) (existing body : Obj) :
  noFaults w →
  selectCustomer (db w) (Str id) = Some existing →
  let owning := prop existing "organizationId" in
  let supplied := prop body "organizationId" in
  (∀ req, req = PutCustomer id (Some body) ∨ req = DeleteCustomer id →
     ∃ resp w' rest,
       Routes.handle P req w = (Ok resp, w')
       ∧ issued w w' =
           customerCall (Str id) false :: roleCall (Str P) owning false :: rest
       ∧ (if Routes.cannotWrite (selectUserRole (db w) (Str P) owning)
          then resp = accessDenied ∧ db w' = db w ∧ rest = []
          else status resp = 200 ∧ ∃ c, rest = [c] ∧ method c = mutation req))
  ∧ (∃ resp w' rest,
       Routes.handle P (PostCustomers (Some body)) w = (Ok resp, w')
       ∧ issued w w' = roleCall (Str P) supplied false :: rest
       ∧ (if Routes.cannotWrite (selectUserRole (db w) (Str P) supplied)
          then resp = accessDenied ∧ db w' = db w ∧ rest = []
          else status resp = 200
               ∧ rest = [mkCall "createCustomer" [] (Some body) false])
       ∧ (activeMemberships (db w) (Str P) supplied = [] →
          resp = accessDenied ∧ db w' = db w ∧ rest = [])).
Proof.
  intros Hnf Hc owning supplied. split.
  - intros req Hreq. apply (existing_customer_run w P id existing req Hnf Hc).
    destruct Hreq as [-> | ->]; eauto.
  - destruct (new_customer_run w P body Hnf) as (resp & w' & rest & Hrun & Hlog & Hcase).
    exists resp, w', rest. split; [done|]. split; [done|]. split; [done|].
    intros Hnone. fold supplied in Hcase.
    by rewrite (selectUserRole_none _ _ _ Hnone) in Hcase.
Qed.

Lemma customer_authorization_uses_owning_organization_witness :
  let w := Sample.world in
  let existing := Sample.customer "c1" "o1" "Smith" 10 in
  let body := Sample.newCustomer (Str "o2") in
  (∀ req, req = PutCustomer "c1" (Some body) ∨ req = DeleteCustomer "c1" →
     ∃ resp w' rest,
       Routes.handle "ed" req w = (Ok resp, w')
       ∧ issued w w' =
           customerCall (Str "c1") false
           :: roleCall (Str "ed") (prop existing "organizationId") false :: rest
       ∧ (if Routes.cannotWrite
               (selectUserRole (db w) (Str "ed") (prop existing "organizationId"))
          then resp = accessDenied ∧ db w' = db w ∧ rest = []
          else status resp = 200 ∧ ∃ c, rest = [c] ∧ method c = mutation req))
  ∧ (∃ resp w' rest,
       Routes.handle "ed" (PostCustomers (Some body)) w = (Ok resp, w')
       ∧ issued w w' = roleCall (Str "ed") (prop body "organizationId") false :: rest
       ∧ (if Routes.cannotWrite
               (selectUserRole (db w) (Str "ed") (prop body "organizationId"))
          then resp = accessDenied ∧ db w' = db w ∧ rest = []
          else status resp = 200
               ∧ rest = [mkCall "createCustomer" [] (Some body) false])
       ∧ (activeMemberships (db w) (Str "ed") (prop body "organizationId") = [] →
          resp = accessDenied ∧ db w' = db w ∧ rest = [])).
Proof.
  apply (customer_authorization_uses_owning_organization Sample.world "ed" "c1").
  - constructor.
  - vm_compute. reflexivity.
Defined.

(** What C2 leaves open.  An accepted update stores the body as it is, the
    [organizationId] included: the editor of one organization, authorized
    against the organization stored on the row, can hand the customer to an
    organization of which the editor is no member. *)
Example update_stores_the_organization_of_the_body :
  let run :=
    Routes.handle "ed" (PutCustomer "c1" (Some (Sample.newCustomer (Str "o2")))) Sample.world in
  (status <$> (match run.1 with Ok resp => Some resp | Throw => None end)) = Some 200
  ∧ map (fun c => prop c "id") (selectCustomers (db run.2) (Str "o1")) = []
  ∧ map (fun c => prop c "id") (selectCustomers (db run.2) (Str "o2")) = [Str "c2"; Str "c1"]
  ∧ activeMemberships (db Sample.world) (Str "ed") (Str "o2") = [].
Proof. by vm_compute. Qed.

(** C9.  On update and deletion of a customer the existence check comes
    first: when no customer row has the given id and the store answers the
    fetch, every principal, member of some organization or of none, receives
    404 "Customer not found", and the fetch is the only statement issued: no
    role is looked up.  The same principal, without an active membership in
    the organization of a customer that exists, receives 403 "Access denied"
    for that one: the two answers tell an unused id from a used one. *)
Theorem missing_customer_is_reported_before_authorization
    (w : World) (P id : string) (body : Obj) :
  nextFails w = false →
  selectCustomer (db w) (Str id) = None →
  Routes.handle P (PutCustomer id (Some body)) w =
    (Ok customerNotFound, advance (customerCall (Str id) false) w)
  ∧ Routes.handle P (DeleteCustomer id) w =
    (Ok customerNotFound, advance (customerCall (Str id) false) w)
  ∧ issued w (advance (customerCall (Str id) false) w) = [customerCall (Str id) false]
  ∧ customerNotFound = mkResponse 404 (message "Customer not found")
  ∧ ∀ id' existing,
      noFaults w →
      selectCustomer (db w) (Str id') = Some existing →
      activeMemberships (db w) (Str P) (prop existing "organizationId") = [] →
      (Routes.handle P (PutCustomer id' (Some body)) w).1 =
        Ok (mkResponse 403 (message "Access denied"))
      ∧ (Routes.handle P (DeleteCustomer id') w).1 =
        Ok (mkResponse 403 (message "Access denied")).
Proof.
  intros Hn Hc. unfold Routes.handle at 1 2.
  rewrite putCustomer_run, deleteCustomerById_run, Hn, Hc.
  split; [done|]. split; [done|]. split; [apply issued_advance|]. split; [done|].
  intros id' existing Hnf Hc' Hnone.
  assert (Hdenied : ∀ req,
    targetOrg (db w) req = Some (prop existing "organizationId") →
    (Routes.handle P req w).1 = Ok accessDenied).
  { intros req Ht.
    destruct (denied_without_membership w P _ req Hnone Ht) as (w' & -> & _).
    simpl. by rewrite denial_noFaults. }
  split; apply Hdenied; cbn [targetOrg]; by rewrite Hc'.
Qed.

Lemma missing_customer_is_reported_before_authorization_witness :
  Routes.handle "nobody" (PutCustomer "c9" (Some (Sample.newCustomer (Str "o1")))) Sample.world =
    (Ok customerNotFound, advance (customerCall (Str "c9") false) Sample.world)
  ∧ Routes.handle "nobody" (DeleteCustomer "c9") Sample.world =
    (Ok customerNotFound, advance (customerCall (Str "c9") false) Sample.world)
  ∧ issued Sample.world (advance (customerCall (Str "c9") false) Sample.world) =
    [customerCall (Str "c9") false]
  ∧ customerNotFound = mkResponse 404 (message "Customer not found")
  ∧ ∀ id' existing,
      noFaults Sample.world →
      selectCustomer (db Sample.world) (Str id') = Some existing →
      activeMemberships (db Sample.world) (Str "nobody") (prop existing "organizationId") = [] →
      (Routes.handle "nobody" (PutCustomer id' (Some (Sample.newCustomer (Str "o1"))))
         Sample.world).1 = Ok (mkResponse 403 (message "Access denied"))
      ∧ (Routes.handle "nobody" (DeleteCustomer id') Sample.world).1 =
        Ok (mkResponse 403 (message "Access denied")).
Proof.
  apply (missing_customer_is_reported_before_authorization Sample.world "nobody" "c9").
  - reflexivity.
  - vm_compute. reflexivity.
Defined.

(** ** Soft deletion *)

Section SoftDelete.
Import Routes.

Lemma setTable_same t rows d : setTable t rows d t = rows.
Proof. unfold setTable. by rewrite decide_True. Qed.

Lemma setTable_other t t' rows d : t' ≠ t → setTable t rows d t' = d t'.
Proof. intros H. unfold setTable. by rewrite decide_False. Qed.

Lemma assign_lookup t s r k :
  assign t s r !! k =
  match s !! k with
  | Some v =>
      if decide (v = Undefined) then r !! k
      else if bool_decide (k ∈ map fst (columns t)) then Some v else r !! k
  | None => r !! k
  end.
Proof.
  unfold assign. induction (map fst (columns t)) as [|c cols IH]; simpl.
  - destruct (s !! k) as [v|]; [|done]. by destruct (decide (v = Undefined)).
  - destruct (decide (k = c)) as [->|Hne].
    + rewrite (bool_decide_eq_true_2 (c ∈ c :: cols)) by apply list_elem_of_here.
      destruct (s !! c) as [v|] eqn:Hs; [|done].
      destruct (decide (v = Undefined)); [done|].
      by rewrite lookup_insert_eq.
    + assert (Hin : bool_decide (k ∈ c :: cols) = bool_decide (k ∈ cols)).
      { apply bool_decide_ext. rewrite elem_of_cons. naive_solver. }
      rewrite Hin.
      destruct (s !! c) as [v|]; [destruct (decide (v = Undefined))|]; try done.
      by rewrite lookup_insert_ne.
Qed.

Lemma deactivation_isActive w r :
  prop (assign customers (deactivation w) r) "isActive" = Bool false.
Proof. unfold prop. by rewrite assign_lookup. Qed.

Lemma deactivation_updatedAt w r :
  prop (assign customers (deactivation w) r) "updatedAt" = Date (now w).
Proof. unfold prop. by rewrite assign_lookup. Qed.

Lemma deactivation_other w r k :
  k ≠ "isActive" → k ≠ "updatedAt" →
  assign customers (deactivation w) r !! k = r !! k.
Proof.
  intros H1 H2. rewrite assign_lookup. unfold deactivation.
  rewrite lookup_insert_ne by done. by rewrite lookup_singleton_ne.
Qed.

Lemma deactivation_prop w r k :
  k ≠ "isActive" → k ≠ "updatedAt" →
  prop (assign customers (deactivation w) r) k = prop r k.
Proof. intros H1 H2. unfold prop. by rewrite deactivation_other. Qed.

Lemma Sql_eq_prop column v r r' :
  prop r' column = prop r column → Sql.eq column v r' = Sql.eq column v r.
Proof. unfold Sql.eq. by intros ->. Qed.

Lemma place_In before r rows x : In x (Sql.place before r rows) ↔ x = r ∨ In x rows.
Proof.
  induction rows as [|r' rows IH]; simpl; [naive_solver|].
  destruct (before r r'); simpl; [naive_solver|]. rewrite IH. naive_solver.
Qed.

Lemma orderBy_In before rows x : In x (Sql.orderBy before rows) ↔ In x rows.
Proof.
  unfold Sql.orderBy. induction rows as [|r rows IH]; simpl; [done|].
  rewrite place_In, IH. naive_solver.
Qed.

Lemma deactivated_id w id rows r :
  In r (deactivated w id rows) →
  Sql.eq "id" id r = true → prop r "isActive" = Bool false.
Proof.
  unfold deactivated. rewrite in_map_iff. intros (r0 & <- & _).
  destruct (Sql.eq "id" id r0) eqn:H0; [intros _; apply deactivation_isActive|].
  congruence.
Qed.

Lemma deactivated_first w id rows :
  head (Sql.where_ (Sql.eq "id" id) (deactivated w id rows)) =
  assign customers (deactivation w) <$> head (Sql.where_ (Sql.eq "id" id) rows).
Proof.
  unfold Sql.where_, deactivated. induction rows as [|r rows IH]; [done|]. simpl.
  destruct (Sql.eq "id" id r) eqn:Hr.
  - rewrite (Sql_eq_prop _ _ r); [by rewrite Hr | by apply deactivation_prop].
  - by rewrite Hr.
Qed.

End SoftDelete.

(** C10.  Deleting a customer is a soft delete.  [deleteCustomer], the store
    answering, overwrites [isActive] with [false] and [updatedAt] with the
    current time on the rows with the given id and removes no row.
    Afterwards no listing of any organization ([getCustomers]) contains a row
    with that id, while the fetch by id ([getCustomer]) still returns the
    row, every other column as before; so a principal whose role in the
    owning organization passes the write test can still update the customer
    and delete it again through its id: both requests are answered 200. *)
Theorem customer_deletion_is_soft (w : World) (id : string) :
  noFaults w →
  ∃ w',
    deleteCustomer (Str id) w = (Ok tt, w')
    ∧ db w' customers = deactivated w (Str id) (db w customers)
    ∧ length (db w' customers) = length (db w customers)
    ∧ (∀ t, t ≠ customers → db w' t = db w t)
    ∧ (∀ orgId r, In r (selectCustomers (db w') orgId) → prop r "id" ≠ Str id)
    ∧ (∀ c, selectCustomer (db w) (Str id) = Some c →
         ∃ c',
           selectCustomer (db w') (Str id) = Some c'
           ∧ prop c' "isActive" = Bool false
           ∧ prop c' "updatedAt" = Date (now w)
           ∧ (∀ k, k ≠ "isActive" → k ≠ "updatedAt" → c' !! k = c !! k)
           ∧ ∀ P body req,
               req = PutCustomer id (Some body) ∨ req = DeleteCustomer id →
               Routes.cannotWrite
                 (selectUserRole (db w') (Str P) (prop c "organizationId")) = false →
               ∃ resp w'',
                 Routes.handle P req w' = (Ok resp, w'') ∧ status resp = 200).
Proof.
  intros Hnf. rewrite deleteCustomer_run, (noFaults_nextFails _ Hnf).
  eexists. split; [reflexivity|].
  set (w' := rewritten _ _ _ _).
  assert (Hrows : db w' customers = deactivated w (Str id) (db w customers)).
  { unfold w'. cbn [db rewritten advance]. by rewrite setTable_same. }
  assert (Hnf' : noFaults w').
  { by apply noFaults_rewritten, noFaults_advance. }
  split; [done|]. split; [|split; [|split]].
  - rewrite Hrows. unfold deactivated. by rewrite length_map.
  - intros t Ht. unfold w'. cbn [db rewritten advance]. by apply setTable_other.
  - intros orgId r Hin Hid. unfold selectCustomers in Hin.
    apply orderBy_In in Hin. unfold Sql.where_ in Hin.
    apply filter_In in Hin as [Hin Hsel]. rewrite Hrows in Hin.
    unfold Sql.and in Hsel. simpl in Hsel.
    apply andb_true_iff in Hsel as [_ Hact]. rewrite andb_true_r in Hact.
    apply Sql_eq_true in Hact; [|done..].
    assert (Hf : prop r "isActive" = Bool false).
    { apply (deactivated_id w (Str id) _ r Hin). by apply Sql_eq_true. }
    congruence.
  - intros c Hc. exists (assign customers (deactivation w) c).
    assert (Hc' : selectCustomer (db w') (Str id) =
                  Some (assign customers (deactivation w) c)).
    { unfold selectCustomer in *. by rewrite Hrows, deactivated_first, Hc. }
    split; [done|]. split; [apply deactivation_isActive|].
    split; [apply deactivation_updatedAt|].
    split; [intros k; apply deactivation_other|].
    intros P body req Hreq Hrole.
    destruct (existing_customer_run w' P id _ req Hnf' Hc') as
      (resp & w'' & rest & Hrun & _ & Hcase).
    { destruct Hreq as [-> | ->]; eauto. }
    exists resp, w''. split; [done|].
    rewrite deactivation_prop in Hcase by done.
    rewrite Hrole in Hcase. apply Hcase.
Qed.

Lemma customer_deletion_is_soft_witness :
  ∃ w',
    deleteCustomer (Str "c1") Sample.world = (Ok tt, w')
    ∧ db w' customers = deactivated Sample.world (Str "c1") (db Sample.world customers)
    ∧ length (db w' customers) = length (db Sample.world customers)
    ∧ (∀ t, t ≠ customers → db w' t = db Sample.world t)
    ∧ (∀ orgId r, In r (selectCustomers (db w') orgId) → prop r "id" ≠ Str "c1")
    ∧ (∀ c, selectCustomer (db Sample.world) (Str "c1") = Some c →
         ∃ c',
           selectCustomer (db w') (Str "c1") = Some c'
           ∧ prop c' "isActive" = Bool false
           ∧ prop c' "updatedAt" = Date (now Sample.world)
           ∧ (∀ k, k ≠ "isActive" → k ≠ "updatedAt" → c' !! k = c !! k)
           ∧ ∀ P body req,
               req = PutCustomer "c1" (Some body) ∨ req = DeleteCustomer "c1" →
               Routes.cannotWrite
                 (selectUserRole (db w') (Str P) (prop c "organizationId")) = false →
               ∃ resp w'',
                 Routes.handle P req w' = (Ok resp, w'') ∧ status resp = 200).
Proof.
  apply (customer_deletion_is_soft Sample.world "c1"). constructor.
Defined.

(** ** Inactive memberships *)

Section Inactive.

Lemma where_nil (f : Obj → bool) rows :
  Sql.where_ f rows = [] ↔ ∀ r, In r rows → f r = false.
Proof.
  unfold Sql.where_. induction rows as [|r rows IH]; simpl; [naive_solver|].
  destruct (f r) eqn:Hf.
  - split; [done|]. intros H. specialize (H r (or_introl eq_refl)). congruence.
  - rewrite IH. naive_solver.
Qed.

(** No membership of the pair is active exactly when every row of the pair
    has an [isActive] other than [true]. *)
Lemma activeMemberships_nil d userId orgId :
  activeMemberships d userId orgId = [] ↔
  ∀ m, In m (d organizationMembers) → ofPair userId orgId m = true →
       prop m "isActive" ≠ Bool true.
Proof.
  unfold activeMemberships. rewrite where_nil. apply forall_proper. intros m.
  unfold activeMembership, ofPair, Sql.and. simpl. rewrite !andb_true_r.
  destruct (Sql.eq "userId" userId m), (Sql.eq "organizationId" orgId m); simpl;
    try naive_solver.
  destruct (Sql.eq "isActive" (Bool true) m) eqn:Ha.
  - apply Sql_eq_true in Ha; [|done..]. naive_solver.
  - split; [|done]. intros _ _ _ Hp. apply (Sql_eq_true "isActive") in Hp; [|done..].
    congruence.
Qed.

Lemma activeMemberships_removed d' d userId orgId :
  d' organizationMembers =
    List.filter (fun m => negb (ofPair userId orgId m)) (d organizationMembers) →
  activeMemberships d' userId orgId = [].
Proof.
  intros H. apply activeMemberships_nil. intros m Hm Hp.
  rewrite H in Hm. apply filter_In in Hm as [_ Hn]. by rewrite Hp in Hn.
Qed.

Lemma targetOrg_customers d d' req :
  d' customers = d customers → targetOrg d' req = targetOrg d req.
Proof.
  intros H. destruct req as [| |b|o|o| |b|o|b|i b|i|o|b|o|b|o|b|o|b]; try done;
    unfold targetOrg, selectCustomer; by rewrite H.
Qed.

End Inactive.

(** C4.  A membership whose [isActive] is not [true] counts as no
    membership.  When every membership row of the pair [(P, O)] is inactive,
    [getUserRole] resolves no role, and every request of [P] directed at [O]
    is refused: never 200, and 403 "Access denied" when the store answers.
    This is exactly what happens in the world [w'] that differs from [w] by
    the absence of the rows of the pair: no role there either, and the same
    response to the same request under the same oracle. *)
Theorem inactive_membership_is_no_membership
    (w w' : World) (P : string) (O : JsVal) (req : Request) :
  (∀ m, In m (db w organizationMembers) → ofPair (Str P) O m = true →
        prop m "isActive" ≠ Bool true) →
  db w' organizationMembers =
    List.filter (fun m => negb (ofPair (Str P) O m)) (db w organizationMembers) →
  db w' customers = db w customers →
  faults w' = faults w →
  targetOrg (db w) req = Some O →
  selectUserRole (db w) (Str P) O = Null
  ∧ selectUserRole (db w') (Str P) O = Null
  ∧ ∃ resp w1 w1',
      Routes.handle P req w = (Ok resp, w1)
      ∧ Routes.handle P req w' = (Ok resp, w1')
      ∧ status resp ≠ 200
      ∧ (noFaults w → resp = accessDenied)
      ∧ db w1 = db w ∧ db w1' = db w'.
Proof.
  intros Hin Hrows Hcust Hfaults Ht.
  apply activeMemberships_nil in Hin.
  pose proof (activeMemberships_removed _ _ _ _ Hrows) as Hin'.
  split; [by apply selectUserRole_none|]. split; [by apply selectUserRole_none|].
  destruct (denied_without_membership w P O req Hin Ht) as (w1 & Hrun & Hdb & _).
  destruct (denied_without_membership w' P O req Hin') as (w1' & Hrun' & Hdb' & _).
  { by rewrite (targetOrg_customers (db w)). }
  exists (denial req (faults w)), w1, w1'. rewrite Hfaults in Hrun'.
  repeat split; try done.
  - apply denial_status.
  - apply denial_noFaults.
Qed.

Lemma inactive_membership_is_no_membership_witness :
  selectUserRole (db Sample.world) (Str "old") (Str "o1") = Null
  ∧ selectUserRole (db (Sample.without "old" "o1")) (Str "old") (Str "o1") = Null
  ∧ ∃ resp w1 w1',
      Routes.handle "old" (GetCustomers "o1") Sample.world = (Ok resp, w1)
      ∧ Routes.handle "old" (GetCustomers "o1") (Sample.without "old" "o1") = (Ok resp, w1')
      ∧ status resp ≠ 200
      ∧ (noFaults Sample.world → resp = accessDenied)
      ∧ db w1 = db Sample.world ∧ db w1' = db (Sample.without "old" "o1").
Proof.
  apply (inactive_membership_is_no_membership
           Sample.world (Sample.without "old" "o1") "old" (Str "o1") (GetCustomers "o1")).
  - apply activeMemberships_nil. vm_compute. reflexivity.
  - reflexivity.
  - reflexivity.
  - reflexivity.
  - reflexivity.
Defined.

(** ** Species creation *)

Section Species.
Import Routes.

Lemma logged_nil w : logged [] w = w.
Proof. destruct w. unfold logged. simpl. by rewrite app_nil_r. Qed.

Lemma logged_advance cs c w : logged cs (advance c w) = logged (c :: cs) w.
Proof.
  unfold logged, advance. simpl. f_equal.
  - destruct (faults w); simpl; [by rewrite ?drop_nil|done].
  - by rewrite <- app_assoc.
Qed.

Lemma issued_logged cs w : issued w (logged cs w) = cs.
Proof. by apply issued_app. Qed.

Lemma noFaults_take n w : noFaults w → existsb id (take n (faults w)) = false.
Proof.
  unfold noFaults. intros H. revert n.
  induction H as [|b fs -> _ IH]; intros [|n]; simpl; auto.
Qed.

Lemma promiseAll_roles userId orgs w :
  promiseAll
    (map (fun org => role ← getUserRole userId (prop org "id");
                     mret (isOwnerOrAdmin role)) orgs) w =
  (if existsb id (take (length orgs) (faults w)) then Throw
   else Ok (map (fun org => isOwnerOrAdmin (selectUserRole (db w) userId (prop org "id")))
              orgs),
   logged (roleCalls userId orgs (faults w)) w).
Proof.
  revert w. induction orgs as [|o orgs IH]; intros w.
  - simpl. by rewrite logged_nil.
  - cbn [map promiseAll]. rewrite bind_run, getUserRole_run.
    cbn [roleCalls]. rewrite <- logged_advance.
    assert (Hhd : hd false (faults w) = nextFails w) by done. rewrite Hhd.
    assert (Hex : existsb id (take (length (o :: orgs)) (faults w)) =
                  nextFails w || existsb id (take (length orgs) (tail (faults w)))).
    { unfold nextFails. destruct (faults w) as [|b fs]; simpl; [|done].
      by rewrite take_nil. }
    rewrite Hex.
    destruct (nextFails w); cbn [mret M_ret orb]; rewrite IH; cbn [faults advance db].
    + done.
    + by destruct (existsb id (take (length orgs) (tail (faults w)))).
Qed.

Lemma existsb_id_map {A} (f : A → bool) l : existsb id (map f l) = existsb f l.
Proof. induction l as [|x l IH]; simpl; [done|]. by rewrite IH. Qed.

Lemma postSpecies_run userId data w :
  postSpecies userId (Some data) w =
  let orgs := joinUserOrganizations (db w) (Str userId) in
  let c0 := mkCall "getUserOrganizations" [Str userId] None (nextFails w) in
  if nextFails w then (Ok (mkResponse 500 (message "Failed to create species")), advance c0 w)
  else
    let w2 := logged (c0 :: roleCalls (Str userId) orgs (tail (faults w))) w in
    if existsb id (take (length orgs) (tail (faults w)))
    then (Ok (mkResponse 500 (message "Failed to create species")), w2)
    else if existsb (fun o => isOwnerOrAdmin
                                (selectUserRole (db w) (Str userId) (prop o "id"))) orgs
         then match createSpecies data w2 with
              | (Ok created, w3) => (Ok (resJson (JObject created)), w3)
              | (Throw, w3) =>
                  (Ok (mkResponse 500 (message "Failed to create species")), w3)
              end
         else (Ok speciesDenied, w2).
Proof.
  unfold postSpecies, tryCatch, parse, getUserOrganizations.
  rewrite bind_run. cbn [mret M_ret]. rewrite bind_run, select_run.
  destruct (nextFails w) eqn:Hn; [done|]. cbn zeta.
  rewrite bind_run, promiseAll_roles, logged_advance.
  cbn [faults advance db].
  destruct (existsb id (take _ _)); [done|].
  rewrite existsb_id_map.
  destruct (existsb _ (joinUserOrganizations _ _)) eqn:Hex.
  - rewrite orb_false_r.
    destruct (joinUserOrganizations (db w) (Str userId)) as [|o os] eqn:Hj; [done|].
    cbn [length Nat.eqb negb]. rewrite bind_run.
    by destruct (createSpecies _ _) as [[]].
  - by rewrite orb_true_r.
Qed.

Lemma roleCalls_methods userId orgs fs :
  Forall (fun c => method c = "getUserRole") (roleCalls userId orgs fs).
Proof.
  revert fs. induction orgs as [|o orgs IH]; intros fs; simpl; constructor; auto.
Qed.

Lemma roleCalls_threw userId orgs fs :
  existsb id (take (length orgs) fs) = false →
  Forall (fun c => threw c = false) (roleCalls userId orgs fs).
Proof.
  revert fs. induction orgs as [|o orgs IH]; intros fs H; simpl; [constructor|].
  destruct fs as [|b fs]; simpl in *.
  - constructor; [done|]. apply IH. by rewrite take_nil.
  - apply orb_false_iff in H as [Hb H]. constructor; [done|]. by apply IH.
Qed.

(** The role [getUserRole] resolves is the [role] of an active membership
    row of the pair. *)
Lemma selectUserRole_row d userId orgId :
  selectUserRole d userId orgId = Null
  ∨ ∃ m, In m (d organizationMembers)
         ∧ activeMembership userId orgId m = true
         ∧ selectUserRole d userId orgId = prop m "role".
Proof.
  unfold selectUserRole.
  destruct (Sql.where_ _ _) as [|m ms] eqn:Hw; [by left|]. simpl.
  assert (Hin : In m (Sql.where_ (activeMembership userId orgId) (d organizationMembers))).
  { rewrite Hw. by left. }
  apply filter_In in Hin as [Hin Ha].
  assert (Hp : prop ({["role" := prop m "role"]} : Obj) "role" = prop m "role").
  { unfold prop at 1. by rewrite lookup_singleton_eq. }
  unfold Js.or. rewrite Hp.
  destruct (truthy (prop m "role")); [|by left].
  right. by exists m.
Qed.

Lemma isOwnerOrAdmin_true role :
  isOwnerOrAdmin role = true ↔ role = Str "owner" ∨ role = Str "admin".
Proof.
  unfold isOwnerOrAdmin, strictEq.
  rewrite orb_true_iff, !bool_decide_eq_true. done.
Qed.

Lemma holdsNoAdminRole_roles d P orgs :
  holdsNoAdminRole d P →
  existsb (fun o => isOwnerOrAdmin (selectUserRole d (Str P) (prop o "id"))) orgs = false.
Proof.
  intros H. induction orgs as [|o orgs IH]; simpl; [done|].
  rewrite IH, orb_false_r. apply not_true_iff_false. intros Hr.
  apply isOwnerOrAdmin_true in Hr.
  destruct (selectUserRole_row d (Str P) (prop o "id")) as [Hn|(m & Hin & Ha & Hm)].
  { rewrite Hn in Hr. naive_solver. }
  unfold activeMembership, Sql.and in Ha. simpl in Ha.
  apply andb_true_iff in Ha as [Hu Ha]. apply andb_true_iff in Ha as [_ Ha].
  rewrite andb_true_r in Ha. apply Sql_eq_true in Ha; [|done..].
  destruct (H m Hin Hu Ha) as [H1 H2]. rewrite Hm in Hr. naive_solver.
Qed.

(** Species creation by a principal who holds neither [owner] nor
    [admin]: the role lookups are all that follows the listing of the
    organizations. *)
Lemma species_denied_run w P data :
  holdsNoAdminRole (db w) P →
  handle P (PostSpecies (Some data)) w =
  let orgs := joinUserOrganizations (db w) (Str P) in
  let c0 := mkCall "getUserOrganizations" [Str P] None (nextFails w) in
  if nextFails w then (Ok (serverError (PostSpecies (Some data))), advance c0 w)
  else (Ok (if existsb id (take (length orgs) (tail (faults w)))
            then serverError (PostSpecies (Some data))
            else speciesDenied),
        logged (c0 :: roleCalls (Str P) orgs (tail (faults w))) w).
Proof.
  intros H. unfold handle. rewrite postSpecies_run. cbn zeta.
  rewrite (holdsNoAdminRole_roles _ _ _ H).
  destruct (nextFails w); [done|]. by destruct (existsb id (take _ _)).
Qed.

Lemma noFaults_tail n w : noFaults w → existsb id (take n (tail (faults w))) = false.
Proof.
  intros Hnf.
  apply (noFaults_take n (advance (mkCall "" [] None false) w)), noFaults_advance, Hnf.
Qed.

Lemma noFaults_logged cs w : noFaults w → noFaults (logged cs w).
Proof. unfold noFaults, logged. simpl. apply Forall_drop. Qed.

(** Species creation by a principal for whom [getUserRole] resolves
    [owner] or [admin] in one of the organizations [getUserOrganizations]
    lists: the store answering, the species is stored. *)
Lemma species_created_run w P data o :
  noFaults w →
  In o (joinUserOrganizations (db w) (Str P)) →
  isOwnerOrAdmin (selectUserRole (db w) (Str P) (prop o "id")) = true →
  ∃ row w',
    handle P (PostSpecies (Some data)) w = (Ok (resJson (JObject row)), w')
    ∧ db w' species = (db w species ++ [row])%list.
Proof.
  intros Hnf Hin Hrole. unfold handle. rewrite postSpecies_run. cbn zeta.
  rewrite (noFaults_nextFails _ Hnf).
  pose proof (noFaults_take (length (joinUserOrganizations (db w) (Str P)))
                (advance (mkCall "getUserOrganizations" [Str P] None false) w)
                (noFaults_advance _ _ Hnf)) as Htake.
  cbn [faults advance] in Htake. rewrite Htake.
  assert (Hex : existsb (fun o => isOwnerOrAdmin (selectUserRole (db w) (Str P) (prop o "id")))
                  (joinUserOrganizations (db w) (Str P)) = true).
  { apply existsb_exists. by exists o. }
  rewrite Hex. unfold createSpecies.
  rewrite insertInto_run, (noFaults_nextFails _ (noFaults_logged _ _ Hnf)). cbn zeta.
  do 2 eexists. split; [reflexivity|].
  cbn [db stored advance logged]. by rewrite setTable_same.
Qed.

End Species.

(** C7.  Species creation is reserved to owners and admins.  A principal
    whose active memberships carry neither [owner] nor [admin] (only editor,
    viewer or another role, or no active membership at all) never creates a
    species: whatever the body and whatever the store does, the response is
    not 200, the database is unchanged and no [createSpecies] statement is
    issued; when the body parses and the store answers, the response is 403
    with the message of the route. *)
Theorem species_creation_requires_owner_or_admin
    (w : World) (P : string) (body : option Obj) :
  holdsNoAdminRole (db w) P →
  ∃ resp w',
    Routes.handle P (PostSpecies body) w = (Ok resp, w')
    ∧ status resp ≠ 200
    ∧ db w' = db w
    ∧ Forall (fun c => method c ≠ "createSpecies") (issued w w')
    ∧ (noFaults w → is_Some body →
       resp = mkResponse 403
                (message "Access denied. Only organization owners and admins can create species.")).
Proof.
  intros H. destruct body as [data|].
  - rewrite (species_denied_run w P data H). cbn zeta.
    set (orgs := joinUserOrganizations (db w) (Str P)).
    destruct (nextFails w) eqn:Hn.
    + do 2 eexists. split; [reflexivity|]. split; [done|]. split; [done|].
      split; [by rewrite issued_advance; repeat constructor|].
      intros Hnf. by rewrite (noFaults_nextFails _ Hnf) in Hn.
    + do 2 eexists. split; [reflexivity|].
      split; [by destruct (existsb id (take _ _))|]. split; [done|]. split.
      * rewrite issued_logged. constructor; [done|].
        eapply Forall_impl; [apply roleCalls_methods|]. simpl. by intros c ->.
      * intros Hnf _. by rewrite (noFaults_tail _ _ Hnf).
  - unfold Routes.handle, Routes.postSpecies, tryCatch, parse.
    rewrite bind_run. unfold throw. cbn [failed mret M_ret].
    do 2 eexists. split; [reflexivity|]. split; [done|]. split; [done|]. split.
    + unfold issued. rewrite drop_all. constructor.
    + by intros _ [? ?].
Qed.

Lemma species_creation_requires_owner_or_admin_witness :
  ∃ resp w',
    Routes.handle "ed" (PostSpecies (Some Sample.newSpecies)) Sample.world = (Ok resp, w')
    ∧ status resp ≠ 200
    ∧ db w' = db Sample.world
    ∧ Forall (fun c => method c ≠ "createSpecies") (issued Sample.world w')
    ∧ (noFaults Sample.world → is_Some (Some Sample.newSpecies) →
       resp = mkResponse 403
                (message "Access denied. Only organization owners and admins can create species.")).
Proof.
  apply (species_creation_requires_owner_or_admin
           Sample.world "ed" (Some Sample.newSpecies)).
  intros m [<-|[<-|[<-|[<-|[<-|[]]]]]]; vm_compute;
    intros; (discriminate || (split; discriminate)).
Defined.

(** ** Refusals *)

(** C8, as the claim states it, fails on species creation: an editor is
    refused with the message of that route, which is not the
    "Access denied" of the organization-scoped routes. *)
Lemma species_refusal_is_not_access_denied :
  (Routes.handle "ed" (PostSpecies (Some Sample.newSpecies)) Sample.world).1 =
    Ok (mkResponse 403
          (message "Access denied. Only organization owners and admins can create species."))
  ∧ selectUserRole (db Sample.world) (Str "ed") (Str "o1") = Str "editor"
  ∧ mkResponse 403
      (message "Access denied. Only organization owners and admins can create species.")
    ≠ mkResponse 403 (message "Access denied").
Proof.
  split; [by vm_compute|]. split; [by vm_compute|].
  intros H. discriminate (f_equal (fun r => match json r with
                                            | JObject o => bool_decide (prop o "message" = Str "Access denied")
                                            | _ => false
                                            end) H).
Qed.

(** C8, amended.  A principal without the membership a request needs and a
    principal whose active role fails the role test of the request receive
    the same response to it, the store answering: 403 "Access denied" on the
    organization-scoped routes, and 403 with the message of the route on
    species creation. *)
Theorem refusals_do_not_reveal_membership
    (w1 w2 : World) (P1 P2 : string) (req : Request) :
  noFaults w1 → noFaults w2 →
  notAMember (db w1) P1 req →
  insufficientRole (db w2) P2 req →
  ∃ resp w1' w2',
    Routes.handle P1 req w1 = (Ok resp, w1')
    ∧ Routes.handle P2 req w2 = (Ok resp, w2')
    ∧ resp =
      match req with
      | PostSpecies _ =>
          mkResponse 403
            (message "Access denied. Only organization owners and admins can create species.")
      | _ => mkResponse 403 (message "Access denied")
      end.
Proof.
  intros Hnf1 Hnf2 H1 H2.
  assert (Hscoped :
    (∃ O, targetOrg (db w1) req = Some O ∧ activeMemberships (db w1) (Str P1) O = []) →
    (∃ O, targetOrg (db w2) req = Some O
          ∧ activeMemberships (db w2) (Str P2) O ≠ []
          ∧ roleCheckFails req (selectUserRole (db w2) (Str P2) O) = true) →
    ∃ w1' w2',
      Routes.handle P1 req w1 = (Ok accessDenied, w1')
      ∧ Routes.handle P2 req w2 = (Ok accessDenied, w2')).
  { intros (O1 & Ht1 & Hn1) (O2 & Ht2 & _ & Hr2).
    destruct (denied_without_membership w1 P1 O1 req Hn1 Ht1) as (w1' & Hrun1 & _).
    destruct (denied_run w2 P2 O2 req Ht2 Hr2) as (w2' & Hrun2 & _).
    rewrite denial_noFaults in Hrun1, Hrun2 by done. by exists w1', w2'. }
  destruct req as [| |b|o|o| |b|o|b|i b|i|o|b|o|b|o|b|o|b];
    try (destruct (Hscoped H1 H2) as (w1' & w2' & Hr1 & Hr2);
         by exists accessDenied, w1', w2').
  destruct b as [data|].
  - destruct H2 as [_ H2].
    assert (H1' : holdsNoAdminRole (db w1) P1).
    { intros m Hin Hu Ha. by destruct (H1 m Hin Hu). }
    rewrite (species_denied_run w1 P1 data H1'), (species_denied_run w2 P2 data H2).
    cbn zeta.
    rewrite (noFaults_nextFails _ Hnf1), (noFaults_nextFails _ Hnf2).
    rewrite (noFaults_tail _ _ Hnf1), (noFaults_tail _ _ Hnf2).
    by do 3 eexists.
  - destruct H1 as (O & Ht & _). discriminate Ht.
Qed.

Lemma refusals_do_not_reveal_membership_witness :
  ∃ resp w1' w2',
    Routes.handle "zoe" (PostCustomers (Some (Sample.newCustomer (Str "o1")))) Sample.world
      = (Ok resp, w1')
    ∧ Routes.handle "vic" (PostCustomers (Some (Sample.newCustomer (Str "o1")))) Sample.world
      = (Ok resp, w2')
    ∧ resp = mkResponse 403 (message "Access denied").
Proof.
  apply (refusals_do_not_reveal_membership Sample.world Sample.world "zoe" "vic"
           (PostCustomers (Some (Sample.newCustomer (Str "o1"))))).
  - constructor.
  - constructor.
  - exists (Str "o1"). split; vm_compute; reflexivity.
  - exists (Str "o1"). split; [reflexivity|]. split; [|vm_compute; reflexivity].
    intros H. apply (f_equal length) in H. vm_compute in H. discriminate H.
Defined.

(** ** Traces *)

Ltac not_lookup :=
  let H := fresh in
  intros H; destruct H as [H|[H|H]]; discriminate H.

Lemma Quiet_ret {A} (a : A) : Quiet (mret a).
Proof. intros w. exists []. simpl. by rewrite app_nil_r. Qed.

Lemma Quiet_throw {A} : Quiet (@throw A).
Proof. intros w. exists []. simpl. by rewrite app_nil_r. Qed.

Lemma Quiet_bind {A B} (m : M A) (f : A → M B) :
  Quiet m → (∀ a, Quiet (f a)) → Quiet (m ≫= f).
Proof.
  intros Hm Hf w. rewrite bind_run. destruct (Hm w) as (cs & Hlog & Hcs).
  destruct (m w) as [[a|] w1]; simpl in *.
  - destruct (Hf a w1) as (cs' & Hlog' & Hcs').
    exists (cs ++ cs')%list. rewrite Hlog', Hlog, app_assoc. split; [done|].
    by apply Forall_app.
  - by exists cs.
Qed.

Lemma Quiet_tryCatch {A} (body handler : M A) :
  Quiet body → Quiet handler → Quiet (tryCatch body handler).
Proof.
  intros Hb Hh w. unfold tryCatch. destruct (Hb w) as (cs & Hlog & Hcs).
  destruct (body w) as [[a|] w1]; simpl in *.
  - by exists cs.
  - destruct (Hh w1) as (cs' & Hlog' & Hcs').
    exists (cs ++ cs')%list. rewrite Hlog', Hlog, app_assoc. split; [done|].
    by apply Forall_app.
Qed.

Lemma Quiet_statement {A} m a p (run : World → A * World) :
  ¬ lookupMethod m → (∀ w, log (run w).2 = log w) → Quiet (statement m a p run).
Proof.
  intros Hm Hrun w. rewrite statement_run. exists [mkCall m a p (nextFails w)].
  destruct (nextFails w); simpl.
  - split; [done|]. by repeat constructor.
  - specialize (Hrun (advance (mkCall m a p false) w)).
    destruct (run _) as [x w2]. simpl in *. split; [done|]. by repeat constructor.
Qed.

Lemma Quiet_select {A} m a (q : Db → A) : ¬ lookupMethod m → Quiet (select m a q).
Proof. intros Hm. by apply Quiet_statement. Qed.

Lemma Quiet_insertInto m t values : ¬ lookupMethod m → Quiet (insertInto m t values).
Proof. intros Hm. by apply Quiet_statement. Qed.

Lemma Quiet_updateWhere m a p t s c : ¬ lookupMethod m → Quiet (updateWhere m a p t s c).
Proof. intros Hm. by apply Quiet_statement. Qed.

Lemma Quiet_failed msg : Quiet (failed msg).
Proof. apply Quiet_ret. Qed.

Lemma Quiet_issued {A} (m : M A) w :
  Quiet m → Forall (fun c => ¬ lookupMethod (method c)) (issued w (m w).2).
Proof. intros Hm. destruct (Hm w) as (cs & Hlog & Hcs). by rewrite (issued_app _ _ _ Hlog). Qed.

Lemma Quiet_throw_bind {A B} (f : A → M B) : Quiet (throw ≫= f).
Proof. intros w. exists []. simpl. by rewrite app_nil_r. Qed.

Ltac quiet :=
  repeat first
    [ apply Quiet_ret | apply Quiet_throw | apply Quiet_failed
    | apply Quiet_throw_bind
    | apply Quiet_select; not_lookup
    | apply Quiet_insertInto; not_lookup
    | apply Quiet_updateWhere; not_lookup
    | apply Quiet_tryCatch
    | apply Quiet_bind; [|intros ?]
    | match goal with
      | |- Quiet (match ?x with _ => _ end) => destruct x
      end ].

Lemma Clean_ret {A} (a : A) : Clean (mret a).
Proof. intros w. exists []. simpl. rewrite app_nil_r. split; [done|]. by constructor. Qed.

Lemma Clean_throw {A} : Clean (@throw A).
Proof. intros w. exists []. simpl. by rewrite app_nil_r. Qed.

Lemma Clean_now : Clean (fun w => (Ok (Date (now w)), w)).
Proof. intros w. exists []. simpl. rewrite app_nil_r. split; [done|]. by constructor. Qed.

Lemma Clean_bind {A B} (m : M A) (f : A → M B) :
  Clean m → (∀ a, Clean (f a)) → Clean (m ≫= f).
Proof.
  intros Hm Hf w. rewrite bind_run. destruct (Hm w) as (cs & Hlog & Hcs).
  destruct (m w) as [[a|] w1]; simpl in *.
  - destruct (Hf a w1) as (cs' & Hlog' & Hcs').
    exists (cs ++ cs')%list. rewrite Hlog', Hlog, app_assoc. split; [done|].
    intros b Hb. apply Forall_app. split; [by apply (Hcs a)|by apply (Hcs' b)].
  - exists cs. split; [done|]. intros b Hb. discriminate Hb.
Qed.

Lemma Clean_statement {A} m a p (run : World → A * World) :
  (∀ w, log (run w).2 = log w) → Clean (statement m a p run).
Proof.
  intros Hrun w. rewrite statement_run. exists [mkCall m a p (nextFails w)].
  destruct (nextFails w); simpl.
  - split; [done|]. intros x Hx. discriminate Hx.
  - specialize (Hrun (advance (mkCall m a p false) w)).
    destruct (run _) as [x w2]. simpl in *. split; [done|]. by repeat constructor.
Qed.

Lemma Clean_select {A} m a (q : Db → A) : Clean (select m a q).
Proof. by apply Clean_statement. Qed.

Lemma Clean_insertInto m t values : Clean (insertInto m t values).
Proof. by apply Clean_statement. Qed.

Lemma Clean_updateWhere m a p t s c : Clean (updateWhere m a p t s c).
Proof. by apply Clean_statement. Qed.

Lemma Clean_promiseAll {A} (ms : list (M A)) :
  Forall Clean ms → Clean (promiseAll ms).
Proof.
  induction 1 as [|m ms Hm _ IH]; intros w.
  - exists []. simpl. rewrite app_nil_r. split; [done|]. by constructor.
  - cbn [promiseAll]. destruct (Hm w) as (cs & Hlog & Hcs).
    destruct (m w) as [r w1]. destruct (IH w1) as (cs' & Hlog' & Hcs').
    destruct (promiseAll ms w1) as [rs w2]. simpl in *.
    exists (cs ++ cs')%list. rewrite Hlog', Hlog, app_assoc. split; [done|].
    intros l Hl. destruct r as [x|]; [|done]. destruct rs as [xs|]; [|done].
    apply Forall_app. split; [by apply (Hcs x)|by apply (Hcs' xs)].
Qed.

Ltac clean :=
  repeat first
    [ apply Clean_ret | apply Clean_throw | apply Clean_now
    | apply Clean_select | apply Clean_insertInto | apply Clean_updateWhere
    | apply Clean_bind; [|intros ?]
    | match goal with
      | |- Clean (match ?x with _ => _ end) => destruct x
      end ].

Section Traces.
Import Routes.

Lemma Quiet_updateCustomer id data : Quiet (updateCustomer id data).
Proof. unfold updateCustomer. quiet. Qed.

Lemma Quiet_deleteCustomer id : Quiet (deleteCustomer id).
Proof. unfold deleteCustomer. quiet. Qed.

Lemma Quiet_getAuthUser P : Quiet (getAuthUser P).
Proof. unfold getAuthUser, getUser. quiet. Qed.

Lemma Quiet_postOrganizations P body : Quiet (postOrganizations P body).
Proof.
  unfold postOrganizations, parse, createOrganization, addOrganizationMember.
  destruct body; quiet.
  intros w. exists []. simpl. by rewrite app_nil_r.
Qed.

Lemma Quiet_getSpeciesList : Quiet getSpeciesList.
Proof. unfold getSpeciesList, getAllSpecies. quiet. Qed.

(** What follows the role test of a listing. *)
Lemma Quiet_rest P req :
  match req with
  | GetOrganization o =>
      Quiet (organization ← getOrganization (Str o);
             match organization with
             | None => mret (mkResponse 404 (message "Organization not found"))
             | Some o => mret (resJson (JObject o))
             end)
  | GetDashboard o =>
      Quiet (metrics ← getDashboardMetrics (Str o); mret (resJson (JObject metrics)))
  | GetCustomers o => Quiet (rows ← getCustomers (Str o); mret (resJson (JArray rows)))
  | GetProcessingRecords o =>
      Quiet (rows ← getProcessingRecords (Str o); mret (resJson (JArray rows)))
  | GetInventory o =>
      Quiet (rows ← getInventoryItems (Str o); mret (resJson (JArray rows)))
  | GetInvoices o => Quiet (rows ← getInvoices (Str o); mret (resJson (JArray rows)))
  | GetCutInstructions o =>
      Quiet (rows ← getCutInstructions (Str o); mret (resJson (JArray rows)))
  | _ => Quiet (handle P GetSpecies)
  end.
Proof.
  destruct req; try apply Quiet_getSpeciesList;
    unfold getOrganization, getCustomers, getProcessingRecords, getInventoryItems,
      getInvoices, getCutInstructions; quiet.
Qed.

End Traces.

(** ** Failing closed *)

Section FailClosed.
Import Routes.

Lemma tryCatch_failed (body : M Response) msg w :
  ∃ resp w', tryCatch body (failed msg) w = (Ok resp, w').
Proof. unfold tryCatch. destruct (body w) as [[r|] w1]; by do 2 eexists. Qed.

(** Every handler answers. *)
Lemma handle_total P req w : ∃ resp w', handle P req w = (Ok resp, w').
Proof. destruct req; apply tryCatch_failed. Qed.

(** A handler whose body returns only on accepted statements answers the
    server error of its [catch] branch as soon as a statement is rejected. *)
Lemma tryCatch_clean (body : M Response) msg w resp w' :
  Clean body →
  tryCatch body (failed msg) w = (Ok resp, w') →
  Forall (fun c => threw c = false) (issued w w') ∨ resp = mkResponse 500 (message msg).
Proof.
  intros Hb. unfold tryCatch. destruct (Hb w) as (cs & Hlog & Hcs).
  destruct (body w) as [[r|] w1]; simpl in *; intros [= <- <-].
  - left. rewrite (issued_app _ _ _ Hlog). by apply (Hcs r).
  - by right.
Qed.

Lemma Clean_roleLookups P orgs :
  Clean (promiseAll
           (map (fun org => role ← getUserRole (Str P) (prop org "id");
                            mret (isOwnerOrAdmin role)) orgs)).
Proof.
  apply Clean_promiseAll, Forall_forall. intros m Hm.
  apply list_elem_of_fmap in Hm as (org & -> & _). unfold getUserRole. clean.
Qed.

(** A rejected statement is answered by the server error of the route. *)
Lemma handle_clean P req w resp w' :
  handle P req w = (Ok resp, w') →
  Forall (fun c => threw c = false) (issued w w') ∨ resp = serverError req.
Proof.
  destruct req as [| |b|o|o| |b|o|b|i b|i|o|b|o|b|o|b|o|b];
    apply tryCatch_clean;
    unfold parse, getUser, getUserOrganizations, createOrganization,
      addOrganizationMember, getUserRole, getOrganization, getDashboardMetrics,
      getAllSpecies, createSpecies, getCustomers, getCustomer, createCustomer,
      updateCustomer, deleteCustomer, getProcessingRecords, createProcessingRecord,
      getInventoryItems, createInventoryItem, getInvoices, createInvoice,
      getCutInstructions, createCutInstruction;
    try (clean; fail).
  destruct b as [data|]; [|clean].
  apply Clean_bind; [clean|intros ?]. apply Clean_bind; [clean|intros orgs].
  apply Clean_bind; [apply Clean_roleLookups|intros flags]. clean.
Qed.

Lemma quiet_harmless cs :
  Forall (fun c => ¬ lookupMethod (method c)) cs → Forall Harmless cs.
Proof. intros H. eapply Forall_impl; [exact H|]. by intros c Hc Hm. Qed.

Lemma harmless_after {A} (m : M A) w w1 (cs0 : list Call) :
  Quiet m → log w1 = (log w ++ cs0)%list → Forall Harmless cs0 →
  Forall Harmless (issued w (m w1).2).
Proof.
  intros Hm Hlog H0. destruct (Hm w1) as (cs & Hlog' & Hcs).
  rewrite (issued_app w _ (cs0 ++ cs)).
  - apply Forall_app. split; [done|]. by apply quiet_harmless.
  - by rewrite Hlog', Hlog, app_assoc.
Qed.

Lemma harmless_absurd cs pre c post :
  Forall Harmless cs → cs = (pre ++ c :: post)%list →
  lookupMethod (method c) → threw c = true → False.
Proof.
  intros H -> Hm Ht. apply Forall_app in H as [_ H].
  apply Forall_cons in H as [H _]. specialize (H Hm). congruence.
Qed.

Lemma suffix_after (pre tl pre' post : list Call) c :
  (pre ++ tl = pre' ++ c :: post)%list →
  Forall Harmless pre → ¬ Harmless c →
  ∃ l, tl = (l ++ c :: post)%list.
Proof.
  revert pre'. induction pre as [|x pre IH]; intros pre' Heq Hpre Hc.
  - by exists pre'.
  - apply Forall_cons in Hpre as [Hx Hpre].
    destruct pre' as [|y pre']; simpl in Heq; injection Heq as -> Heq.
    + done.
    + by apply (IH pre').
Qed.

Lemma Closing_one c : Closing [c].
Proof.
  intros l c' post H. destruct l as [|x l]; simpl in H.
  - injection H as _ <-. constructor.
  - injection H as _ H. by destruct l.
Qed.

Lemma Closing_lookups tl :
  Forall (fun c => method c = "getUserRole") tl → Closing tl.
Proof.
  intros H l c post ->. apply Forall_app in H as [_ H].
  by apply Forall_cons in H as [_ H].
Qed.

Lemma stops_at c w :
  db (advance c w) = db w
  ∧ ∃ pre tl, issued w (advance c w) = (pre ++ tl)%list
              ∧ Forall Harmless pre ∧ Closing tl.
Proof.
  split; [done|]. exists [], [c]. rewrite issued_advance.
  split; [done|]. split; [constructor|apply Closing_one].
Qed.

(** The trace of a request: either no lookup was rejected, or the database
    is unchanged and the trace stops at the rejected lookup, but for the role
    lookups that [Promise.all] had started. *)
Lemma handle_trace P req w :
  ∃ resp w',
    handle P req w = (Ok resp, w')
    ∧ (Forall Harmless (issued w w')
       ∨ (db w' = db w
          ∧ ∃ pre tl, issued w w' = (pre ++ tl)%list
                      ∧ Forall Harmless pre ∧ Closing tl)).
Proof.
  destruct (handle_total P req w) as (resp & w' & Hrun).
  exists resp, w'. split; [done|].
  assert (Hquiet : Quiet (handle P req) → Forall Harmless (issued w w')).
  { intros Hq. apply quiet_harmless.
    pose proof (Quiet_issued (handle P req) w Hq) as H. by rewrite Hrun in H. }
  assert (Hguard : ∀ orgId (rest : M Response) msg,
    Quiet rest →
    tryCatch
      (role ← getUserRole (Str P) orgId;
       if negb (truthy role) then mret accessDenied else rest)
      (failed msg) w = (Ok resp, w') →
    Forall Harmless (issued w w')
    ∨ (db w' = db w
       ∧ ∃ pre tl, issued w w' = (pre ++ tl)%list ∧ Forall Harmless pre ∧ Closing tl)).
  { intros orgId rest msg Hq. rewrite readGuard_run. cbn zeta.
    destruct (nextFails w) eqn:Hn.
    - intros [= <- <-]. right. apply stops_at.
    - destruct (truthy _).
      + intros H. left.
        pose proof (harmless_after (tryCatch rest (failed msg)) w
                      (advance (roleCall (Str P) orgId false) w)
                      [roleCall (Str P) orgId false]) as Hh.
        rewrite H in Hh. apply Hh; [by apply Quiet_tryCatch, Quiet_failed | done |].
        by repeat constructor.
      + intros [= <- <-]. left. rewrite issued_advance. by repeat constructor. }
  assert (Hcreate : ∀ data (create : Obj → M Obj) msg,
    Quiet (create data) →
    createFor P (Some data) create msg w = (Ok resp, w') →
    Forall Harmless (issued w w')
    ∨ (db w' = db w
       ∧ ∃ pre tl, issued w w' = (pre ++ tl)%list ∧ Forall Harmless pre ∧ Closing tl)).
  { intros data create msg Hq. rewrite createFor_run. cbn zeta.
    destruct (nextFails w) eqn:Hn.
    - intros [= <- <-]. right. apply stops_at.
    - destruct (cannotWrite _).
      + intros [= <- <-]. left. rewrite issued_advance. by repeat constructor.
      + intros H. left.
        pose proof (harmless_after (create data) w
                      (advance (roleCall (Str P) (prop data "organizationId") false) w)
                      [roleCall (Str P) (prop data "organizationId") false] Hq) as Hh.
        destruct (create data _) as [[row|] w2]; injection H as <- <-;
          apply Hh; try done; by repeat constructor. }
  assert (Hparse : ∀ create msg,
    Forall Harmless (issued w (createFor P None create msg w).2)).
  { intros create msg. apply quiet_harmless, Quiet_issued.
    unfold createFor, parse. quiet. }
  destruct req as [| |b|o|o| |b|o|b|i b|i|o|b|o|b|o|b|o|b].
  - left. apply Hquiet, Quiet_getAuthUser.
  - (* the organizations of the principal *)
    unfold handle, getOrganizations, tryCatch, getUserOrganizations in Hrun.
    rewrite bind_run, select_run in Hrun.
    cbv [failed mret M_ret] in Hrun.
    destruct (nextFails w) eqn:Hn; injection Hrun as <- <-.
    + right. apply stops_at.
    + left. rewrite issued_advance. by repeat constructor.
  - left. apply Hquiet, Quiet_postOrganizations.
  - apply (Hguard (Str o) _ _ (Quiet_rest P (GetOrganization o)) Hrun).
  - apply (Hguard (Str o) _ _ (Quiet_rest P (GetDashboard o)) Hrun).
  - left. apply Hquiet, Quiet_getSpeciesList.
  - (* species creation *)
    destruct b as [data|].
    2: { left. apply Hquiet. unfold handle, postSpecies, parse. quiet. }
    unfold handle in Hrun. rewrite postSpecies_run in Hrun. cbn zeta in Hrun.
    set (orgs := joinUserOrganizations (db w) (Str P)) in *.
    destruct (nextFails w) eqn:Hn.
    { injection Hrun as <- <-. right. apply stops_at. }
    set (c0 := mkCall "getUserOrganizations" [Str P] None false) in *.
    destruct (existsb id (take (length orgs) (tail (faults w)))) eqn:Hf.
    { injection Hrun as <- <-. right. split; [done|].
      exists [c0], (roleCalls (Str P) orgs (tail (faults w))).
      rewrite issued_logged. split; [done|]. split; [by repeat constructor|].
      apply Closing_lookups, roleCalls_methods. }
    assert (Hh : Forall Harmless (c0 :: roleCalls (Str P) orgs (tail (faults w)))).
    { constructor; [done|].
      eapply Forall_impl; [apply (roleCalls_threw _ _ _ Hf)|]. by intros c Hc _. }
    left. destruct (existsb _ orgs).
    + pose proof (harmless_after (createSpecies data) w
                    (logged (c0 :: roleCalls (Str P) orgs (tail (faults w))) w)
                    (c0 :: roleCalls (Str P) orgs (tail (faults w)))) as Ha.
      destruct (createSpecies data _) as [[created|] w3]; injection Hrun as <- <-;
        apply Ha; try done; unfold createSpecies; quiet.
    + injection Hrun as <- <-. by rewrite issued_logged.
  - apply (Hguard (Str o) _ _ (Quiet_rest P (GetCustomers o)) Hrun).
  - destruct b as [data|].
    + eapply (Hcreate data createCustomer); [unfold createCustomer; quiet | exact Hrun].
    + left. specialize (Hparse createCustomer "Failed to create customer").
      unfold handle, postCustomers in Hrun. by rewrite Hrun in Hparse.
  - (* update of a customer *)
    destruct b as [data|].
    2: { left. apply Hquiet. unfold handle, putCustomer, parse. quiet. }
    unfold handle in Hrun. rewrite putCustomer_run in Hrun. cbn zeta in Hrun.
    destruct (nextFails w) eqn:Hn.
    { injection Hrun as <- <-. right. apply stops_at. }
    destruct (selectCustomer (db w) (Str i)) as [existing|].
    2: { injection Hrun as <- <-. left. rewrite issued_advance. by repeat constructor. }
    set (c1 := customerCall (Str i) false) in *.
    destruct (nextFails (advance c1 w)) eqn:Hn1.
    { injection Hrun as <- <-. right. split; [done|].
      exists [c1], [roleCall (Str P) (prop existing "organizationId") true].
      split; [apply issued_app; cbn; by rewrite <- app_assoc|].
      split; [by repeat constructor|apply Closing_one]. }
    set (c2 := roleCall (Str P) (prop existing "organizationId") false) in *.
    assert (Hh : Forall Harmless [c1; c2]) by (by repeat constructor).
    assert (Hlog : log (advance c2 (advance c1 w)) = (log w ++ [c1; c2])%list).
    { cbn. by rewrite <- app_assoc. }
    left. destruct (cannotWrite _).
    + injection Hrun as <- <-. by rewrite (issued_app _ _ _ Hlog).
    + pose proof (harmless_after (updateCustomer (Str i) data) w _ _
                    (Quiet_updateCustomer _ _) Hlog Hh) as Ha.
      by destruct (updateCustomer _ _ _) as [[customer|] w3]; injection Hrun as <- <-.
  - (* deletion of a customer *)
    unfold handle in Hrun. rewrite deleteCustomerById_run in Hrun. cbn zeta in Hrun.
    destruct (nextFails w) eqn:Hn.
    { injection Hrun as <- <-. right. apply stops_at. }
    destruct (selectCustomer (db w) (Str i)) as [existing|].
    2: { injection Hrun as <- <-. left. rewrite issued_advance. by repeat constructor. }
    set (c1 := customerCall (Str i) false) in *.
    destruct (nextFails (advance c1 w)) eqn:Hn1.
    { injection Hrun as <- <-. right. split; [done|].
      exists [c1], [roleCall (Str P) (prop existing "organizationId") true].
      split; [apply issued_app; cbn; by rewrite <- app_assoc|].
      split; [by repeat constructor|apply Closing_one]. }
    set (c2 := roleCall (Str P) (prop existing "organizationId") false) in *.
    assert (Hh : Forall Harmless [c1; c2]) by (by repeat constructor).
    assert (Hlog : log (advance c2 (advance c1 w)) = (log w ++ [c1; c2])%list).
    { cbn. by rewrite <- app_assoc. }
    left. destruct (cannotWrite _).
    + injection Hrun as <- <-. by rewrite (issued_app _ _ _ Hlog).
    + pose proof (harmless_after (deleteCustomer (Str i)) w _ _
                    (Quiet_deleteCustomer _) Hlog Hh) as Ha.
      by destruct (deleteCustomer _ _) as [[[]|] w3]; injection Hrun as <- <-.
  - apply (Hguard (Str o) _ _ (Quiet_rest P (GetProcessingRecords o)) Hrun).
  - destruct b as [data|].
    + eapply (Hcreate data createProcessingRecord);
        [unfold createProcessingRecord; quiet | exact Hrun].
    + left. specialize (Hparse createProcessingRecord "Failed to create processing record").
      unfold handle in Hrun. by rewrite Hrun in Hparse.
  - apply (Hguard (Str o) _ _ (Quiet_rest P (GetInventory o)) Hrun).
  - destruct b as [data|].
    + eapply (Hcreate data createInventoryItem);
        [unfold createInventoryItem; quiet | exact Hrun].
    + left. specialize (Hparse createInventoryItem "Failed to create inventory item").
      unfold handle in Hrun. by rewrite Hrun in Hparse.
  - apply (Hguard (Str o) _ _ (Quiet_rest P (GetInvoices o)) Hrun).
  - destruct b as [data|].
    + eapply (Hcreate data createInvoice); [unfold createInvoice; quiet | exact Hrun].
    + left. specialize (Hparse createInvoice "Failed to create invoice").
      unfold handle in Hrun. by rewrite Hrun in Hparse.
  - apply (Hguard (Str o) _ _ (Quiet_rest P (GetCutInstructions o)) Hrun).
  - destruct b as [data|].
    + eapply (Hcreate data createCutInstruction);
        [unfold createCutInstruction; quiet | exact Hrun].
    + left. specialize (Hparse createCutInstruction "Failed to create cut instruction").
      unfold handle in Hrun. by rewrite Hrun in Hparse.
Qed.

End FailClosed.

(** C5.  Failing closed.  Every request is answered.  Whenever the store
    rejects a statement of the run, the answer is the 500 response of the
    [catch] branch of the route, never an acceptance.  When the rejected
    statement is a lookup on which the decision rests (the role lookup, the
    listing of the organizations of the principal, the fetch of the
    customer), the database is moreover unchanged, and nothing follows the
    rejected lookup in the trace but the role lookups that [Promise.all] had
    already started on species creation: the protected read or write is
    never issued. *)
Theorem store_failures_fail_closed (w : World) (P : string) (req : Request) :
  ∃ resp w',
    Routes.handle P req w = (Ok resp, w')
    ∧ (∀ c, In c (issued w w') → threw c = true →
            resp = mkResponse 500 (message (failureMessage req)))
    ∧ (∀ pre c post,
         issued w w' = (pre ++ c :: post)%list →
         lookupMethod (method c) → threw c = true →
         db w' = db w
         ∧ Forall (fun c' => method c' = "getUserRole") post).
Proof.
  destruct (handle_trace P req w) as (resp & w' & Hrun & Htrace).
  exists resp, w'. split; [done|]. split.
  - intros c Hin Ht.
    destruct (handle_clean P req w resp w' Hrun) as [Hclean|Hresp]; [|done].
    rewrite Forall_forall in Hclean. apply list_elem_of_In in Hin.
    specialize (Hclean c Hin). congruence.
  - intros pre c post Hlog Hm Ht.
    destruct Htrace as [Hh | (Hdb & pre0 & tl & Hiss & Hpre & Htl)].
    + destruct (harmless_absurd _ _ _ _ Hh Hlog Hm Ht).
    + split; [done|]. rewrite Hiss in Hlog.
      destruct (suffix_after _ _ _ _ _ Hlog Hpre) as (l & Hl).
      { intros Hc. specialize (Hc Hm). congruence. }
      by apply (Htl l c post).
Qed.

Lemma store_failures_fail_closed_witness :
  ∃ resp w',
    Routes.handle "ann" (GetDashboard "o1") (Sample.failing [true]) = (Ok resp, w')
    ∧ resp = mkResponse 500 (message "Failed to fetch dashboard metrics")
    ∧ db w' = db (Sample.failing [true]).
Proof.
  destruct (store_failures_fail_closed (Sample.failing [true]) "ann" (GetDashboard "o1"))
    as (resp & w' & Hrun & Hfailed & Hclosed).
  exists resp, w'. split; [done|].
  assert (Hlog : issued (Sample.failing [true]) w' =
                 ([] ++ roleCall (Str "ann") (Str "o1") true :: [])%list).
  { unfold Routes.handle, Routes.getDashboard in Hrun.
    rewrite readGuard_run in Hrun. injection Hrun as _ <-. reflexivity. }
  split.
  - apply (Hfailed (roleCall (Str "ann") (Str "o1") true)); [|done].
    rewrite Hlog. by left.
  - apply (Hclosed _ _ _ Hlog); [by left|done].
Defined.

(** ** Identifiers *)






Section Identifiers.
Import Routes Security.





End Identifiers.



(** * Further properties of the storage layer, the routes and the middleware *)

(** ** Rows and queries *)

Section Queries.

Lemma columns_NoDup t : NoDup (map fst (columns t)).
Proof. destruct t; apply (bool_decide_unpack _); by vm_compute. Qed.

Lemma stored_lookup (g : string * Default → JsVal) l k d :
  NoDup (map fst l) → In (k, d) l →
  (list_to_map (map (fun cd : string * Default => (cd.1, g cd)) l) : Obj) !! k
  = Some (g (k, d)).
Proof.
  induction l as [|[k' d'] l IH]; simpl; [done|].
  intros Hnd [Heq|Hin].
  - injection Heq as -> ->. by rewrite lookup_insert_eq.
  - apply NoDup_cons in Hnd as [Hk' Hnd].
    rewrite lookup_insert_ne; [by apply IH|].
    intros ->. apply Hk'. apply list_elem_of_In, in_map_iff. by exists (k, d).
Qed.

(** What [INSERT] stores in a column: the value given, or the default. *)
Lemma newRow_prop t values w k d :
  In (k, d) (columns t) →
  prop (newRow t values w) k =
  match values !! k with
  | Some v => if decide (v = Undefined) then defaultValue w d else v
  | None => defaultValue w d
  end.
Proof.
  intros Hin. unfold prop, newRow.
  by rewrite (stored_lookup _ _ _ _ (columns_NoDup t) Hin).
Qed.

Lemma Sql_eq_decide column v r :
  v ≠ Undefined → v ≠ Null → Sql.eq column v r = bool_decide (prop r column = v).
Proof.
  intros Hu Hn. destruct (Sql.eq column v r) eqn:He.
  - apply Sql_eq_true in He; [|done..]. by rewrite bool_decide_eq_true_2.
  - symmetry. apply bool_decide_eq_false_2. intros Hp.
    apply (Sql_eq_true column v r Hu Hn) in Hp. congruence.
Qed.

Lemma Sql_eq_null column v r :
  v = Undefined ∨ v = Null → Sql.eq column v r = false.
Proof. unfold Sql.eq. intros [-> | ->]; by destruct (prop r column). Qed.

Lemma where_In (f : Obj → bool) rows r :
  In r (Sql.where_ f rows) ↔ In r rows ∧ f r = true.
Proof. apply filter_In. Qed.

Lemma where_app (f : Obj → bool) l1 l2 :
  Sql.where_ f (l1 ++ l2) = (Sql.where_ f l1 ++ Sql.where_ f l2)%list.
Proof. apply List.filter_app. Qed.

Lemma place_perm before r rows : Sql.place before r rows ≡ₚ r :: rows.
Proof.
  induction rows as [|r' rows IH]; simpl; [done|].
  destruct (before r r'); [done|]. rewrite IH. apply Permutation_swap.
Qed.

Lemma orderBy_perm before rows : Sql.orderBy before rows ≡ₚ rows.
Proof.
  unfold Sql.orderBy. induction rows as [|r rows IH]; simpl; [done|].
  by rewrite place_perm, IH.
Qed.

Lemma orderBy_length before rows : length (Sql.orderBy before rows) = length rows.
Proof. apply Permutation_length, orderBy_perm. Qed.

End Queries.

Section Sorting.

Variable before : Obj → Obj → bool.
Variable P : Obj → Prop.
Hypothesis total : ∀ a b, P a → P b → before a b = false → before b a = true.
Hypothesis trans :
  ∀ a b c, P a → P b → P c → before a b = true → before b c = true → before a c = true.

Lemma place_sorted r rows :
  P r → Forall P rows →
  StronglySorted (fun a b => before a b = true) rows →
  StronglySorted (fun a b => before a b = true) (Sql.place before r rows).
Proof.
  intros Hr. induction rows as [|r' rows IH]; simpl; intros HP Hs.
  - by repeat constructor.
  - apply Forall_cons in HP as [Hr' HP].
    apply StronglySorted_inv in Hs as [Hs Hall].
    destruct (before r r') eqn:Hb.
    + apply SSorted_cons; [by apply SSorted_cons|].
      apply Forall_cons. split; [done|].
      rewrite Forall_forall in *. intros x Hx.
      apply (trans r r' x); auto.
    + apply SSorted_cons; [by apply IH|].
      rewrite Forall_forall in *. intros x Hx.
      apply list_elem_of_In, place_In in Hx as [-> | Hx]; [by apply total|].
      by apply Hall, list_elem_of_In.
Qed.

Lemma orderBy_sorted rows :
  Forall P rows → StronglySorted (fun a b => before a b = true) (Sql.orderBy before rows).
Proof.
  unfold Sql.orderBy. induction rows as [|r rows IH]; simpl; intros HP.
  - constructor.
  - apply Forall_cons in HP as [Hr HP]. apply place_sorted; [done| |by apply IH].
    rewrite Forall_forall in *. intros x Hx. apply HP.
    apply list_elem_of_In. apply list_elem_of_In in Hx. by apply orderBy_In in Hx.
Qed.

End Sorting.

Section Timestamps.

Lemma desc_total c a b :
  isTimestamp (prop a c) → isTimestamp (prop b c) →
  Sql.desc c a b = false → Sql.desc c b a = true.
Proof.
  unfold Sql.desc, Sql.le.
  destruct (prop a c), (prop b c); simpl; try done.
  intros _ _ H. apply Z.leb_le. apply Z.leb_gt in H. lia.
Qed.

Lemma desc_trans c a b x :
  isTimestamp (prop a c) → isTimestamp (prop b c) → isTimestamp (prop x c) →
  Sql.desc c a b = true → Sql.desc c b x = true → Sql.desc c a x = true.
Proof.
  unfold Sql.desc, Sql.le.
  destruct (prop a c), (prop b c), (prop x c); simpl; try done.
  intros _ _ _ H1 H2. apply Z.leb_le. apply Z.leb_le in H1, H2. lia.
Qed.

End Timestamps.

(** X1.  [getCustomers] lists the active customers of the organization,
    each row of the table once, and the newest first: the rows returned are
    a rearrangement of the rows of [customers] that the store's comparison
    finds in the organization asked for and active, and no row comes before
    a row that was created later ([NULL] creation times come first, as in
    [ORDER BY created_at DESC]).  The database is left as it was. *)
Theorem customers_are_listed_newest_first
    (w : World) (orgId : JsVal) (rows : list Obj) (w' : World) :
  (∀ r, In r (db w customers) → isTimestamp (prop r "createdAt")) →
  getCustomers orgId w = (Ok rows, w') →
  rows ≡ₚ List.filter
            (fun r => Sql.eq "organizationId" orgId r && Sql.eq "isActive" (Bool true) r)
            (db w customers)
  ∧ StronglySorted newerOrSame rows
  ∧ db w' = db w.
Proof.
  intros Hts Hrun. unfold getCustomers in Hrun. rewrite select_run in Hrun.
  destruct (nextFails w); [done|]. injection Hrun as <- <-.
  split; [|split; [|done]].
  - unfold selectCustomers. rewrite orderBy_perm. unfold Sql.where_.
    erewrite filter_ext; [done|]. intros r. unfold Sql.and. simpl.
    by rewrite andb_true_r.
  - unfold selectCustomers, newerOrSame.
    apply (orderBy_sorted _ (fun r => isTimestamp (prop r "createdAt"))).
    + intros a b. apply desc_total.
    + intros a b c. apply desc_trans.
    + rewrite Forall_forall. intros r Hr. apply Hts.
      apply list_elem_of_In in Hr. by apply where_In in Hr as [Hr _].
Qed.

Lemma customers_are_listed_newest_first_witness :
  ∃ rows w',
    getCustomers (Str "o1") Sample.world = (Ok rows, w')
    ∧ rows ≡ₚ List.filter
                (fun r => Sql.eq "organizationId" (Str "o1") r
                          && Sql.eq "isActive" (Bool true) r)
                (db Sample.world customers)
    ∧ StronglySorted newerOrSame rows
    ∧ db w' = db Sample.world.
Proof.
  eexists _, _. split; [reflexivity|].
  apply (customers_are_listed_newest_first Sample.world (Str "o1")); [|reflexivity].
  intros r [<- | [<- | []]]; exact I.
Defined.

(** ** Listings *)

Section Listings.
Import Routes.

Lemma fetchAll_run res orgId w :
  fetchAll res orgId w =
  (if nextFails w then Throw else Ok (listingOf res (db w) orgId),
   advance (mkCall (listingMethod res) [orgId] None (nextFails w)) w).
Proof. destruct res; apply select_run. Qed.

Lemma listRequest_handle P res o :
  handle P (listRequest res o) =
  listFor P o (fetchAll res) (failureMessage (listRequest res o)).
Proof. by destruct res. Qed.

Lemma listFor_run P o res failure w :
  listFor P o (fetchAll res) failure w =
  let w1 := advance (roleCall (Str P) (Str o) (nextFails w)) w in
  if nextFails w then (Ok (mkResponse 500 (message failure)), w1)
  else if truthy (selectUserRole (db w) (Str P) (Str o))
       then (Ok (if nextFails w1 then mkResponse 500 (message failure)
                 else resJson (JArray (listingOf res (db w) (Str o)))),
             advance (mkCall (listingMethod res) [Str o] None (nextFails w1)) w1)
       else (Ok accessDenied, w1).
Proof.
  unfold listFor. rewrite readGuard_run. destruct (nextFails w); [done|]. cbn zeta.
  destruct (truthy _); [|done]. unfold tryCatch. rewrite bind_run, fetchAll_run.
  by destruct (nextFails (advance _ w)).
Qed.

Lemma listingOf_In res d orgId r :
  In r (listingOf res d orgId) →
  In r (d (tableOf res)) ∧ Sql.eq "organizationId" orgId r = true.
Proof.
  destruct res; unfold listingOf, selectCustomers;
    rewrite orderBy_In, where_In; unfold Sql.and; simpl;
    intros [Hin H]; try apply andb_true_iff in H as [H _]; done.
Qed.

End Listings.

(** X2.  A listing answered 200 shows rows of the organization of the route
    and of no other, and only to a principal whose role in that
    organization resolves: for each of the five listing routes, the rows of
    the answer are rows of the table of the resource whose [organizationId]
    the store's comparison finds equal to the route parameter, and the
    database is left as it was. *)
Theorem listings_show_only_the_organization_asked_for
    (w : World) (P o : string) (res : Resource) (resp : Response) (w' : World) :
  Routes.handle P (listRequest res o) w = (Ok resp, w') →
  status resp = 200 →
  truthy (selectUserRole (db w) (Str P) (Str o)) = true
  ∧ db w' = db w
  ∧ ∃ rows, json resp = JArray rows
            ∧ ∀ r, In r rows →
                   In r (db w (tableOf res)) ∧ Sql.eq "organizationId" (Str o) r = true.
Proof.
  rewrite listRequest_handle, listFor_run. cbn zeta.
  destruct (nextFails w); [by intros [= <- <-]|].
  destruct (truthy _); [|by intros [= <- <-]].
  destruct (nextFails _); intros [= <- <-]; [done|]. intros _.
  split; [done|]. split; [done|]. eexists. split; [done|].
  intros r Hr. by apply listingOf_In in Hr.
Qed.

Lemma listings_show_only_the_organization_asked_for_witness :
  ∃ resp w',
    Routes.handle "vic" (listRequest Invoices "o1") Fixtures.world = (Ok resp, w')
    ∧ truthy (selectUserRole (db Fixtures.world) (Str "vic") (Str "o1")) = true
    ∧ db w' = db Fixtures.world
    ∧ ∃ rows, json resp = JArray rows
              ∧ ∀ r, In r rows →
                     In r (db Fixtures.world (tableOf Invoices))
                     ∧ Sql.eq "organizationId" (Str "o1") r = true.
Proof.
  eexists _, _. split; [reflexivity|].
  apply (listings_show_only_the_organization_asked_for
           Fixtures.world "vic" "o1" Invoices); reflexivity.
Defined.

(** ** What a request leaves untouched *)

Section Untouched.
Import Routes.

Lemma ReadOnly_ret {A} (a : A) : ReadOnly (mret a).
Proof. done. Qed.

Lemma ReadOnly_throw {A} : ReadOnly (@throw A).
Proof. done. Qed.

Lemma ReadOnly_now : ReadOnly (fun w => (Ok (Date (now w)), w)).
Proof. done. Qed.

Lemma ReadOnly_select {A} m a (q : Db → A) : ReadOnly (select m a q).
Proof. intros w. rewrite select_run. done. Qed.

Lemma ReadOnly_bind {A B} (m : M A) (f : A → M B) :
  ReadOnly m → (∀ a, ReadOnly (f a)) → ReadOnly (m ≫= f).
Proof.
  intros Hm Hf w. rewrite bind_run. specialize (Hm w).
  destruct (m w) as [[a|] w1]; simpl in *; [|done]. by rewrite Hf.
Qed.

Lemma ReadOnly_tryCatch {A} (body handler : M A) :
  ReadOnly body → ReadOnly handler → ReadOnly (tryCatch body handler).
Proof.
  intros Hb Hh w. unfold tryCatch. specialize (Hb w).
  destruct (body w) as [[a|] w1]; simpl in *; [done|]. by rewrite Hh.
Qed.

Lemma ReadOnly_promiseAll {A} (ms : list (M A)) :
  Forall ReadOnly ms → ReadOnly (promiseAll ms).
Proof.
  induction 1 as [|m ms Hm _ IH]; intros w; [done|]. simpl.
  specialize (Hm w). destruct (m w) as [r w1]. specialize (IH w1).
  destruct (promiseAll ms w1) as [rs w2]. simpl in *. congruence.
Qed.

Lemma ReadOnly_failed msg : ReadOnly (failed msg).
Proof. done. Qed.

Lemma Atomic_readOnly {A} (m : M A) : ReadOnly m → Atomic m.
Proof. intros H w w' Hrun. specialize (H w). by rewrite Hrun in H. Qed.

Lemma Atomic_statement {A} m a p (run : World → A * World) : Atomic (statement m a p run).
Proof.
  intros w w'. rewrite statement_run. destruct (nextFails w).
  - by intros [= <-].
  - by destruct (run _).
Qed.

Lemma Atomic_bind {A B} (m : M A) (f : A → M B) :
  ReadOnly m → (∀ a, Atomic (f a)) → Atomic (m ≫= f).
Proof.
  intros Hm Hf w w'. rewrite bind_run. specialize (Hm w).
  destruct (m w) as [[a|] w1]; simpl in *.
  - intros Hrun. by rewrite (Hf _ _ _ Hrun).
  - by intros [= <-].
Qed.

Lemma Atomic_bind_ret {A B} (m : M A) (g : A → B) :
  Atomic m → Atomic (m ≫= fun a => mret (g a)).
Proof.
  intros Hm w w'. rewrite bind_run. specialize (Hm w).
  destruct (m w) as [[a|] w1]; [done|]. intros [= <-]. by apply Hm.
Qed.

Lemma Atomic_throw_bind {A B} (f : A → M B) : Atomic (throw ≫= f).
Proof. by intros w w' [= <-]. Qed.

Lemma Careful_throw_bind {A} (f : A → M Response) : Careful (throw ≫= f).
Proof. by intros w r w'. Qed.

Lemma Careful_ret r : Careful (mret r).
Proof. by intros w r' w' [= <- <-]. Qed.

Lemma Careful_bind {A} (m : M A) (f : A → M Response) :
  ReadOnly m → (∀ a, Careful (f a)) → Careful (m ≫= f).
Proof.
  intros Hm Hf w r w'. rewrite bind_run. specialize (Hm w).
  destruct (m w) as [[a|] w1]; simpl in *; [|done].
  intros Hrun Hs. by rewrite (Hf _ _ _ _ Hrun Hs).
Qed.

Lemma Careful_bind_ok {A} (m : M A) (g : A → Response) :
  (∀ a, status (g a) = 200) → Careful (m ≫= fun a => mret (g a)).
Proof.
  intros Hg w r w'. rewrite bind_run.
  destruct (m w) as [[a|] w1]; [|done]. intros [= <- <-] Hs. by destruct (Hs (Hg a)).
Qed.

Lemma Careful_tryCatch (body : M Response) msg :
  Atomic body → Careful body → Careful (tryCatch body (failed msg)).
Proof.
  intros Ha Hc w r w'. unfold tryCatch.
  destruct (body w) as [[a|] w1] eqn:Hrun.
  - intros [= <- <-]. by apply (Hc w).
  - intros [= <- <-] _. by apply Ha.
Qed.

End Untouched.

Ltac readOnly :=
  repeat first
    [ apply ReadOnly_ret | apply ReadOnly_throw | apply ReadOnly_now
    | apply ReadOnly_failed | apply ReadOnly_select
    | apply ReadOnly_tryCatch
    | apply ReadOnly_bind; [|intros ?]
    | match goal with
      | |- ReadOnly (match ?x with _ => _ end) => destruct x
      end ].

Ltac atomic :=
  repeat first
    [ apply Atomic_statement
    | apply Atomic_throw_bind
    | apply Atomic_bind_ret
    | apply Atomic_bind; [readOnly; fail|intros ?]
    | match goal with
      | |- Atomic (match ?x with _ => _ end) => destruct x
      end
    | apply Atomic_readOnly; readOnly; fail ].

Ltac careful :=
  repeat first
    [ apply Careful_ret
    | apply Careful_throw_bind
    | apply Careful_bind_ok; intros ?; reflexivity
    | apply Careful_bind; [readOnly; fail|intros ?]
    | match goal with
      | |- Careful (match ?x with _ => _ end) => destruct x
      end ].

Section Refusals.
Import Routes.

Lemma ReadOnly_roleLookups P orgs :
  ReadOnly (promiseAll
              (map (fun org : Obj =>
                      role ← getUserRole (Str P) (prop org "id");
                      mret (isOwnerOrAdmin role)) orgs)).
Proof.
  apply ReadOnly_promiseAll, Forall_forall. intros m Hm.
  apply list_elem_of_In, in_map_iff in Hm as (org & <- & _).
  unfold getUserRole. readOnly.
Qed.

Lemma handle_readOnly P req : isGet req = true → ReadOnly (handle P req).
Proof.
  destruct req; try discriminate; intros _;
    unfold handle, getAuthUser, getOrganizations, getOrganizationById, getDashboard,
      getSpeciesList, getCustomersOf, listFor, getUser, getUserOrganizations,
      getUserRole, getOrganization, getDashboardMetrics, getAllSpecies, getCustomers,
      getProcessingRecords, getInventoryItems, getInvoices, getCutInstructions;
    readOnly.
Qed.

Lemma Careful_readOnly (m : M Response) : ReadOnly m → Careful m.
Proof. intros H w r w' Hrun _. specialize (H w). by rewrite Hrun in H. Qed.

Lemma handle_careful P req :
  (∀ body, req ≠ PostOrganizations body) → Careful (handle P req).
Proof.
  intros Hreq.
  destruct (isGet req) eqn:Hget; [by apply Careful_readOnly, handle_readOnly|].
  destruct req as [| |b|o|o| |b|o|b|i b|i|o|b|o|b|o|b|o|b]; try discriminate;
    [by destruct (Hreq b)|..];
    apply Careful_tryCatch;
    unfold parse, getCustomer, getUserRole, createCustomer, updateCustomer,
      deleteCustomer, createProcessingRecord, createInventoryItem, createInvoice,
      createCutInstruction, createSpecies, getUserOrganizations, insertInto,
      updateWhere;
    try (atomic; fail); try (careful; fail).
  - destruct b as [data|]; [|atomic].
    apply Atomic_bind; [readOnly|intros ?]. apply Atomic_bind; [readOnly|intros orgs].
    apply Atomic_bind; [apply ReadOnly_roleLookups|intros flags]. atomic.
  - destruct b as [data|]; [|careful].
    apply Careful_bind; [readOnly|intros ?]. apply Careful_bind; [readOnly|intros orgs].
    apply Careful_bind; [apply ReadOnly_roleLookups|intros flags]. careful.
Qed.

End Refusals.

(** X3.  The [GET] routes never change the database, whatever the store
    answers to their statements and whatever they answer themselves. *)
Theorem reading_requests_change_nothing (w : World) (P : string) (req : Request) :
  isGet req = true → db (Routes.handle P req w).2 = db w.
Proof. intros Hget. by apply handle_readOnly. Qed.

Lemma reading_requests_change_nothing_witness :
  db (Routes.handle "ann" (GetDashboard "o1") (Sample.failing [false; false; true])).2
  = db (Sample.failing [false; false; true]).
Proof.
  apply (reading_requests_change_nothing (Sample.failing [false; false; true]) "ann"
           (GetDashboard "o1")).
  reflexivity.
Defined.

(** X4.  A request that is not answered 200 has changed nothing: whenever
    a handler other than that of [POST /api/organizations] answers 403, 404
    or 500, under any answers of the store, the database is as it was
    before the request. *)
Theorem requests_not_answered_200_change_nothing
    (w : World) (P : string) (req : Request) (resp : Response) (w' : World) :
  (∀ body, req ≠ PostOrganizations body) →
  Routes.handle P req w = (Ok resp, w') →
  status resp ≠ 200 →
  db w' = db w.
Proof. intros Hreq Hrun Hs. by apply (handle_careful P req Hreq w resp w'). Qed.

Lemma requests_not_answered_200_change_nothing_witness :
  ∃ resp w',
    Routes.handle "ed" (PutCustomer "c1" (Some (Sample.newCustomer (Str "o2"))))
      (Sample.failing [false; false; true]) = (Ok resp, w')
    ∧ status resp = 500
    ∧ db w' = db (Sample.failing [false; false; true]).
Proof.
  eexists _, _. split; [reflexivity|]. split; [reflexivity|].
  eapply (requests_not_answered_200_change_nothing
            (Sample.failing [false; false; true]) "ed"
            (PutCustomer "c1" (Some (Sample.newCustomer (Str "o2")))));
    [done|reflexivity|done].
Defined.

(** ** Creating an organization *)

Section Organizations.
Import Routes.

(** The member row [POST /api/organizations] asks to store. *)
Lemma postOrganizations_run P data w :
  postOrganizations P (Some data) w =
  let failure := mkResponse 500 (message "Failed to create organization") in
  let w1 := advance (mkCall "createOrganization" [] (Some data) (nextFails w)) w in
  if nextFails w then (Ok failure, w1)
  else
    let organization := newRow organizations data w in
    let w2 := stored organizations organization w1 in
    let member : Obj :=
      <["organizationId" := prop organization "id"]>
        (<["userId" := Str P]>
           (<["role" := Str "owner"]> {[ "joinedAt" := Date (now w) ]})) in
    let w3 := advance (mkCall "addOrganizationMember" [] (Some member) (nextFails w2)) w2 in
    if nextFails w2 then (Ok failure, w3)
    else (Ok (resJson (JObject organization)),
          stored organizationMembers (newRow organizationMembers member w3) w3).
Proof.
  unfold postOrganizations, tryCatch, parse. rewrite bind_run. cbn [mret M_ret].
  unfold createOrganization. rewrite bind_run, insertInto_run.
  destruct (nextFails w); [done|]. cbn beta iota zeta. rewrite bind_run.
  cbn beta iota zeta.
  unfold addOrganizationMember. rewrite bind_run, insertInto_run.
  by destruct (nextFails (stored _ _ _)).
Qed.

Lemma newRow_id_defined t data w :
  In ("id", DefaultRandom) (columns t) → prop (newRow t data w) "id" ≠ Undefined.
Proof.
  intros Hin. rewrite (newRow_prop _ _ _ _ _ Hin).
  destruct (data !! "id") as [v|]; [|done]. by destruct (decide (v = Undefined)).
Qed.

Lemma Sql_eq_sound column v r : Sql.eq column v r = true → prop r column = v.
Proof.
  unfold Sql.eq. destruct (prop r column), v; try done; by intros ?%bool_decide_eq_true.
Qed.

Lemma Sql_eq_other column v r : prop r column ≠ v → Sql.eq column v r = false.
Proof.
  intros Hne. destruct (Sql.eq column v r) eqn:He; [|done].
  by apply Sql_eq_sound in He.
Qed.

(** The row stored for the membership of the creator. *)
Lemma owner_row P orgId joined w :
  orgId ≠ Undefined →
  let row := newRow organizationMembers
               (<["organizationId" := orgId]>
                  (<["userId" := Str P]>
                     (<["role" := Str "owner"]> {[ "joinedAt" := joined ]}))) w in
  prop row "organizationId" = orgId ∧ prop row "userId" = Str P
  ∧ prop row "role" = Str "owner" ∧ prop row "isActive" = Bool true.
Proof.
  intros Hdef row. unfold row.
  rewrite (newRow_prop _ _ _ "organizationId" NoDefault) by (simpl; tauto).
  rewrite (newRow_prop _ _ _ "userId" NoDefault) by (simpl; tauto).
  rewrite (newRow_prop _ _ _ "role" (DefaultTo (Str "viewer"))) by (simpl; tauto).
  rewrite (newRow_prop _ _ _ "isActive" (DefaultTo (Bool true))) by (simpl; tauto).
  rewrite lookup_insert_eq.
  rewrite (lookup_insert_ne _ "organizationId" "userId") by done.
  rewrite lookup_insert_eq.
  rewrite (lookup_insert_ne _ "organizationId" "role") by done.
  rewrite (lookup_insert_ne _ "userId" "role") by done.
  rewrite lookup_insert_eq.
  rewrite (lookup_insert_ne _ "organizationId" "isActive") by done.
  rewrite (lookup_insert_ne _ "userId" "isActive") by done.
  rewrite (lookup_insert_ne _ "role" "isActive") by done.
  rewrite lookup_singleton_ne by done.
  rewrite decide_False by done. done.
Qed.

(** The role lookup after one membership row was added to a table that
    names the organization nowhere. *)
Lemma role_of_added_member d d' row u orgId :
  d' organizationMembers = (d organizationMembers ++ [row])%list →
  (∀ m, In m (d organizationMembers) → prop m "organizationId" ≠ orgId) →
  activeMemberships d' u orgId = Sql.where_ (activeMembership u orgId) [row].
Proof.
  intros Hd Hfresh. unfold activeMemberships. rewrite Hd, where_app.
  replace (Sql.where_ (activeMembership u orgId) (d organizationMembers)) with (@nil Obj);
    [done|].
  symmetry. apply where_nil. intros m Hm. unfold activeMembership, Sql.and. simpl.
  rewrite (Sql_eq_other "organizationId") by by apply Hfresh.
  by rewrite andb_false_r.
Qed.

Lemma noFaults_stored t r w : noFaults w → noFaults (stored t r w).
Proof. done. Qed.

End Organizations.

(** X5.  The creator of an organization becomes its owner.  When the store
    accepts both statements of [POST /api/organizations], the organization
    row is stored and returned, a membership row makes the principal its
    [owner], the organization is among those [getUserOrganizations] lists
    for the principal, and no other principal has a role in it.  The id is
    the one of the body or, without one, a fresh uuid; it is assumed to be
    named by no membership row yet. *)
Theorem organization_creator_becomes_owner (w : World) (P : string) (data : Obj) :
  noFaults w →
  let organization := newRow organizations data w in
  let newId := prop organization "id" in
  newId ≠ Null →
  (∀ m, In m (db w organizationMembers) → prop m "organizationId" ≠ newId) →
  ∃ w',
    Routes.handle P (PostOrganizations (Some data)) w
    = (Ok (resJson (JObject organization)), w')
    ∧ db w' organizations = (db w organizations ++ [organization])%list
    ∧ selectUserRole (db w') (Str P) newId = Str "owner"
    ∧ In organization (joinUserOrganizations (db w') (Str P))
    ∧ (∀ Q, Q ≠ P → selectUserRole (db w') (Str Q) newId = Null)
    ∧ (data !! "id" = None → newId = Str (uuids w (drawn w))).
Proof.
  intros Hnf organization newId Hnull Hfresh.
  assert (Hdef : newId ≠ Undefined) by (apply newRow_id_defined; simpl; tauto).
  unfold Routes.handle. rewrite postOrganizations_run. cbn zeta.
  rewrite (noFaults_nextFails _ Hnf).
  rewrite (noFaults_nextFails _ (noFaults_stored _ _ _ (noFaults_advance _ _ Hnf))).
  fold organization. fold newId.
  set (member := <["organizationId" := newId]> _).
  set (w3 := advance _ (stored _ _ _)).
  set (row := newRow organizationMembers member w3).
  destruct (owner_row P newId (Date (now w)) w3 Hdef) as (Horg & Huser & Hrole & Hactive).
  fold member in Horg, Huser, Hrole, Hactive. fold row in Horg, Huser, Hrole, Hactive.
  eexists. split; [reflexivity|].
  set (w' := stored organizationMembers row w3).
  assert (Hmembers : db w' organizationMembers = (db w organizationMembers ++ [row])%list).
  { unfold w', stored. cbn [db]. rewrite setTable_same. unfold w3. cbn [db advance stored].
    by rewrite setTable_other. }
  assert (Horgs : db w' organizations = (db w organizations ++ [organization])%list).
  { unfold w', stored. cbn [db]. rewrite setTable_other by done.
    unfold w3. cbn [db advance stored]. by rewrite setTable_same. }
  assert (Hpasses : ∀ u, activeMembership (Str u) newId row = bool_decide (u = P)).
  { intros u. unfold activeMembership, Sql.and. simpl.
    rewrite (proj2 (Sql_eq_true "organizationId" newId row Hdef Hnull) Horg).
    rewrite (proj2 (Sql_eq_true "isActive" (Bool true) row ltac:(done) ltac:(done)) Hactive).
    rewrite Sql_eq_decide, Huser by done. simpl. rewrite andb_true_r.
    apply bool_decide_ext. split; [by intros [= ->]|by intros ->]. }
  split; [done|]. split; [|split; [|split]].
  - unfold selectUserRole. fold (activeMemberships (db w') (Str P) newId).
    rewrite (role_of_added_member (db w) (db w') row _ _ Hmembers Hfresh).
    simpl. rewrite Hpasses, bool_decide_eq_true_2 by done. simpl.
    rewrite Hrole. unfold prop. by rewrite lookup_singleton_eq.
  - apply in_flat_map. exists organization. split.
    + rewrite Horgs. apply in_or_app. right. by left.
    + apply in_map_iff. exists row. split; [done|]. apply where_In. split.
      * rewrite Hmembers. apply in_or_app. right. by left.
      * fold newId. specialize (Hpasses P). rewrite bool_decide_eq_true_2 in Hpasses by done.
        unfold activeMembership, Sql.and in Hpasses. simpl in Hpasses.
        unfold Sql.and. simpl.
        destruct (Sql.eq "userId" _ row), (Sql.eq "organizationId" _ row),
          (Sql.eq "isActive" _ row); done.
  - intros Q HQ. apply selectUserRole_none.
    rewrite (role_of_added_member (db w) (db w') row _ _ Hmembers Hfresh).
    simpl. by rewrite Hpasses, bool_decide_eq_false_2.
  - intros Hid. unfold newId, organization.
    rewrite (newRow_prop _ _ _ "id" DefaultRandom) by (simpl; tauto). by rewrite Hid.
Qed.

Lemma organization_creator_becomes_owner_witness :
  let data : Obj := {[ "name" := Str "West Farm" ]} in
  let organization := newRow organizations data Sample.world in
  ∃ w',
    Routes.handle "vic" (PostOrganizations (Some data)) Sample.world
    = (Ok (resJson (JObject organization)), w')
    ∧ db w' organizations = (db Sample.world organizations ++ [organization])%list
    ∧ selectUserRole (db w') (Str "vic") (prop organization "id") = Str "owner"
    ∧ In organization (joinUserOrganizations (db w') (Str "vic"))
    ∧ (∀ Q, Q ≠ "vic" → selectUserRole (db w') (Str Q) (prop organization "id") = Null)
    ∧ (data !! "id" = None
       → prop organization "id" = Str (uuids Sample.world (drawn Sample.world))).
Proof.
  intros data organization.
  apply (organization_creator_becomes_owner Sample.world "vic" data).
  - constructor.
  - by vm_compute.
  - intros m Hm. simpl in Hm.
    destruct Hm as [<- | [<- | [<- | [<- | [<- | []]]]]]; by vm_compute.
Defined.

(** X6.  Creating an organization is not atomic.  When the store accepts
    [createOrganization] and rejects [addOrganizationMember], the request is
    answered 500 "Failed to create organization", yet the organization row
    stays in the table, no membership row is added, and no principal has a
    role in the new organization. *)
Theorem failed_organization_creation_leaves_an_organization_without_owner
    (w : World) (P : string) (data : Obj) (fs : list bool) :
  faults w = false :: true :: fs →
  let organization := newRow organizations data w in
  ∃ w',
    Routes.handle P (PostOrganizations (Some data)) w
    = (Ok (mkResponse 500 (message "Failed to create organization")), w')
    ∧ db w' organizations = (db w organizations ++ [organization])%list
    ∧ db w' organizationMembers = db w organizationMembers
    ∧ ((∀ m, In m (db w organizationMembers) →
             prop m "organizationId" ≠ prop organization "id") →
       ∀ Q, selectUserRole (db w') (Str Q) (prop organization "id") = Null).
Proof.
  intros Hfs organization.
  unfold Routes.handle. rewrite postOrganizations_run. cbn zeta.
  assert (Hn0 : nextFails w = false) by (unfold nextFails; by rewrite Hfs).
  rewrite Hn0.
  assert (Hn1 : ∀ c r, nextFails (stored organizations r (advance c w)) = true).
  { intros c r. unfold nextFails. cbn [faults stored advance]. by rewrite Hfs. }
  rewrite Hn1. eexists. split; [reflexivity|].
  cbn [db advance stored]. rewrite setTable_same, setTable_other by done.
  split; [done|]. split; [done|].
  intros Hfresh Q. apply selectUserRole_none. apply where_nil. intros m Hm.
  unfold activeMembership, Sql.and. simpl.
  rewrite (Sql_eq_other "organizationId") by by apply Hfresh.
  by rewrite andb_false_r.
Qed.

Lemma failed_organization_creation_leaves_an_organization_without_owner_witness :
  let data : Obj := {[ "name" := Str "West Farm" ]} in
  let w := Sample.failing [false; true] in
  let organization := newRow organizations data w in
  ∃ w',
    Routes.handle "vic" (PostOrganizations (Some data)) w
    = (Ok (mkResponse 500 (message "Failed to create organization")), w')
    ∧ db w' organizations = (db w organizations ++ [organization])%list
    ∧ db w' organizationMembers = db w organizationMembers
    ∧ ((∀ m, In m (db w organizationMembers) →
             prop m "organizationId" ≠ prop organization "id") →
       ∀ Q, selectUserRole (db w') (Str Q) (prop organization "id") = Null).
Proof.
  intros data w organization.
  apply (failed_organization_creation_leaves_an_organization_without_owner
           w "vic" data []).
  reflexivity.
Defined.

(** ** Creating and moving records *)

Section Creations.
Import Routes.

Lemma newRow_given t data w k d v :
  In (k, d) (columns t) → prop data k = v → v ≠ Undefined →
  prop (newRow t data w) k = v.
Proof.
  intros Hin Hv Hdef. rewrite (newRow_prop _ _ _ _ _ Hin).
  unfold prop in Hv. destruct (data !! k) as [v'|]; simpl in Hv; [|congruence].
  subst v'. by rewrite decide_False.
Qed.

Lemma newRow_active t data w :
  In ("isActive", DefaultTo (Bool true)) (columns t) →
  prop data "isActive" = Undefined ∨ prop data "isActive" = Bool true →
  prop (newRow t data w) "isActive" = Bool true.
Proof.
  intros Hin Hv. rewrite (newRow_prop _ _ _ _ _ Hin).
  unfold prop in Hv. destruct (data !! "isActive") as [v|]; simpl in Hv; [|done].
  destruct Hv as [-> | ->]; [by rewrite decide_True|by rewrite decide_False].
Qed.

Lemma selectUserRole_null d u o :
  o = Undefined ∨ o = Null → selectUserRole d u o = Null.
Proof.
  intros Ho. apply selectUserRole_none, where_nil. intros m _.
  unfold activeMembership, Sql.and. simpl.
  by rewrite (Sql_eq_null "organizationId"), andb_false_r.
Qed.

Lemma createRequest_handle P res body :
  handle P (createRequest res body) =
  createFor P body (createOne res) (failureMessage (createRequest res body)).
Proof. by destruct res. Qed.

Lemma createOne_run res data w :
  createOne res data w =
  if nextFails w
  then (Throw, advance (mkCall (mutation (createRequest res None)) [] (Some data) true) w)
  else let w1 := advance (mkCall (mutation (createRequest res None)) [] (Some data) false) w in
       (Ok (newRow (tableOf res) data w1),
        stored (tableOf res) (newRow (tableOf res) data w1) w1).
Proof. destruct res; apply insertInto_run. Qed.

Lemma where_one (c : Obj → bool) r : Sql.where_ c [r] = if c r then [r] else [].
Proof. done. Qed.

Lemma listingOf_other res d d' row O' :
  d' (tableOf res) = (d (tableOf res) ++ [row])%list →
  Sql.eq "organizationId" O' row = false →
  listingOf res d' O' = listingOf res d O'.
Proof.
  intros Hd Hrow.
  destruct res; unfold listingOf, selectCustomers; simpl in Hd; rewrite Hd, where_app,
    where_one; unfold Sql.and; simpl; rewrite Hrow; simpl; by rewrite app_nil_r.
Qed.

Lemma listingOf_own res d row O :
  In row (d (tableOf res)) →
  Sql.eq "organizationId" O row = true →
  (In ("isActive", DefaultTo (Bool true)) (columns (tableOf res)) →
   prop row "isActive" = Bool true) →
  In row (listingOf res d O).
Proof.
  intros Hin Horg Hactive.
  destruct res; unfold listingOf, selectCustomers; apply orderBy_In, where_In;
    (split; [done|]); unfold Sql.and; simpl; rewrite Horg; try done.
  all: rewrite (proj2 (Sql_eq_true "isActive" (Bool true) row ltac:(done) ltac:(done)));
    [done|apply Hactive; simpl; tauto].
Qed.

Lemma head_where (c : Obj → bool) rows r :
  head (Sql.where_ c rows) = Some r → In r rows ∧ c r = true.
Proof.
  intros H. apply where_In. destruct (Sql.where_ c rows) as [|r' l]; [done|].
  injection H as ->. by left.
Qed.

(** The first row with an id, after the rows with that id were overwritten
    by an assignment that keeps the id. *)
Lemma rewritten_first t s id rows :
  s !! "id" = None →
  head (Sql.where_ (Sql.eq "id" id)
          (map (fun r => if Sql.eq "id" id r then assign t s r else r) rows)) =
  assign t s <$> head (Sql.where_ (Sql.eq "id" id) rows).
Proof.
  intros Hs. unfold Sql.where_. induction rows as [|r rows IH]; [done|]. simpl.
  destruct (Sql.eq "id" id r) eqn:Hr.
  - rewrite (Sql_eq_prop _ _ r); [by rewrite Hr|].
    unfold prop. by rewrite assign_lookup, Hs.
  - by rewrite Hr.
Qed.

End Creations.

(** X7.  A record created through a creation route joins the listing of
    its organization and of no other.  When one of the five creation routes
    answers 200, the answer is the stored row, it was added at the end of
    the table of the resource, the store's comparison finds it in the
    organization of the body, the listing of that organization now contains
    it (for customers and inventory items: unless the body sets [isActive]
    to something else than [true]), and the listing of every organization in
    which the store's comparison does not find the row is what it was. *)
Theorem created_records_join_the_listing_of_their_organization
    (w : World) (P : string) (res : Resource) (data : Obj)
    (resp : Response) (w' : World) :
  Routes.handle P (createRequest res (Some data)) w = (Ok resp, w') →
  status resp = 200 →
  prop data "isActive" = Undefined ∨ prop data "isActive" = Bool true →
  let O := prop data "organizationId" in
  ∃ row,
    json resp = JObject row
    ∧ db w' (tableOf res) = (db w (tableOf res) ++ [row])%list
    ∧ Sql.eq "organizationId" O row = true
    ∧ In row (listingOf res (db w') O)
    ∧ ∀ O', Sql.eq "organizationId" O' row = false →
            listingOf res (db w') O' = listingOf res (db w) O'.
Proof.
  intros Hrun Hok Hactive O.
  rewrite createRequest_handle, createFor_run in Hrun. cbn zeta in Hrun. fold O in Hrun.
  destruct (nextFails w); [injection Hrun as <- <-; done|].
  destruct (Routes.cannotWrite _) eqn:Hrole; [injection Hrun as <- <-; done|].
  rewrite createOne_run in Hrun.
  destruct (nextFails _); [injection Hrun as <- <-; done|]. cbn zeta in Hrun.
  injection Hrun as <- <-. eexists. split; [done|].
  set (w1 := advance _ (advance _ w)). set (row := newRow (tableOf res) data w1).
  assert (Hdef : O ≠ Undefined ∧ O ≠ Null).
  { split; intros HO;
      rewrite selectUserRole_null in Hrole by (rewrite HO; auto); done. }
  destruct Hdef as [Hu Hn].
  assert (Hcol : In ("organizationId", NoDefault) (columns (tableOf res)))
    by (destruct res; simpl; tauto).
  assert (Horg : Sql.eq "organizationId" O row = true).
  { apply Sql_eq_true; [done..|]. by apply (newRow_given _ _ _ _ _ _ Hcol). }
  assert (Hd : db (stored (tableOf res) row w1) (tableOf res)
               = (db w (tableOf res) ++ [row])%list).
  { cbn [db stored]. by rewrite setTable_same. }
  split; [done|]. split; [done|]. split.
  - apply listingOf_own.
    + rewrite Hd. apply in_or_app. right. by left.
    + done.
    + intros Hflag. by apply newRow_active.
  - intros O' HO'. by apply (listingOf_other res (db w) _ row).
Qed.

Lemma created_records_join_the_listing_of_their_organization_witness :
  let data := Sample.newCustomer (Str "o1") in
  ∃ resp w' row,
    Routes.handle "ed" (createRequest Customers (Some data)) Sample.world = (Ok resp, w')
    ∧ json resp = JObject row
    ∧ db w' (tableOf Customers) = (db Sample.world (tableOf Customers) ++ [row])%list
    ∧ Sql.eq "organizationId" (prop data "organizationId") row = true
    ∧ In row (listingOf Customers (db w') (prop data "organizationId"))
    ∧ ∀ O', Sql.eq "organizationId" O' row = false →
            listingOf Customers (db w') O' = listingOf Customers (db Sample.world) O'.
Proof.
  intros data. eexists _, _.
  destruct (created_records_join_the_listing_of_their_organization
              Sample.world "ed" Customers data _ _ eq_refl eq_refl (or_introl eq_refl))
    as (row & H).
  exists row. split; [reflexivity|]. exact H.
Defined.

(** X8.  An update can move a customer to any organization.  When a
    principal who may write in the organization that owns a customer sends
    an update whose body names another [organizationId], the store
    answering, the customer row is rewritten and returned with status 200,
    and the store's comparison finds the rewritten row in the organization
    of the body; the only statements issued are the fetch of the customer,
    the role lookup for the owning organization and the update, so that the
    role of the principal in the new organization is never looked up; an
    active customer then shows in the listing of the new organization. *)
Theorem customer_update_can_move_the_customer_to_another_organization
    (w : World) (P id : string) (existing data : Obj) (O2 : JsVal) :
  noFaults w →
  selectCustomer (db w) (Str id) = Some existing →
  Routes.cannotWrite (selectUserRole (db w) (Str P) (prop existing "organizationId"))
  = false →
  data !! "organizationId" = Some O2 →
  O2 ≠ Undefined →
  data !! "id" = None →
  ∃ row w',
    Routes.handle P (PutCustomer id (Some data)) w = (Ok (resJson (JObject row)), w')
    ∧ selectCustomer (db w') (Str id) = Some row
    ∧ issued w w' =
        [customerCall (Str id) false;
         roleCall (Str P) (prop existing "organizationId") false;
         mkCall "updateCustomer" [Str id] (Some data) false]
    ∧ (O2 ≠ Null →
       Sql.eq "organizationId" O2 row = true
       ∧ (prop row "isActive" = Bool true → In row (selectCustomers (db w') O2))).
Proof.
  intros Hnf Hc Hrole HO2 Hdef Hid.
  pose proof (noFaults_nextFails _ Hnf) as Hn0.
  pose proof (noFaults_nextFails _ (noFaults_advance (customerCall (Str id) false) _ Hnf))
    as Hn1.
  unfold Routes.handle. rewrite putCustomer_run, Hn0, Hc. cbn zeta. rewrite Hn1, Hrole.
  rewrite updateCustomer_run,
    (noFaults_nextFails _ (noFaults_advance _ _ (noFaults_advance _ _ Hnf))).
  cbn zeta. cbn [now advance db].
  set (s := <["updatedAt" := Date (now w)]> data).
  assert (Hs : s !! "id" = None) by (unfold s; by rewrite lookup_insert_ne).
  unfold selectCustomer in Hc.
  destruct (Sql.where_ (Sql.eq "id" (Str id)) (db w customers)) as [|c rest] eqn:Hw;
    [done|]. injection Hc as ->. simpl.
  set (row := assign customers s existing).
  assert (Horg : prop row "organizationId" = O2).
  { unfold prop, row. rewrite assign_lookup. unfold s.
    rewrite lookup_insert_ne, HO2 by done. by rewrite decide_False. }
  assert (Hfirst : selectCustomer
                     (setTable customers
                        (map (fun r => if Sql.eq "id" (Str id) r
                                       then assign customers s r else r)
                           (db w customers)) (db w)) (Str id) = Some row).
  { unfold selectCustomer. rewrite setTable_same, rewritten_first by done. by rewrite Hw. }
  eexists _, _. split; [reflexivity|].
  split; [exact Hfirst|].
  split; [apply issued_app; cbn; by rewrite <- !app_assoc|].
  intros Hnull.
  pose proof (proj2 (Sql_eq_true "organizationId" O2 row Hdef Hnull) Horg) as Hmoved.
  split; [done|].
  intros Hactive. unfold selectCustomers. apply orderBy_In, where_In.
  apply head_where in Hfirst as [Hin _]. split; [done|].
  unfold Sql.and. simpl. rewrite Hmoved.
  by rewrite (proj2 (Sql_eq_true "isActive" (Bool true) row ltac:(done) ltac:(done)) Hactive).
Qed.

Lemma customer_update_can_move_the_customer_to_another_organization_witness :
  let existing := Sample.customer "c1" "o1" "Smith" 10 in
  let data := Sample.newCustomer (Str "o2") in
  ∃ row w',
    Routes.handle "ed" (PutCustomer "c1" (Some data)) Sample.world
    = (Ok (resJson (JObject row)), w')
    ∧ selectCustomer (db w') (Str "c1") = Some row
    ∧ issued Sample.world w' =
        [customerCall (Str "c1") false;
         roleCall (Str "ed") (prop existing "organizationId") false;
         mkCall "updateCustomer" [Str "c1"] (Some data) false]
    ∧ (Str "o2" ≠ Null →
       Sql.eq "organizationId" (Str "o2") row = true
       ∧ (prop row "isActive" = Bool true → In row (selectCustomers (db w') (Str "o2")))).
Proof.
  intros existing data.
  apply (customer_update_can_move_the_customer_to_another_organization
           Sample.world "ed" "c1" existing data (Str "o2")).
  - constructor.
  - reflexivity.
  - reflexivity.
  - reflexivity.
  - done.
  - reflexivity.
Defined.

(** X9.  Species are shared by all organizations.  A species created by an
    owner or admin of any organization is listed by [GET /api/species] for
    every authenticated principal, whatever their memberships: when the
    creation is answered 200 and the body does not set [isActive] to
    something else than [true], the next listing the store answers contains
    the created row. *)
Theorem created_species_are_listed_for_every_principal
    (w : World) (P Q : string) (data : Obj) (resp : Response) (w' : World) :
  Routes.handle P (PostSpecies (Some data)) w = (Ok resp, w') →
  status resp = 200 →
  prop data "isActive" = Undefined ∨ prop data "isActive" = Bool true →
  nextFails w' = false →
  ∃ row rows w'',
    json resp = JObject row
    ∧ Routes.handle Q GetSpecies w' = (Ok (resJson (JArray rows)), w'')
    ∧ In row rows.
Proof.
  intros Hrun Hok Hactive Hn.
  unfold Routes.handle in Hrun. rewrite postSpecies_run in Hrun. cbn zeta in Hrun.
  destruct (nextFails w); [injection Hrun as <- <-; done|].
  destruct (existsb id _); [injection Hrun as <- <-; done|].
  destruct (existsb _ _); [|injection Hrun as <- <-; done].
  unfold createSpecies in Hrun. rewrite insertInto_run in Hrun.
  destruct (nextFails _); [injection Hrun as <- <-; done|]. cbn zeta in Hrun.
  injection Hrun as <- <-.
  set (w1 := advance _ (logged _ w)) in *. set (row := newRow species data w1) in *.
  unfold Routes.handle, Routes.getSpeciesList, tryCatch, getAllSpecies.
  rewrite bind_run, select_run, Hn. eexists _, _, _. split; [done|].
  split; [reflexivity|]. apply orderBy_In, where_In. split.
  - cbn [db stored]. rewrite setTable_same. apply in_or_app. right. by left.
  - apply Sql_eq_true; [done..|]. apply newRow_active; [simpl; tauto|done].
Qed.

Lemma created_species_are_listed_for_every_principal_witness :
  ∃ resp w' row rows w'',
    Routes.handle "ann" (PostSpecies (Some Sample.newSpecies)) Sample.world = (Ok resp, w')
    ∧ json resp = JObject row
    ∧ Routes.handle "nobody" GetSpecies w' = (Ok (resJson (JArray rows)), w'')
    ∧ In row rows.
Proof.
  eexists _, _.
  destruct (created_species_are_listed_for_every_principal
              Sample.world "ann" "nobody" Sample.newSpecies _ _
              eq_refl eq_refl (or_introl eq_refl) eq_refl)
    as (row & rows & w'' & H).
  exists row, rows, w''. split; [reflexivity|]. exact H.
Defined.

(** ** Records by id *)

Section ById.

Lemma fetchById_run res id w :
  ∃ m, fetchById res id w =
       (if nextFails w then Throw else Ok (firstWithId (db w) (tableOf res) id),
        advance (mkCall m [id] None (nextFails w)) w).
Proof. destruct res; eexists; apply select_run. Qed.

Lemma amend_run res id data w :
  ∃ m, amend res id data w =
       if nextFails w then (Throw, advance (mkCall m [id] (Some data) true) w)
       else let s := <["updatedAt" := Date (now w)]> data in
            (Ok (head (map (assign (tableOf res) s)
                         (Sql.where_ (Sql.eq "id" id) (db w (tableOf res))))),
             rewritten (tableOf res) s (Sql.eq "id" id)
               (advance (mkCall m [id] (Some data) false) w)).
Proof.
  destruct res; eexists;
    unfold amend, updateCustomer, updateProcessingRecord, updateInventoryItem,
      updateInvoice, updateCutInstruction;
    rewrite bind_run, updateWhere_run; by destruct (nextFails w).
Qed.

Lemma map_lookup {A B} (f : A → B) (l : list A) i : map f l !! i = f <$> l !! i.
Proof. revert i. induction l as [|x l IH]; intros [|i]; simpl; auto. Qed.

Lemma head_app_Some {A} (l l' : list A) x : head l = Some x → head (l ++ l') = Some x.
Proof. by destruct l. Qed.

Lemma standard_columns res :
  In ("id", DefaultRandom) (columns (tableOf res))
  ∧ In ("createdAt", DefaultNow) (columns (tableOf res))
  ∧ In ("updatedAt", DefaultNow) (columns (tableOf res)).
Proof. destruct res; simpl; tauto. Qed.

End ById.

(** X10.  A created record can be fetched by the id it was given.  When the
    store accepts the insertion, the row returned by the [create] method of
    a resource gets the uuid drawn by the store as [id] and the current time
    as [createdAt] and [updatedAt] where the body gives none, and is what
    the [get] method of the resource then returns for that id, provided the
    [get] method found no row for that uuid before; every record that the
    [get] method found before, it still finds. *)
Theorem created_records_are_fetched_by_their_id
    (w : World) (res : Resource) (data : Obj) :
  nextFails w = false →
  data !! "id" = None →
  firstWithId (db w) (tableOf res) (Str (uuids w (drawn w))) = None →
  ∃ row w1,
    createOne res data w = (Ok row, w1)
    ∧ prop row "id" = Str (uuids w (drawn w))
    ∧ (data !! "createdAt" = None → prop row "createdAt" = Date (now w))
    ∧ (data !! "updatedAt" = None → prop row "updatedAt" = Date (now w))
    ∧ (nextFails w1 = false → (fetchById res (prop row "id") w1).1 = Ok (Some row))
    ∧ (∀ id' r, firstWithId (db w) (tableOf res) id' = Some r →
                firstWithId (db w1) (tableOf res) id' = Some r).
Proof.
  intros Hn Hid Hfresh. rewrite createOne_run, Hn. cbn zeta.
  set (w0 := advance _ w). set (row := newRow (tableOf res) data w0).
  destruct (standard_columns res) as (Hcid & Hccreated & Hcupdated).
  assert (Hrowid : prop row "id" = Str (uuids w (drawn w))).
  { unfold row. by rewrite (newRow_prop _ _ _ _ _ Hcid), Hid. }
  eexists _, _. split; [reflexivity|]. split; [done|]. split; [|split; [|split]].
  - intros Hk. unfold row. by rewrite (newRow_prop _ _ _ _ _ Hccreated), Hk.
  - intros Hk. unfold row. by rewrite (newRow_prop _ _ _ _ _ Hcupdated), Hk.
  - intros Hn1. destruct (fetchById_run res (prop row "id") (stored (tableOf res) row w0))
      as [m ->]. rewrite Hn1. simpl. f_equal.
    unfold firstWithId. rewrite setTable_same, where_app, where_one.
    replace (Sql.where_ (Sql.eq "id" (prop row "id")) (db w (tableOf res)))
      with (@nil Obj).
    + simpl. by rewrite (proj2 (Sql_eq_true "id" (prop row "id") row
                                  ltac:(by rewrite Hrowid) ltac:(by rewrite Hrowid))).
    + rewrite Hrowid. unfold firstWithId in Hfresh.
      by destruct (Sql.where_ _ (db w (tableOf res))).
  - intros id' r Hr. unfold firstWithId in *. cbn [db stored].
    rewrite setTable_same, where_app. by apply head_app_Some.
Qed.

Lemma created_records_are_fetched_by_their_id_witness :
  let data := Sample.newCustomer (Str "o1") in
  ∃ row w1,
    createOne Customers data Sample.world = (Ok row, w1)
    ∧ prop row "id" = Str (uuids Sample.world (drawn Sample.world))
    ∧ (data !! "createdAt" = None → prop row "createdAt" = Date (now Sample.world))
    ∧ (data !! "updatedAt" = None → prop row "updatedAt" = Date (now Sample.world))
    ∧ (nextFails w1 = false → (fetchById Customers (prop row "id") w1).1 = Ok (Some row))
    ∧ (∀ id' r, firstWithId (db Sample.world) (tableOf Customers) id' = Some r →
                firstWithId (db w1) (tableOf Customers) id' = Some r).
Proof.
  intros data.
  apply (created_records_are_fetched_by_their_id Sample.world Customers data).
  - reflexivity.
  - reflexivity.
  - reflexivity.
Defined.

(** X11.  An update touches the named record and nothing else.  When the
    store accepts the statement of an [update] method, the table keeps its
    length, every row with another id stays where it was, unchanged, and
    the other tables are untouched.  If no row has the id, the method
    returns [undefined] and the table is unchanged; otherwise it returns the
    first such row, rewritten: [updatedAt] is the current time, each
    property the body leaves out is as before, and, the body giving no [id],
    the rewritten row is what the [get] method then finds for the id. *)
Theorem updates_touch_only_the_named_record
    (w : World) (res : Resource) (id : JsVal) (data : Obj) :
  nextFails w = false →
  ∃ result w',
    amend res id data w = (Ok result, w')
    ∧ length (db w' (tableOf res)) = length (db w (tableOf res))
    ∧ (∀ i r, db w (tableOf res) !! i = Some r → Sql.eq "id" id r = false →
              db w' (tableOf res) !! i = Some r)
    ∧ (∀ t, t ≠ tableOf res → db w' t = db w t)
    ∧ match firstWithId (db w) (tableOf res) id with
      | None => result = None ∧ db w' (tableOf res) = db w (tableOf res)
      | Some r =>
          ∃ r', result = Some r'
                ∧ prop r' "updatedAt" = Date (now w)
                ∧ (∀ k, k ≠ "updatedAt" → data !! k = None → r' !! k = r !! k)
                ∧ (data !! "id" = None →
                   firstWithId (db w') (tableOf res) id = Some r')
      end.
Proof.
  intros Hn. destruct (amend_run res id data w) as [m ->]. rewrite Hn. cbn zeta.
  set (s := <["updatedAt" := Date (now w)]> data).
  eexists _, _. split; [reflexivity|]. cbn [db rewritten advance].
  rewrite setTable_same. split; [by rewrite length_map|]. split; [|split].
  - intros i r Hi Hr. by rewrite map_lookup, Hi; simpl; rewrite Hr.
  - intros t Ht. by rewrite setTable_other.
  - unfold firstWithId.
    destruct (Sql.where_ (Sql.eq "id" id) (db w (tableOf res))) as [|r rest] eqn:Hw; simpl.
    + split; [done|]. pose proof (proj1 (where_nil _ _) Hw) as Hnone.
      rewrite <- (map_id (db w (tableOf res))) at 2. apply map_ext_in.
      intros r Hr. by rewrite (Hnone r Hr).
    + eexists. split; [done|].
      destruct (standard_columns res) as (_ & _ & Hcol).
      assert (Hmem : ∀ k d, In (k, d) (columns (tableOf res)) →
                bool_decide (k ∈ map fst (columns (tableOf res))) = true).
      { intros k d Hin. apply bool_decide_eq_true_2, list_elem_of_In, in_map_iff.
        by exists (k, d). }
      split; [|split].
      * unfold prop. rewrite assign_lookup. unfold s. rewrite lookup_insert_eq.
        rewrite decide_False by done. by rewrite (Hmem _ _ Hcol).
      * intros k Hk Hd. rewrite assign_lookup. unfold s.
        by rewrite lookup_insert_ne, Hd.
      * intros Hid. unfold firstWithId. rewrite setTable_same, rewritten_first.
        -- by rewrite Hw.
        -- unfold s. by rewrite lookup_insert_ne.
Qed.

Lemma updates_touch_only_the_named_record_witness :
  let w := Sample.world in
  let data : Obj := {[ "phone" := Str "555-0100" ]} in
  ∃ result w',
    amend Customers (Str "c1") data w = (Ok result, w')
    ∧ length (db w' customers) = length (db w customers)
    ∧ (∀ i r, db w customers !! i = Some r → Sql.eq "id" (Str "c1") r = false →
              db w' customers !! i = Some r)
    ∧ (∀ t, t ≠ customers → db w' t = db w t)
    ∧ match firstWithId (db w) customers (Str "c1") with
      | None => result = None ∧ db w' customers = db w customers
      | Some r =>
          ∃ r', result = Some r'
                ∧ prop r' "updatedAt" = Date (now w)
                ∧ (∀ k, k ≠ "updatedAt" → data !! k = None → r' !! k = r !! k)
                ∧ (data !! "id" = None →
                   firstWithId (db w') customers (Str "c1") = Some r')
      end.
Proof.
  intros w data.
  apply (updates_touch_only_the_named_record Sample.world Customers (Str "c1") data).
  reflexivity.
Defined.

(** ** Memberships *)

Section Memberships.

Lemma joined_membership o u m :
  Sql.and [Sql.eq "organizationId" (prop o "id"); Sql.eq "userId" u;
           Sql.eq "isActive" (Bool true)] m
  = activeMembership u (prop o "id") m.
Proof.
  unfold activeMembership, Sql.and. simpl.
  by destruct (Sql.eq "organizationId" _ m), (Sql.eq "userId" _ m).
Qed.

Lemma nonempty_In {A} (l : list A) : l ≠ [] ↔ ∃ x, In x l.
Proof.
  destruct l as [|x l]; split; try done.
  - by intros [x []].
  - intros _. exists x. by left.
Qed.

End Memberships.

(** X12.  [getUserOrganizations] lists the organizations in which the user
    has an active membership: an organization row is returned exactly when
    the table holds it and [getUserRole] finds an active membership row of
    the user for its id.  The database is left as it was. *)
Theorem listed_organizations_are_those_of_active_memberships
    (w : World) (userId : JsVal) (orgs : list Obj) (w' : World) :
  getUserOrganizations userId w = (Ok orgs, w') →
  db w' = db w
  ∧ ∀ o, In o orgs ↔
         In o (db w organizations)
         ∧ activeMemberships (db w) userId (prop o "id") ≠ [].
Proof.
  unfold getUserOrganizations. rewrite select_run.
  destruct (nextFails w); [done|]. intros [= <- <-]. split; [done|].
  intros o. unfold joinUserOrganizations. rewrite in_flat_map. split.
  - intros (x & Hx & Hin). apply in_map_iff in Hin as (m & -> & Hm).
    split; [done|]. apply nonempty_In. exists m.
    unfold activeMemberships. apply where_In. apply where_In in Hm as [Hm Hc].
    by rewrite joined_membership in Hc.
  - intros [Ho Hne]. exists o. split; [done|].
    apply nonempty_In in Hne as [m Hm]. apply in_map_iff. exists m. split; [done|].
    apply where_In. apply where_In in Hm as [Hm Hc]. by rewrite joined_membership.
Qed.

Lemma listed_organizations_are_those_of_active_memberships_witness :
  ∃ orgs w',
    getUserOrganizations (Str "zoe") Sample.world = (Ok orgs, w')
    ∧ db w' = db Sample.world
    ∧ ∀ o, In o orgs ↔
           In o (db Sample.world organizations)
           ∧ activeMemberships (db Sample.world) (Str "zoe") (prop o "id") ≠ [].
Proof.
  eexists _, _. split; [reflexivity|].
  apply (listed_organizations_are_those_of_active_memberships
           Sample.world (Str "zoe")).
  reflexivity.
Defined.

(** X13.  A role that [getUserRole] resolves is the role of a member that
    [getOrganizationMembers] lists: when the role lookup of a user in an
    organization returns a role and the listing of the members of that
    organization is then answered, some listed row has that user and that
    role. *)
Theorem resolved_roles_belong_to_listed_members
    (w : World) (userId orgId role : JsVal) (w1 : World)
    (members : list Obj) (w2 : World) :
  getUserRole userId orgId w = (Ok role, w1) →
  role ≠ Null →
  getOrganizationMembers orgId w1 = (Ok members, w2) →
  ∃ m, In m members ∧ prop m "userId" = userId ∧ prop m "role" = role.
Proof.
  rewrite getUserRole_run. destruct (nextFails w); [done|]. intros [= <- <-] Hrole.
  unfold getOrganizationMembers. rewrite select_run.
  destruct (nextFails _); [done|]. intros [= <- _]. cbn [db advance].
  destruct (selectUserRole_row (db w) userId orgId) as [Hnull | (m & Hin & Hm & Heq)];
    [done|].
  exists m. unfold activeMembership, Sql.and in Hm. simpl in Hm.
  apply andb_true_iff in Hm as [Hu Hm]. apply andb_true_iff in Hm as [Ho Hm].
  split; [|split; [by apply Sql_eq_sound in Hu|done]].
  unfold selectMembers. apply where_In. split; [done|].
  unfold Sql.and. simpl. by rewrite Ho.
Qed.

Lemma resolved_roles_belong_to_listed_members_witness :
  ∃ role w1 members w2 m,
    getUserRole (Str "ed") (Str "o1") Sample.world = (Ok role, w1)
    ∧ getOrganizationMembers (Str "o1") w1 = (Ok members, w2)
    ∧ In m members ∧ prop m "userId" = Str "ed" ∧ prop m "role" = role.
Proof.
  eexists _, _, _, _.
  destruct (resolved_roles_belong_to_listed_members
              Sample.world (Str "ed") (Str "o1") (Str "editor") _ _ _
              eq_refl ltac:(done) eq_refl) as (m & H).
  exists m. split; [reflexivity|]. split; [reflexivity|]. exact H.
Defined.

(** ** The dashboard *)

Section Dashboard.

Lemma getDashboardMetrics_run orgId w :
  noFaults w →
  ∃ w',
    getDashboardMetrics orgId w =
    (Ok (<["totalAnimals" :=
             Num (Z.of_nat (length (Sql.where_ (Sql.eq "organizationId" orgId)
                                      (db w processingRecords))))]>
           ({[ "activeCustomers" :=
                 Num (Z.of_nat (length (Sql.where_
                                          (Sql.and [Sql.eq "organizationId" orgId;
                                                    Sql.eq "isActive" (Bool true)])
                                          (db w customers)))) ]} : Obj)), w')
    ∧ db w' = db w ∧ noFaults w'.
Proof.
  intros Hnf. unfold getDashboardMetrics.
  pose proof (noFaults_advance (mkCall "getDashboardMetrics" [orgId] None false)) as Hadv.
  rewrite bind_run, select_run, (noFaults_nextFails _ Hnf). cbn beta iota zeta.
  rewrite bind_run, select_run, (noFaults_nextFails _ (Hadv _ Hnf)). cbn beta iota zeta.
  rewrite bind_run, select_run, (noFaults_nextFails _ (Hadv _ (Hadv _ Hnf))).
  cbn beta iota zeta.
  rewrite bind_run, select_run, (noFaults_nextFails _ (Hadv _ (Hadv _ (Hadv _ Hnf)))).
  cbn beta iota zeta.
  eexists. split; [reflexivity|]. split; [done|]. by repeat apply Hadv.
Qed.

End Dashboard.

(** X14.  The counts of the dashboard agree with the listings.  When the
    store answers, [activeCustomers] is the number of rows [getCustomers]
    returns for the organization and [totalAnimals] the number of rows
    [getProcessingRecords] returns for it. *)
Theorem dashboard_counts_agree_with_the_listings (w : World) (orgId : JsVal) :
  noFaults w →
  ∃ metrics w1 listed w2 records w3,
    getDashboardMetrics orgId w = (Ok metrics, w1)
    ∧ getCustomers orgId w1 = (Ok listed, w2)
    ∧ getProcessingRecords orgId w2 = (Ok records, w3)
    ∧ prop metrics "activeCustomers" = Num (Z.of_nat (length listed))
    ∧ prop metrics "totalAnimals" = Num (Z.of_nat (length records)).
Proof.
  intros Hnf. destruct (getDashboardMetrics_run orgId w Hnf) as (w1 & -> & Hdb & Hnf1).
  unfold getCustomers, getProcessingRecords.
  eexists _, w1, _, _, _, _. split; [reflexivity|].
  rewrite select_run, (noFaults_nextFails _ Hnf1). split; [reflexivity|].
  rewrite select_run, (noFaults_nextFails _ (noFaults_advance _ _ Hnf1)).
  split; [reflexivity|]. cbn [db advance]. rewrite Hdb.
  unfold selectCustomers. rewrite !orderBy_length. unfold prop. split.
  - by rewrite lookup_insert_ne, lookup_singleton_eq.
  - by rewrite lookup_insert_eq.
Qed.

Lemma dashboard_counts_agree_with_the_listings_witness :
  ∃ metrics w1 listed w2 records w3,
    getDashboardMetrics (Str "o1") Sample.world = (Ok metrics, w1)
    ∧ getCustomers (Str "o1") w1 = (Ok listed, w2)
    ∧ getProcessingRecords (Str "o1") w2 = (Ok records, w3)
    ∧ prop metrics "activeCustomers" = Num (Z.of_nat (length listed))
    ∧ prop metrics "totalAnimals" = Num (Z.of_nat (length records)).
Proof.
  apply (dashboard_counts_agree_with_the_listings Sample.world (Str "o1")).
  constructor.
Defined.

(** ** Users *)

Section Users.

(** The first row with an id, after the rows with that id were overwritten
    by an assignment that keeps their id. *)
Lemma overwritten_first t s id rows :
  (∀ r, Sql.eq "id" id r = true → prop (assign t s r) "id" = prop r "id") →
  head (Sql.where_ (Sql.eq "id" id)
          (map (fun r => if Sql.eq "id" id r then assign t s r else r) rows)) =
  assign t s <$> head (Sql.where_ (Sql.eq "id" id) rows).
Proof.
  intros Hs. unfold Sql.where_. induction rows as [|r rows IH]; [done|]. simpl.
  destruct (Sql.eq "id" id r) eqn:Hr.
  - rewrite (Sql_eq_prop _ _ r); [by rewrite Hr|]. by apply Hs.
  - by rewrite Hr.
Qed.

Lemma prop_Some (o : Obj) k v : prop o k = v → v ≠ Undefined → o !! k = Some v.
Proof. unfold prop. destruct (o !! k); simpl; congruence. Qed.

Lemma upsertUser_run userData w :
  upsertUser userData w =
  if nextFails w then (Throw, advance (mkCall "upsertUser" [] (Some userData) true) w)
  else
    let w1 := advance (mkCall "upsertUser" [] (Some userData) false) w in
    let conflict := Sql.eq "id" (prop userData "id") in
    let s := <["updatedAt" := Date (now w)]> userData in
    match firstWithId (db w) users (prop userData "id") with
    | Some existing => (Ok (assign users s existing), rewritten users s conflict w1)
    | None => (Ok (newRow users userData w1), registered (newRow users userData w1) w1)
    end.
Proof.
  unfold upsertUser. rewrite statement_run. destruct (nextFails w); [done|].
  unfold firstWithId. cbn [db advance now]. by destruct (head _).
Qed.

End Users.

(** X15.  [upsertUser] keeps one row per user.  When the store accepts the
    statement, a table of [users] in which no two rows share an id is again
    such a table; no row is added when a row with the id of the data exists,
    and one row otherwise; the row returned carries that id and every value
    of the data in its column, and is what [getUser] then returns for the
    id; the other tables are untouched. *)
Theorem upsertUser_keeps_one_row_per_user (w : World) (userData : Obj) (uid : string) :
  nextFails w = false →
  prop userData "id" = Str uid →
  NoDup (map (fun r => prop r "id") (db w users)) →
  ∃ user w',
    upsertUser userData w = (Ok user, w')
    ∧ NoDup (map (fun r => prop r "id") (db w' users))
    ∧ length (db w' users) =
        match firstWithId (db w) users (Str uid) with
        | Some _ => length (db w users)
        | None => S (length (db w users))
        end
    ∧ prop user "id" = Str uid
    ∧ (∀ k d v, In (k, d) (columns users) → k ≠ "updatedAt" →
                userData !! k = Some v → v ≠ Undefined → prop user k = v)
    ∧ (nextFails w' = false → (getUser (Str uid) w').1 = Ok (Some user))
    ∧ (∀ t, t ≠ users → db w' t = db w t).
Proof.
  intros Hn Hid Hnd. rewrite upsertUser_run, Hn. cbn zeta. rewrite Hid.
  set (s := <["updatedAt" := Date (now w)]> userData).
  set (w1 := advance _ w).
  pose proof (prop_Some _ _ _ Hid ltac:(done)) as Hlook.
  assert (Hmem : ∀ k d, In (k, d) (columns users) →
            bool_decide (k ∈ map fst (columns users)) = true).
  { intros k d Hin. apply bool_decide_eq_true_2, list_elem_of_In, in_map_iff.
    by exists (k, d). }
  assert (Hget : ∀ w' user, firstWithId (db w') users (Str uid) = Some user →
            nextFails w' = false → (getUser (Str uid) w').1 = Ok (Some user)).
  { intros w' user Hf Hn'. unfold getUser. rewrite select_run, Hn'. simpl.
    by rewrite <- Hf. }
  destruct (firstWithId (db w) users (Str uid)) as [existing|] eqn:Hfirst.
  - assert (Hkeeps : ∀ r, Sql.eq "id" (Str uid) r = true →
              prop (assign users s r) "id" = prop r "id").
    { intros r Hr. apply Sql_eq_sound in Hr. rewrite Hr. unfold prop.
      rewrite assign_lookup. unfold s. rewrite lookup_insert_ne, Hlook by done.
      by rewrite decide_False. }
    eexists _, _. split; [reflexivity|]. cbn [db rewritten]. rewrite setTable_same.
    split; [|split; [|split; [|split; [|split]]]].
    + unfold w1. cbn [db advance]. rewrite map_map.
      erewrite map_ext_in; [exact Hnd|]. intros r _. simpl.
      destruct (Sql.eq "id" (Str uid) r) eqn:Hr; [by apply Hkeeps|done].
    + unfold w1. cbn [db advance]. by rewrite length_map.
    + apply head_where in Hfirst as [_ Hr]. rewrite (Hkeeps _ Hr).
      by apply Sql_eq_sound in Hr.
    + intros k d v Hin Hk Hd Hv. unfold prop. rewrite assign_lookup. unfold s.
      rewrite lookup_insert_ne, Hd by done. rewrite decide_False by done.
      by rewrite (Hmem _ _ Hin).
    + apply Hget. unfold firstWithId. cbn [db rewritten]. rewrite setTable_same.
      unfold w1. cbn [db advance]. rewrite overwritten_first by done.
      unfold firstWithId in Hfirst. by rewrite Hfirst.
    + intros t Ht. by rewrite setTable_other.
  - set (row := newRow users userData w1).
    assert (Hrow : prop row "id" = Str uid).
    { apply (newRow_given _ _ _ "id" NoDefault); [simpl; tauto|done..]. }
    pose proof (proj1 (where_nil _ _)
                  (proj1 (head_None _) Hfirst)) as Hnone.
    eexists _, _. split; [reflexivity|]. cbn [db registered]. rewrite setTable_same.
    unfold w1 at 1 2. cbn [db advance].
    split; [|split; [|split; [|split; [|split]]]].
    + rewrite map_app. apply NoDup_app. split; [done|]. split; [|by apply NoDup_singleton].
      intros v Hv Hv'. apply list_elem_of_In in Hv. apply in_map_iff in Hv as (r & <- & Hr).
      apply list_elem_of_singleton in Hv'. simpl in Hv'. rewrite Hrow in Hv'.
      pose proof (Hnone r Hr) as Hne. by rewrite (proj2 (Sql_eq_true "id" (Str uid) r
                                                           ltac:(done) ltac:(done)) Hv') in Hne.
    + rewrite length_app. simpl. lia.
    + done.
    + intros k d v Hin Hk Hd Hv. by apply (newRow_given _ _ _ _ _ _ Hin); [unfold prop; rewrite Hd|].
    + apply Hget. unfold firstWithId. cbn [db registered]. rewrite setTable_same.
      unfold w1. cbn [db advance]. rewrite where_app, where_one.
      rewrite (proj2 (where_nil _ _) Hnone). simpl.
      by rewrite (proj2 (Sql_eq_true "id" (Str uid) row ltac:(done) ltac:(done)) Hrow).
    + intros t Ht. by rewrite setTable_other.
Qed.

Lemma upsertUser_keeps_one_row_per_user_witness :
  let w := Fixtures.world in
  let userData := Fixtures.user "ann" "ann@south.example" in
  ∃ user w',
    upsertUser userData w = (Ok user, w')
    ∧ NoDup (map (fun r => prop r "id") (db w' users))
    ∧ length (db w' users) =
        match firstWithId (db w) users (Str "ann") with
        | Some _ => length (db w users)
        | None => S (length (db w users))
        end
    ∧ prop user "id" = Str "ann"
    ∧ (∀ k d v, In (k, d) (columns users) → k ≠ "updatedAt" →
                userData !! k = Some v → v ≠ Undefined → prop user k = v)
    ∧ (nextFails w' = false → (getUser (Str "ann") w').1 = Ok (Some user))
    ∧ (∀ t, t ≠ users → db w' t = db w t).
Proof.
  intros w userData.
  apply (upsertUser_keeps_one_row_per_user Fixtures.world userData "ann").
  - reflexivity.
  - reflexivity.
  - apply (bool_decide_unpack _). by vm_compute.
Defined.

(** ** Deletions *)

Section Deletions.

Lemma deleteWhere_run m a t c w :
  deleteWhere m a t c w =
  if nextFails w then (Throw, advance (mkCall m a None true) w)
  else (Ok tt, purged t c (advance (mkCall m a None false) w)).
Proof. unfold deleteWhere. by rewrite statement_run. Qed.

Lemma erase_run k id w :
  ∃ m, erase k id w =
       if nextFails w then (Throw, advance (mkCall m [id] None true) w)
       else (Ok tt, purged (tableOf (resourceOf k)) (Sql.eq "id" id)
                      (advance (mkCall m [id] None false) w)).
Proof. destruct k; eexists; apply deleteWhere_run. Qed.

Lemma head_where_purged (c c' : Obj → bool) rows r :
  head (Sql.where_ c' rows) = Some r → c r = false →
  head (Sql.where_ c' (List.filter (fun r => negb (c r)) rows)) = Some r.
Proof.
  intros Hr Hc. unfold Sql.where_ in *.
  induction rows as [|r0 rows IH]; [done|]. simpl in *.
  destruct (c' r0) eqn:Hc'.
  - injection Hr as ->. rewrite Hc. simpl. by rewrite Hc'.
  - destruct (c r0); simpl; [by apply IH|]. rewrite Hc'. by apply IH.
Qed.

Lemma inventory_deactivation_lookup w r k :
  assign inventoryItems (deactivation w) r !! k =
  if bool_decide (k = "isActive") then Some (Bool false)
  else if bool_decide (k = "updatedAt") then Some (Date (now w))
  else r !! k.
Proof.
  rewrite assign_lookup. unfold deactivation.
  destruct (decide (k = "isActive")) as [->|H1]; [by rewrite lookup_insert_eq|].
  rewrite lookup_insert_ne, (bool_decide_eq_false_2 _ H1) by done.
  destruct (decide (k = "updatedAt")) as [->|H2]; [by rewrite lookup_singleton_eq|].
  by rewrite lookup_singleton_ne, (bool_decide_eq_false_2 _ H2).
Qed.

End Deletions.

(** X16.  Processing records, cut instructions and invoices are deleted for
    good.  When the store accepts the statement of their [delete] method,
    the rows in which the store's comparison finds the given id leave the
    table and every other row stays: the [get] method then returns
    [undefined] for the id, still finds every record it found before and
    that has stayed, and finds no record where it found none; the listing of
    every organization loses exactly the rows with that id, and the other
    tables are untouched. *)
Theorem erased_records_are_gone (w : World) (k : Erasable) (id : JsVal) :
  nextFails w = false →
  let res := resourceOf k in
  ∃ w',
    erase k id w = (Ok tt, w')
    ∧ (∀ r, In r (db w' (tableOf res)) ↔
            In r (db w (tableOf res)) ∧ Sql.eq "id" id r = false)
    ∧ (nextFails w' = false → (fetchById res id w').1 = Ok None)
    ∧ (∀ id' r, firstWithId (db w) (tableOf res) id' = Some r →
                Sql.eq "id" id r = false →
                firstWithId (db w') (tableOf res) id' = Some r)
    ∧ (∀ id', firstWithId (db w) (tableOf res) id' = None →
              firstWithId (db w') (tableOf res) id' = None)
    ∧ (∀ orgId r, In r (listingOf res (db w') orgId) ↔
                  In r (listingOf res (db w) orgId) ∧ Sql.eq "id" id r = false)
    ∧ (∀ t, t ≠ tableOf res → db w' t = db w t).
Proof.
  intros Hn res. destruct (erase_run k id w) as [m ->]. rewrite Hn.
  eexists. split; [reflexivity|]. cbn [db purged advance]. fold res.
  assert (Hrows : ∀ r, In r (List.filter (fun r => negb (Sql.eq "id" id r))
                               (db w (tableOf res))) ↔
                       In r (db w (tableOf res)) ∧ Sql.eq "id" id r = false).
  { intros r. rewrite filter_In, negb_true_iff. done. }
  split; [|split; [|split; [|split; [|split]]]].
  - intros r. by rewrite setTable_same.
  - intros Hn'. destruct (fetchById_run res id
                            (purged (tableOf res) (Sql.eq "id" id) (advance (mkCall m [id] None false) w)))
      as [m' ->]. rewrite Hn'. simpl. f_equal. unfold firstWithId.
    rewrite setTable_same.
    replace (Sql.where_ (Sql.eq "id" id) _) with (@nil Obj); [done|].
    symmetry. apply where_nil. intros r Hr. by apply Hrows in Hr as [_ Hr].
  - intros id' r Hr Hkept. unfold firstWithId in *. rewrite setTable_same.
    by apply head_where_purged.
  - intros id' Hnone. unfold firstWithId in *. rewrite setTable_same.
    replace (Sql.where_ (Sql.eq "id" id') _) with (@nil Obj); [done|].
    symmetry. apply where_nil. intros r Hr. apply Hrows in Hr as [Hr _].
    assert (Hw : Sql.where_ (Sql.eq "id" id') (db w (tableOf res)) = [])
      by by destruct (Sql.where_ _ (db w (tableOf res))).
    by apply (proj1 (where_nil _ _) Hw).
  - intros orgId r. unfold res.
    destruct k; cbn [listingOf resourceOf tableOf];
      rewrite !orderBy_In, !where_In, setTable_same, filter_In, negb_true_iff; tauto.
  - intros t Ht. by rewrite setTable_other.
Qed.

Lemma erased_records_are_gone_witness :
  let w := Fixtures.world in
  let id := Str "i2" in
  let res := resourceOf AnInvoice in
  ∃ w',
    erase AnInvoice id w = (Ok tt, w')
    ∧ (∀ r, In r (db w' (tableOf res)) ↔
            In r (db w (tableOf res)) ∧ Sql.eq "id" id r = false)
    ∧ (nextFails w' = false → (fetchById res id w').1 = Ok None)
    ∧ (∀ id' r, firstWithId (db w) (tableOf res) id' = Some r →
                Sql.eq "id" id r = false →
                firstWithId (db w') (tableOf res) id' = Some r)
    ∧ (∀ id', firstWithId (db w) (tableOf res) id' = None →
              firstWithId (db w') (tableOf res) id' = None)
    ∧ (∀ orgId r, In r (listingOf res (db w') orgId) ↔
                  In r (listingOf res (db w) orgId) ∧ Sql.eq "id" id r = false)
    ∧ (∀ t, t ≠ tableOf res → db w' t = db w t).
Proof.
  intros w id. apply (erased_records_are_gone w AnInvoice id). reflexivity.
Defined.

(** X17.  Deleting an inventory item is a soft delete.  When the store
    accepts the statement of [deleteInventoryItem], no row leaves the table:
    the rows with the given id get [isActive] [false] and the current time
    as [updatedAt], every other row stays as it was.  Afterwards the listing
    of no organization ([getInventoryItems]) shows a row with that id, while
    [getInventoryItem] still returns the row, every other property as
    before. *)
Theorem inventory_deletion_is_soft (w : World) (id : JsVal) :
  nextFails w = false →
  ∃ w',
    deleteInventoryItem id w = (Ok tt, w')
    ∧ length (db w' inventoryItems) = length (db w inventoryItems)
    ∧ (∀ i r, db w inventoryItems !! i = Some r → Sql.eq "id" id r = false →
              db w' inventoryItems !! i = Some r)
    ∧ (∀ orgId r, In r (listingOf Inventory (db w') orgId) → Sql.eq "id" id r = false)
    ∧ (∀ item, firstWithId (db w) inventoryItems id = Some item →
         ∃ item',
           (nextFails w' = false → (getInventoryItem id w').1 = Ok (Some item'))
           ∧ prop item' "isActive" = Bool false
           ∧ prop item' "updatedAt" = Date (now w)
           ∧ ∀ k, k ≠ "isActive" → k ≠ "updatedAt" → item' !! k = item !! k)
    ∧ (∀ t, t ≠ inventoryItems → db w' t = db w t).
Proof.
  intros Hn. unfold deleteInventoryItem. rewrite bind_run, updateWhere_run, Hn.
  cbn beta iota zeta. eexists. split; [reflexivity|].
  cbn [db rewritten advance]. rewrite setTable_same.
  set (s := deactivation _).
  assert (Hs : s = deactivation w) by done. rewrite Hs. clear s Hs.
  split; [by rewrite length_map|]. split; [|split; [|split]].
  - intros i r Hi Hr. by rewrite map_lookup, Hi; simpl; rewrite Hr.
  - intros orgId r Hin. unfold listingOf in Hin.
    apply orderBy_In, where_In in Hin as [Hin Hc].
    unfold Sql.and in Hc. cbn [forallb] in Hc. apply andb_true_iff in Hc as [_ Hc].
    apply andb_true_iff in Hc as [Hc _]. apply Sql_eq_sound in Hc.
    apply in_map_iff in Hin as (r0 & Hr & _).
    destruct (Sql.eq "id" id r0) eqn:H0; [|by subst r].
    subst r.
    assert (Hf : prop (assign inventoryItems (deactivation w) r0) "isActive" = Bool false).
    { unfold prop. by rewrite inventory_deactivation_lookup. }
    congruence.
  - intros item Hitem. exists (assign inventoryItems (deactivation w) item).
    split; [|split; [|split]].
    + intros Hn'. unfold getInventoryItem. rewrite select_run, Hn'. simpl. f_equal.
      rewrite setTable_same, overwritten_first.
      * unfold firstWithId in Hitem. by rewrite Hitem.
      * intros r _. unfold prop. by rewrite inventory_deactivation_lookup.
    + unfold prop. by rewrite inventory_deactivation_lookup.
    + unfold prop. by rewrite inventory_deactivation_lookup.
    + intros k H1 H2. rewrite inventory_deactivation_lookup.
      by rewrite (bool_decide_eq_false_2 _ H1), (bool_decide_eq_false_2 _ H2).
  - intros t Ht. by rewrite setTable_other.
Qed.

Lemma inventory_deletion_is_soft_witness :
  let w := Fixtures.world in
  ∃ w',
    deleteInventoryItem (Str "s1") w = (Ok tt, w')
    ∧ length (db w' inventoryItems) = length (db w inventoryItems)
    ∧ (∀ i r, db w inventoryItems !! i = Some r → Sql.eq "id" (Str "s1") r = false →
              db w' inventoryItems !! i = Some r)
    ∧ (∀ orgId r, In r (listingOf Inventory (db w') orgId) →
                  Sql.eq "id" (Str "s1") r = false)
    ∧ (∀ item, firstWithId (db w) inventoryItems (Str "s1") = Some item →
         ∃ item',
           (nextFails w' = false → (getInventoryItem (Str "s1") w').1 = Ok (Some item'))
           ∧ prop item' "isActive" = Bool false
           ∧ prop item' "updatedAt" = Date (now w)
           ∧ ∀ k, k ≠ "isActive" → k ≠ "updatedAt" → item' !! k = item !! k)
    ∧ (∀ t, t ≠ inventoryItems → db w' t = db w t).
Proof.
  intros w. apply (inventory_deletion_is_soft Fixtures.world (Str "s1")).
  reflexivity.
Defined.

(** ** Seeding *)

Section Seeding.

(** The rows stored for a list of species, in a world where the store
    answers. *)
Lemma forOf_createSpecies l w :
  noFaults w →
  ∃ w' rows,
    forOf l (fun s => _ ← createSpecies s; mret tt) w = (Ok tt, w')
    ∧ noFaults w'
    ∧ db w' species = (db w species ++ rows)%list
    ∧ (∀ t, t ≠ species → db w' t = db w t)
    ∧ Forall2 (fun s r => (∀ x, prop s "name" = Str x → prop r "name" = Str x)
                          ∧ (s !! "isActive" = None → prop r "isActive" = Bool true))
        l rows.
Proof.
  revert w. induction l as [|s l IH]; intros w Hnf.
  - exists w, []. simpl. rewrite app_nil_r. by repeat split.
  - cbn [forOf]. rewrite bind_run, bind_run.
    replace (createSpecies s w) with (insertInto "createSpecies" species s w) by done.
    rewrite insertInto_run, (noFaults_nextFails _ Hnf).
    cbn [mret M_ret]. cbn beta iota zeta.
    set (w1 := advance _ w). set (r := newRow species s w1).
    destruct (IH (stored species r w1)) as (w' & rows & -> & Hnf' & Hdb & Hother & Hrows).
    { by apply noFaults_stored, noFaults_advance. }
    exists w', (r :: rows). split; [done|]. split; [done|]. split; [|split].
    + rewrite Hdb. cbn [db stored]. rewrite setTable_same. unfold w1. cbn [db advance].
      by rewrite <- app_assoc.
    + intros t Ht. rewrite (Hother t Ht). cbn [db stored]. by rewrite setTable_other.
    + constructor; [|done]. split.
      * intros x Hx. apply (newRow_given _ _ _ "name" NoDefault); [simpl; tauto|done..].
      * intros Hs. unfold r.
        rewrite (newRow_prop _ _ _ "isActive" (DefaultTo (Bool true))) by (simpl; tauto).
        by rewrite Hs.
Qed.

Lemma tryCatch_unit (body : M unit) w : (tryCatch body (mret tt) w).1 = Ok tt.
Proof. unfold tryCatch. by destruct (body w) as [[[]|] w1]. Qed.

Lemma asc_names (a b : Obj) x y :
  prop a "name" = Str x → prop b "name" = Str y →
  Sql.asc "name" a b = String.leb x y.
Proof. unfold Sql.asc. by intros -> ->. Qed.

Lemma seedDefaultSpecies_skips w :
  Sql.where_ (Sql.eq "isActive" (Bool true)) (db w species) ≠ [] →
  db (seedDefaultSpecies w).2 = db w.
Proof.
  intros Hne. unfold seedDefaultSpecies, tryCatch, getAllSpecies.
  rewrite bind_run, select_run. destruct (nextFails w); [done|].
  cbn beta iota zeta. rewrite orderBy_length.
  destruct (Sql.where_ _ _); [done|]. done.
Qed.

(** The run of [seedDefaultSpecies] in a store without active species. *)
Lemma seeded_run w :
  noFaults w →
  Sql.where_ (Sql.eq "isActive" (Bool true)) (db w species) = [] →
  ∃ r1 r2 r3 r4 w',
    seedDefaultSpecies w = (Ok tt, w')
    ∧ noFaults w'
    ∧ db w' species = (db w species ++ [r1; r2; r3; r4])%list
    ∧ (∀ t, t ≠ species → db w' t = db w t)
    ∧ Sql.where_ (Sql.eq "isActive" (Bool true)) (db w' species) = [r1; r2; r3; r4]
    ∧ prop r1 "name" = Str "Beef Cattle" ∧ prop r2 "name" = Str "Pork"
    ∧ prop r3 "name" = Str "Lamb" ∧ prop r4 "name" = Str "Deer".
Proof.
  intros Hnf Hnone. unfold seedDefaultSpecies, tryCatch, getAllSpecies.
  rewrite bind_run, select_run, (noFaults_nextFails _ Hnf). cbn beta iota zeta.
  rewrite Hnone. cbn [Sql.orderBy foldr length Nat.eqb].
  destruct (forOf_createSpecies defaultSpecies
              (advance (mkCall "getAllSpecies" [] None false) w))
    as (w1 & rows & -> & Hnf1 & Hdb & Hother & Hrows); [by apply noFaults_advance|].
  cbn [db advance] in Hdb, Hother.
  unfold defaultSpecies in Hrows.
  apply Forall2_cons_inv_l in Hrows as (r1 & rows1 & [Hn1 Ha1] & Hrows & ->).
  apply Forall2_cons_inv_l in Hrows as (r2 & rows2 & [Hn2 Ha2] & Hrows & ->).
  apply Forall2_cons_inv_l in Hrows as (r3 & rows3 & [Hn3 Ha3] & Hrows & ->).
  apply Forall2_cons_inv_l in Hrows as (r4 & rows4 & [Hn4 Ha4] & Hrows & ->).
  apply Forall2_nil_inv_l in Hrows as ->.
  specialize (Ha1 eq_refl). specialize (Ha2 eq_refl).
  specialize (Ha3 eq_refl). specialize (Ha4 eq_refl).
  exists r1, r2, r3, r4, w1. split; [done|]. split; [done|]. split; [done|].
  split; [done|]. split.
  - rewrite Hdb, where_app, Hnone. unfold Sql.where_. cbn [List.filter app].
    by rewrite !(proj2 (Sql_eq_true "isActive" (Bool true) _ ltac:(done) ltac:(done))).
  - split; [by apply Hn1|]. split; [by apply Hn2|]. split; [by apply Hn3|by apply Hn4].
Qed.

End Seeding.

(** X18.  [seedDefaultSpecies] seeds a store without active species with
    the four default species.  When the store answers and no row of
    [species] is active, four rows are added at the end of the table and
    the other tables are untouched; the listing [getAllSpecies] then
    returns exactly these four rows, by name: Beef Cattle, Deer, Lamb,
    Pork. *)
Theorem seeding_adds_the_four_default_species (w : World) :
  noFaults w →
  Sql.where_ (Sql.eq "isActive" (Bool true)) (db w species) = [] →
  ∃ w' rows listed w'',
    seedDefaultSpecies w = (Ok tt, w')
    ∧ db w' species = (db w species ++ rows)%list
    ∧ length rows = 4
    ∧ (∀ t, t ≠ species → db w' t = db w t)
    ∧ getAllSpecies w' = (Ok listed, w'')
    ∧ listed ≡ₚ rows
    ∧ map (fun r => prop r "name") listed
      = [Str "Beef Cattle"; Str "Deer"; Str "Lamb"; Str "Pork"].
Proof.
  intros Hnf Hnone.
  destruct (seeded_run w Hnf Hnone)
    as (r1 & r2 & r3 & r4 & w' & Hrun & Hnf' & Hdb & Hother & Hactive
        & Hn1 & Hn2 & Hn3 & Hn4).
  exists w', [r1; r2; r3; r4]. unfold getAllSpecies.
  rewrite select_run, (noFaults_nextFails _ Hnf'), Hactive.
  eexists _, _. split; [done|]. split; [done|]. split; [done|].
  split; [done|]. split; [reflexivity|]. split; [apply orderBy_perm|].
  cbn [Sql.orderBy foldr Sql.place].
  assert (H34 : String.leb "Lamb" "Deer" = false) by reflexivity.
  assert (H24 : String.leb "Pork" "Deer" = false) by reflexivity.
  assert (H23 : String.leb "Pork" "Lamb" = false) by reflexivity.
  assert (H14 : String.leb "Beef Cattle" "Deer" = true) by reflexivity.
  rewrite (asc_names r3 r4 _ _ Hn3 Hn4), H34. cbn [Sql.place].
  rewrite (asc_names r2 r4 _ _ Hn2 Hn4), H24. cbn [Sql.place].
  rewrite (asc_names r2 r3 _ _ Hn2 Hn3), H23. cbn [Sql.place].
  rewrite (asc_names r1 r4 _ _ Hn1 Hn4), H14.
  cbn [map]. by rewrite Hn1, Hn2, Hn3, Hn4.
Qed.

Lemma seeding_adds_the_four_default_species_witness :
  let w := Sample.world in
  ∃ w' rows listed w'',
    seedDefaultSpecies w = (Ok tt, w')
    ∧ db w' species = (db w species ++ rows)%list
    ∧ length rows = 4
    ∧ (∀ t, t ≠ species → db w' t = db w t)
    ∧ getAllSpecies w' = (Ok listed, w'')
    ∧ listed ≡ₚ rows
    ∧ map (fun r => prop r "name") listed
      = [Str "Beef Cattle"; Str "Deer"; Str "Lamb"; Str "Pork"].
Proof.
  intros w. apply (seeding_adds_the_four_default_species w).
  - constructor.
  - reflexivity.
Defined.

(** X19.  [seedDefaultSpecies] never throws and seeds once.  Whatever the
    store answers, it returns normally; when some row of [species] is
    active it changes nothing, so that a seeding that a failure of the
    store interrupted is not completed by a later start; and when the store
    answers, running it a second time changes nothing. *)
Theorem seeding_happens_once (w : World) :
  (seedDefaultSpecies w).1 = Ok tt
  ∧ (Sql.where_ (Sql.eq "isActive" (Bool true)) (db w species) ≠ [] →
     db (seedDefaultSpecies w).2 = db w)
  ∧ (noFaults w →
     db (seedDefaultSpecies (seedDefaultSpecies w).2).2 = db (seedDefaultSpecies w).2).
Proof.
  split; [apply tryCatch_unit|]. split; [apply seedDefaultSpecies_skips|].
  intros Hnf. apply seedDefaultSpecies_skips.
  destruct (Sql.where_ (Sql.eq "isActive" (Bool true)) (db w species)) as [|r rs] eqn:Hw.
  - destruct (seeded_run w Hnf Hw)
      as (r1 & r2 & r3 & r4 & w' & -> & _ & _ & _ & Hactive & _).
    cbn [snd]. by rewrite Hactive.
  - rewrite seedDefaultSpecies_skips; by rewrite Hw.
Qed.

Lemma seeding_happens_once_witness :
  db (seedDefaultSpecies (seedDefaultSpecies Sample.world).2).2
  = db (seedDefaultSpecies Sample.world).2.
Proof.
  apply (proj2 (proj2 (seeding_happens_once Sample.world))). constructor.
Defined.

(** ** Sanitizing and scanning requests *)

Section Requests.
Import Middleware.

(** Induction over the values of a request, with the hypothesis for every
    item of an array and every property value of an object. *)
Lemma Any_nested_ind (P : Any → Prop) :
  P AUndefined → P ANull → (∀ b, P (ABool b)) → (∀ z, P (ANum z)) →
  (∀ s, P (AStr s)) →
  (∀ items, Forall P items → P (AArr items)) →
  (∀ entries, Forall (fun kv => P kv.2) entries → P (AObj entries)) →
  ∀ v, P v.
Proof.
  intros Hu Hn Hb Hz Hs Ha Ho. fix IH 1. intros [| |b|z|s|items|entries].
  - exact Hu.
  - exact Hn.
  - apply Hb.
  - apply Hz.
  - apply Hs.
  - apply Ha. induction items as [|x items IHitems]; constructor; [apply IH|exact IHitems].
  - apply Ho. induction entries as [|[k x] entries IHentries]; constructor;
      [apply IH|exact IHentries].
Qed.

Lemma scanObject_strings matches v :
  scanObject matches v = existsb matches (strings v).
Proof.
  induction v as [| | | |s|items IH|entries IH] using Any_nested_ind; try done.
  - simpl. by rewrite orb_false_r.
  - simpl. induction IH as [|x items Hx _ IHitems]; [done|]. simpl.
    by rewrite existsb_app, Hx, IHitems.
  - simpl. induction IH as [|[k x] entries Hx _ IHentries]; [done|]. simpl in *.
    by rewrite existsb_app, Hx, IHentries.
Qed.

Lemma sanitizeObject_strings clean v :
  plain v = true → strings (sanitizeObject clean v) = map clean (strings v).
Proof.
  induction v as [| | | |s|items IH|entries IH] using Any_nested_ind; try done.
  - simpl. intros Hp. induction IH as [|x items Hx _ IHitems]; [done|]. simpl in *.
    apply andb_true_iff in Hp as [Hpx Hp]. by rewrite map_app, Hx, IHitems.
  - simpl. intros Hp. induction IH as [|[k x] entries Hx _ IHentries]; [done|].
    simpl in *. apply andb_true_iff in Hp as [Hpx Hp].
    apply andb_true_iff in Hpx as [Hk Hpx]. apply negb_true_iff in Hk. rewrite Hk.
    simpl. by rewrite map_app, Hx, IHentries.
Qed.

Lemma sanitizeObject_fixed clean v :
  plain v = true → (∀ s, In s (strings v) → clean s = s) → sanitizeObject clean v = v.
Proof.
  induction v as [| | | |s|items IH|entries IH] using Any_nested_ind; try done.
  - simpl. intros _ Hs. by rewrite Hs by by left.
  - simpl. intros Hp Hs. f_equal.
    induction IH as [|x items Hx _ IHitems]; [done|]. simpl in *.
    apply andb_true_iff in Hp as [Hpx Hp].
    rewrite Hx, IHitems; [done|done| |done|].
    + intros s Hin. apply Hs, in_or_app. by right.
    + intros s Hin. apply Hs, in_or_app. by left.
  - simpl. intros Hp Hs. f_equal.
    induction IH as [|[k x] entries Hx _ IHentries]; [done|]. simpl in *.
    apply andb_true_iff in Hp as [Hpx Hp].
    apply andb_true_iff in Hpx as [Hk Hpx]. apply negb_true_iff in Hk. rewrite Hk.
    rewrite Hx, IHentries; [done|done| |done|].
    + intros s Hin. apply Hs, in_or_app. by right.
    + intros s Hin. apply Hs, in_or_app. by left.
Qed.

Lemma existsb_false {A} (f : A → bool) l :
  existsb f l = false ↔ ∀ x, In x l → f x = false.
Proof.
  induction l as [|x l IH]; simpl; [naive_solver|].
  rewrite orb_false_iff, IH. naive_solver.
Qed.

End Requests.

(** X20.  [sqlInjectionProtection] judges the string values of the body
    and of the query, and nothing else.  The request is passed on exactly
    when no string held as a value, at any depth, by a truthy body or a
    truthy query matches one of the patterns; property names and values
    that are not strings never cause a rejection, and a rejected request is
    answered 400. *)
Theorem sql_injection_scan_judges_the_string_values
    (matches : string → bool) (req : Middleware.Inputs) :
  (Middleware.sqlInjectionProtection matches req = Security.Next ↔
   (Middleware.truthyAny (Middleware.body req) = true →
    ∀ s, In s (strings (Middleware.body req)) → matches s = false)
   ∧ (Middleware.truthyAny (Middleware.query req) = true →
      ∀ s, In s (strings (Middleware.query req)) → matches s = false))
  ∧ ∀ r, Middleware.sqlInjectionProtection matches req = Security.Sent r →
         status r = 400.
Proof.
  unfold Middleware.sqlInjectionProtection. rewrite !scanObject_strings. split.
  - destruct (Middleware.truthyAny (Middleware.body req)),
      (existsb matches (strings (Middleware.body req))) eqn:Hb; simpl.
    + split; [done|]. intros [H _]. apply existsb_false in H; [congruence|done].
    + destruct (Middleware.truthyAny (Middleware.query req)),
        (existsb matches (strings (Middleware.query req))) eqn:Hq; simpl.
      * split; [done|]. intros [_ H]. apply existsb_false in H; [congruence|done].
      * split; [|done]. intros _. split; intros _; by apply existsb_false.
      * split; [|done]. intros _. split; [intros _; by apply existsb_false|done].
      * split; [|done]. intros _. split; [intros _; by apply existsb_false|done].
    + destruct (Middleware.truthyAny (Middleware.query req)),
        (existsb matches (strings (Middleware.query req))) eqn:Hq; simpl.
      * split; [done|]. intros [_ H]. apply existsb_false in H; [congruence|done].
      * split; [|done]. intros _. split; [done|]. intros _. by apply existsb_false.
      * done.
      * done.
    + destruct (Middleware.truthyAny (Middleware.query req)),
        (existsb matches (strings (Middleware.query req))) eqn:Hq; simpl.
      * split; [done|]. intros [_ H]. apply existsb_false in H; [congruence|done].
      * split; [|done]. intros _. split; [done|]. intros _. by apply existsb_false.
      * done.
      * done.
  - intros r. destruct (_ && _); [by intros [= <-]|].
    destruct (_ && _); [by intros [= <-]|done].
Qed.

(** X21.  [sanitizeInput] rewrites the string values and nothing else.  For
    a body and a query none of whose objects has a property named
    [__proto__], the strings the sanitized request holds are the cleaned
    strings of the request, in the same places; and a request all of whose
    strings the cleaner leaves alone goes on unchanged. *)
Theorem sanitizing_rewrites_the_string_values_only
    (clean : string → string) (req : Middleware.Inputs) :
  plain (Middleware.body req) = true →
  plain (Middleware.query req) = true →
  Middleware.isObject (Middleware.body req) = true →
  Middleware.isObject (Middleware.query req) = true →
  let req' := Middleware.sanitizeInput clean req in
  strings (Middleware.body req') = map clean (strings (Middleware.body req))
  ∧ strings (Middleware.query req') = map clean (strings (Middleware.query req))
  ∧ ((∀ s, In s (strings (Middleware.body req) ++ strings (Middleware.query req)) →
           clean s = s) →
     req' = req).
Proof.
  intros Hpb Hpq Hob Hoq req'. unfold req', Middleware.sanitizeInput.
  cbn [Middleware.body Middleware.query]. rewrite Hob, Hoq.
  split; [by apply sanitizeObject_strings|]. split; [by apply sanitizeObject_strings|].
  intros Hs. destruct req as [b q]. cbn [Middleware.body Middleware.query] in *.
  rewrite !sanitizeObject_fixed; try done.
  - intros s Hin. apply Hs, in_or_app. by right.
  - intros s Hin. apply Hs, in_or_app. by left.
Qed.

Lemma sanitizing_rewrites_the_string_values_only_witness :
  let req := Middleware.mkInputs Fixtures.payload (Middleware.AObj []) in
  let req' := Middleware.sanitizeInput Fixtures.clean req in
  strings (Middleware.body req') = map Fixtures.clean (strings (Middleware.body req))
  ∧ strings (Middleware.query req') = map Fixtures.clean (strings (Middleware.query req))
  ∧ ((∀ s, In s (strings (Middleware.body req) ++ strings (Middleware.query req)) →
           Fixtures.clean s = s) →
     req' = req).
Proof.
  intros req.
  apply (sanitizing_rewrites_the_string_values_only Fixtures.clean req); reflexivity.
Defined.

(** X22.  As [registerRoutes] mounts them, [sqlInjectionProtection] judges
    what [sanitizeInput] left: a request whose body and query are objects
    without a property named [__proto__] is passed on by both middleware
    exactly when none of its string values, once cleaned, matches a
    pattern. *)
Theorem the_scan_judges_the_sanitized_strings
    (clean : string → string) (matches : string → bool) (req : Middleware.Inputs) :
  plain (Middleware.body req) = true →
  plain (Middleware.query req) = true →
  Middleware.isObject (Middleware.body req) = true →
  Middleware.isObject (Middleware.query req) = true →
  Middleware.sqlInjectionProtection matches (Middleware.sanitizeInput clean req)
  = Security.Next
  ↔ ∀ s, In s (strings (Middleware.body req) ++ strings (Middleware.query req)) →
         matches (clean s) = false.
Proof.
  intros Hpb Hpq Hob Hoq.
  unfold Middleware.sqlInjectionProtection, Middleware.sanitizeInput.
  cbn [Middleware.body Middleware.query]. rewrite Hob, Hoq.
  rewrite !scanObject_strings, !sanitizeObject_strings by done.
  assert (Ht : ∀ v, Middleware.isObject v = true →
            Middleware.truthyAny (Middleware.sanitizeObject clean v) = true).
  { by intros [| | | | | |]. }
  rewrite !Ht by done. cbn [andb].
  assert (Hex : ∀ l, existsb matches (map clean l) = existsb (fun s => matches (clean s)) l).
  { intros l. induction l as [|x l IH]; simpl; [done|]. by rewrite IH. }
  rewrite !Hex.
  destruct (existsb _ (strings (Middleware.body req))) eqn:Hb.
  - split; [done|]. intros H.
    assert (Hb' : existsb (fun s => matches (clean s)) (strings (Middleware.body req))
                  = false).
    { apply existsb_false. intros s Hs. apply H, in_or_app. by left. }
    congruence.
  - destruct (existsb _ (strings (Middleware.query req))) eqn:Hq.
    + split; [done|]. intros H.
      assert (Hq' : existsb (fun s => matches (clean s)) (strings (Middleware.query req))
                    = false).
      { apply existsb_false. intros s Hs. apply H, in_or_app. by right. }
      congruence.
    + split; [|done]. intros _ s Hs. apply in_app_or in Hs as [Hs|Hs].
      * by apply (proj1 (existsb_false _ _) Hb).
      * by apply (proj1 (existsb_false _ _) Hq).
Qed.

Lemma the_scan_judges_the_sanitized_strings_witness :
  let req := Middleware.mkInputs Fixtures.payload (Middleware.AObj []) in
  Middleware.sqlInjectionProtection Fixtures.matches
    (Middleware.sanitizeInput Fixtures.clean req)
  = Security.Next
  ↔ ∀ s, In s (strings (Middleware.body req) ++ strings (Middleware.query req)) →
         Fixtures.matches (Fixtures.clean s) = false.
Proof.
  intros req.
  apply (the_scan_judges_the_sanitized_strings Fixtures.clean Fixtures.matches req);
    reflexivity.
Defined.

(** ** Reading as a member, and as a stranger *)

Section Reading.
Import Routes.

Lemma selectUserRole_first d userId orgId m :
  head (activeMemberships d userId orgId) = Some m →
  selectUserRole d userId orgId = Js.or (prop m "role") Null.
Proof.
  unfold selectUserRole, activeMemberships.
  destruct (Sql.where_ _ _) as [|m' ms]; [done|]. intros [= ->]. simpl.
  unfold prop at 1. by rewrite lookup_singleton_eq.
Qed.

(** The outcome and the statements of a reading request directed at an
    organization, for a principal whose role there does not resolve. *)
Lemma stranger_run P O req w :
  isGet req = true →
  targetOrg (db w) req = Some O →
  truthy (selectUserRole (db w) (Str P) O) = false →
  ∃ w', handle P req w
        = (Ok (if nextFails w then serverError req else accessDenied), w')
        ∧ issued w w' = [roleCall (Str P) O (nextFails w)].
Proof.
  intros Hget Htarget Hrole.
  destruct req as [| |b|o|o| |b|o|b|i b|i|o|b|o|b|o|b|o|b]; try discriminate;
    injection Htarget as <-;
    unfold handle, getOrganizationById, getDashboard, getCustomersOf, listFor;
    rewrite readGuard_run; cbn zeta; rewrite Hrole;
    (destruct (nextFails w); eexists; (split; [reflexivity|apply issued_advance])).
Qed.

End Reading.

(** X23.  Every active member can read, whatever the role is called.  When
    the store answers, each of the five listing routes answers 200 with the
    listing of the organization exactly when [getUserRole] resolves a role
    for the principal there, and 403 "Access denied" otherwise; the role is
    not compared with any role name, so that any non-empty [role] on the
    first active membership row of the pair grants the listing. *)
Theorem members_can_read_whatever_their_role
    (w : World) (P o : string) (res : Resource) :
  noFaults w →
  let role := selectUserRole (db w) (Str P) (Str o) in
  ∃ w',
    Routes.handle P (listRequest res o) w
    = (Ok (if truthy role then resJson (JArray (listingOf res (db w) (Str o)))
           else accessDenied), w')
    ∧ db w' = db w
    ∧ ∀ m name, head (activeMemberships (db w) (Str P) (Str o)) = Some m →
                prop m "role" = Str name → name ≠ "" → truthy role = true.
Proof.
  intros Hnf role. rewrite listRequest_handle, listFor_run. cbn zeta.
  rewrite (noFaults_nextFails _ Hnf), (noFaults_nextFails _ (noFaults_advance _ _ Hnf)).
  fold role.
  assert (Hany : ∀ m name, head (activeMemberships (db w) (Str P) (Str o)) = Some m →
                           prop m "role" = Str name → name ≠ "" → truthy role = true).
  { intros m name Hm Hname Hne. unfold role.
    rewrite (selectUserRole_first _ _ _ _ Hm), Hname. unfold Js.or. cbn [truthy].
    destruct (String.eqb name "") eqn:Hempty; [by apply String.eqb_eq in Hempty|].
    cbn [negb truthy]. by rewrite Hempty. }
  destruct (truthy role) eqn:Hrole; eexists; (split; [reflexivity|]); (split; [done|]).
  - done.
  - exact Hany.
Qed.

Lemma members_can_read_whatever_their_role_witness :
  let w := Fixtures.world in
  let role := selectUserRole (db w) (Str "vic") (Str "o1") in
  ∃ w',
    Routes.handle "vic" (listRequest Inventory "o1") w
    = (Ok (if truthy role then resJson (JArray (listingOf Inventory (db w) (Str "o1")))
           else accessDenied), w')
    ∧ db w' = db w
    ∧ ∀ m name, head (activeMemberships (db w) (Str "vic") (Str "o1")) = Some m →
                prop m "role" = Str name → name ≠ "" → truthy role = true.
Proof.
  intros w. apply (members_can_read_whatever_their_role w "vic" "o1" Inventory).
  constructor.
Defined.

(** X24.  A principal without a role in an organization learns nothing
    from reading there.  For the routes that read in an organization (the
    organization itself, its dashboard, its five listings), when the role of
    the principal does not resolve, the answer and the statements issued are
    the same in any two worlds with the same membership rows and the same
    answers of the store, whatever the other tables hold: 403 "Access
    denied" after the one role lookup; in particular the answer does not
    tell whether the organization exists. *)
Theorem strangers_learn_nothing_from_reading
    (w1 w2 : World) (P : string) (O : JsVal) (req : Request) :
  isGet req = true →
  targetOrg (db w1) req = Some O →
  db w1 organizationMembers = db w2 organizationMembers →
  faults w1 = faults w2 →
  truthy (selectUserRole (db w1) (Str P) O) = false →
  (Routes.handle P req w1).1 = (Routes.handle P req w2).1
  ∧ issued w1 (Routes.handle P req w1).2 = issued w2 (Routes.handle P req w2).2
  ∧ (nextFails w1 = false → (Routes.handle P req w1).1 = Ok accessDenied).
Proof.
  intros Hget Htarget Hm Hf Hrole.
  assert (Htarget2 : targetOrg (db w2) req = Some O).
  { destruct req; try discriminate; done. }
  assert (Hrole2 : truthy (selectUserRole (db w2) (Str P) O) = false).
  { rewrite <- Hrole. f_equal. apply selectUserRole_keyed. by rewrite Hm. }
  assert (Hn : nextFails w2 = nextFails w1) by (unfold nextFails; by rewrite Hf).
  destruct (stranger_run P O req w1 Hget Htarget Hrole) as (w1' & Hr1 & Hi1).
  destruct (stranger_run P O req w2 Hget Htarget2 Hrole2) as (w2' & Hr2 & Hi2).
  rewrite Hr1, Hr2. cbn [fst snd]. rewrite Hi1, Hi2, Hn.
  split; [done|]. split; [done|]. by intros ->.
Qed.

Lemma strangers_learn_nothing_from_reading_witness :
  let w1 := Sample.world in
  let w2 := Fixtures.world in
  let req := GetOrganization "o9" in
  (Routes.handle "zoe" req w1).1 = (Routes.handle "zoe" req w2).1
  ∧ issued w1 (Routes.handle "zoe" req w1).2 = issued w2 (Routes.handle "zoe" req w2).2
  ∧ (nextFails w1 = false → (Routes.handle "zoe" req w1).1 = Ok accessDenied).
Proof.
  intros w1 w2 req.
  apply (strangers_learn_nothing_from_reading w1 w2 "zoe" (Str "o9") req); reflexivity.
Defined.
